(** * Sandy Snow Globe: particle simulation, billboard generation and
      procedural meshes

    A shallow embedding of [Particle.h], [ParticleSystem.h],
    [MeshGenerator.cpp], [Mesh.cpp], [Vertex.h], [Cactus.cpp] and the string
    helpers of [OBJLoader.cpp].

    - C++ [float] is IEEE-754 binary32, round to nearest even, taken from the
      Standard Library's executable specification [SpecFloat] at precision 24
      and maximal exponent 128.
    - [uint32_t] is a [Z] reduced modulo 2^32 after every operation.
    - [std::vector] is a [list]; [push_back] appends at the end. In
      [MeshGenerator.cpp], where the sizes are arguments of the call, a
      vector holds at most [max_size()] elements and [push_back] throws
      [std::length_error] beyond; elsewhere [push_back] and [insert] are
      plain appends. An allocation within [max_size()] is taken to succeed.
    - A loop whose exit is not structurally evident is run on fuel; the three
      possible results of a call are kept apart by [outcome]. *)

From Stdlib Require Import ZArith List Bool Lia SpecFloat Ascii.
Import ListNotations.
Open Scope Z_scope.

(* ================================================================== *)
(** ** binary32 arithmetic *)

Definition float : Set := spec_float.

Module F32.

Definition prec : Z := 24.
Definition emax : Z := 128.

Definition add : float -> float -> float := SFadd prec emax.
Definition sub : float -> float -> float := SFsub prec emax.
Definition mul : float -> float -> float := SFmul prec emax.
Definition div : float -> float -> float := SFdiv prec emax.

(** The C++ comparison operators; each is false as soon as one operand is
    a NaN. *)
Definition lt (x y : float) : bool := SFltb x y.
Definition gt (x y : float) : bool := SFltb y x.
Definition le (x y : float) : bool := SFleb x y.
Definition ge (x y : float) : bool := SFleb y x.
Definition eqb (x y : float) : bool := SFeqb x y.

Definition is_nan (x : float) : bool :=
  match x with S754_nan => true | _ => false end.

Definition is_finite (x : float) : bool :=
  match x with S754_zero _ | S754_finite _ _ _ => true | _ => false end.

Definition valid (x : float) : bool := valid_binary prec emax x.

(** [static_cast<float>] of an integer. *)
Definition of_Z (n : Z) : float := binary_normalize prec emax n 0 false.

(** A decimal literal [n / 10^k]: both parts are exact in binary32 for the
    literals of this program, so one correctly rounded division gives the
    literal's value. *)
Definition dec (n k : Z) : float := div (of_Z n) (of_Z (10 ^ k)).

Definition zero : float := S754_zero false.
Definition one : float := Eval vm_compute in of_Z 1.
Definition two : float := Eval vm_compute in of_Z 2.
Definition four : float := Eval vm_compute in of_Z 4.
Definition half : float := Eval vm_compute in dec 5 1.
Definition tenth : float := Eval vm_compute in dec 1 1.
Definition infinity : float := S754_infinity false.
Definition nan : float := S754_nan.

Definition opp : float -> float := SFopp.

(** [std::numeric_limits<float>::max()] and [lowest()]. *)
Definition max_float : float := S754_finite false 16777215 104.
Definition lowest : float := S754_finite true 16777215 104.

(** [glm::pi<float>()] and [glm::two_pi<float>()]. *)
Definition pi : float := S754_finite false 13176795 (-22).
Definition two_pi : float := S754_finite false 13176795 (-21).

End F32.

Declare Scope f32_scope.
Delimit Scope f32_scope with f32.
Infix "+" := F32.add : f32_scope.
Infix "-" := F32.sub : f32_scope.
Infix "*" := F32.mul : f32_scope.
Infix "/" := F32.div : f32_scope.
Infix "<?" := F32.lt : f32_scope.
Infix ">?" := F32.gt : f32_scope.
Infix ">=?" := F32.ge : f32_scope.
Infix "<=?" := F32.le : f32_scope.

(* ================================================================== *)
(** ** 32-bit unsigned integers *)

Definition u32_modulus : Z := 4294967296.
Definition u32_max : Z := 4294967295.

(** The value kept by a [uint32_t] after an arithmetic operation or a
    [static_cast<uint32_t>]. *)
Definition wrap32 (z : Z) : Z := z mod u32_modulus.

Definition is_u32 (z : Z) : Prop := 0 <= z < u32_modulus.

(** [zseq i k] is [i; i+1; ...; i+k-1]. *)
Fixpoint zseq (i : Z) (k : nat) : list Z :=
  match k with
  | O => []
  | S k' => i :: zseq (i + 1) k'
  end.

(* ================================================================== *)
(** ** Results of a call *)

(** The exceptions of the standard library that can leave a call:
    [std::length_error], which [std::vector] throws when [resize] or
    [reserve] is asked for more than [max_size()] elements or [push_back]
    finds the vector at [max_size()]; and [std::bad_alloc], which an
    allocation throws that the heap cannot serve. The heap is not part of
    this embedding: an allocation within [max_size()] is taken to succeed.
    So no definition below produces [bad_alloc], and a call that returns
    here can on a machine end by it instead. *)
Inductive exception := length_error | bad_alloc.

Inductive outcome (A : Type) : Type :=
| Done (a : A)            (* the call returns *)
| Fuel_out                (* the call is still running when the fuel ends *)
| Thrown (e : exception). (* the call leaves by an exception *)

Arguments Done {A} a.
Arguments Fuel_out {A}.
Arguments Thrown {A} e.

Definition bind {A B : Type} (m : outcome A) (k : A -> outcome B) : outcome B :=
  match m with
  | Done a => k a
  | Fuel_out => Fuel_out
  | Thrown e => Thrown e
  end.

Notation "x <- m ;; k" := (bind m (fun x => k))
  (at level 61, m at next level, right associativity).
Notation "' p <- m ;; k" := (bind m (fun x => let p := x in k))
  (at level 61, p pattern, m at next level, right associativity).

Definition returns {A : Type} (m : outcome A) : Prop := exists a, m = Done a.

Definition throws {A : Type} (m : outcome A) : Prop := exists e, m = Thrown e.

Section Loops.
Context {S : Type}.

(** [for (T i = i0; cond(i); i = next(i)) body]. *)
Fixpoint for_loop (fuel : nat) (cond : Z -> bool) (next : Z -> Z)
    (body : Z -> S -> outcome S) (i : Z) (s : S) : outcome S :=
  match fuel with
  | O => Fuel_out
  | Datatypes.S fuel' =>
      if cond i
      then s' <- body i s ;; for_loop fuel' cond next body (next i) s'
      else Done s
  end.

(** [for (uint32_t i = ...; cond(i); ++i)]: the increment wraps. *)
Definition for_u32 (fuel : nat) (cond : Z -> bool) :=
  for_loop fuel cond (fun i => wrap32 (i + 1)).

(** [for (int i = ...; i < n; ++i)]: [i + 1 <= n] fits an [int]. *)
Definition for_int (fuel : nat) (n : Z) :=
  for_loop fuel (fun i => i <? n) (fun i => i + 1).

(** The bodies of a list of iterations, run in order. *)
Fixpoint foldM (body : Z -> S -> outcome S) (l : list Z) (s : S) : outcome S :=
  match l with
  | [] => Done s
  | i :: l' => s' <- body i s ;; foldM body l' s'
  end.
End Loops.

(* ================================================================== *)
(** ** std::vector *)

(** [max_size()] of a [std::vector<T>]: [PTRDIFF_MAX / sizeof(T)], for a
    [ptrdiff_t] of 64 bits. *)
Definition max_size (sizeof : Z) : Z := (2 ^ 63 - 1) / sizeof.

(** [v.push_back(x)] on a vector that can hold [max] elements. *)
Definition push_back {A : Type} (max : Z) (v : list A) (x : A)
    : outcome (list A) :=
  if Z.of_nat (length v) <? max then Done (v ++ [x]) else Thrown length_error.

(** One [push_back] after the other. *)
Fixpoint push_backs {A : Type} (max : Z) (v : list A) (xs : list A)
    : outcome (list A) :=
  match xs with
  | [] => Done v
  | x :: xs' => v' <- push_back max v x ;; push_backs max v' xs'
  end.

(* ================================================================== *)
(** ** The parts of GLM the program uses on vectors *)

Module glm.

Record vec2 := mk2 { x2 : float; y2 : float }.
Record vec3 := mk3 { x : float; y : float; z : float }.
Record vec4 := mk4 { r : float; g : float; b : float; a : float }.

(** [glm::vec3(s)] *)
Definition splat3 (s : float) : vec3 := mk3 s s s.
Definition splat4 (s : float) : vec4 := mk4 s s s s.

Definition add3 (u v : vec3) : vec3 :=
  mk3 (x u + x v)%f32 (y u + y v)%f32 (z u + z v)%f32.
Definition sub3 (u v : vec3) : vec3 :=
  mk3 (x u - x v)%f32 (y u - y v)%f32 (z u - z v)%f32.
(** [v * s] with a scalar [s] *)
Definition scale3 (v : vec3) (s : float) : vec3 :=
  mk3 (x v * s)%f32 (y v * s)%f32 (z v * s)%f32.

Definition add4 (u v : vec4) : vec4 :=
  mk4 (r u + r v)%f32 (g u + g v)%f32 (b u + b v)%f32 (a u + a v)%f32.
Definition scale4 (v : vec4) (s : float) : vec4 :=
  mk4 (r v * s)%f32 (g v * s)%f32 (b v * s)%f32 (a v * s)%f32.

(** [glm::min(x, y)] is [(y < x) ? y : x] and [glm::max(x, y)] is
    [(x < y) ? y : x]. *)
Definition min (u v : float) : float := if (v <? u)%f32 then v else u.
Definition max (u v : float) : float := if (u <? v)%f32 then v else u.

Definition min3 (u v : vec3) : vec3 :=
  mk3 (min (x u) (x v)) (min (y u) (y v)) (min (z u) (z v)).
Definition max3 (u v : vec3) : vec3 :=
  mk3 (max (x u) (x v)) (max (y u) (y v)) (max (z u) (z v)).

(** [glm::clamp(x, minVal, maxVal)] is [min(max(x, minVal), maxVal)]. *)
Definition clamp (v lo hi : float) : float := min (max v lo) hi.

(** [glm::mix(x, y, a)] is [x * (1 - a) + y * a], on every component. *)
Definition mix (u v t : float) : float :=
  (u * (F32.one - t) + v * t)%f32.
Definition mix4 (u v : vec4) (t : float) : vec4 :=
  add4 (scale4 u (F32.one - t)%f32) (scale4 v t).

(** [operator==] on vectors: all components equal. *)
Definition eq2 (u v : vec2) : bool :=
  F32.eqb (x2 u) (x2 v) && F32.eqb (y2 u) (y2 v).
Definition eq3 (u v : vec3) : bool :=
  F32.eqb (x u) (x v) && F32.eqb (y u) (y v) && F32.eqb (z u) (z v).

End glm.

Notation "u +v v" := (glm.add3 u v) (at level 50, left associativity).
Notation "u -v v" := (glm.sub3 u v) (at level 50, left associativity).
Notation "v *v s" := (glm.scale3 v s) (at level 40, left associativity).

(* ================================================================== *)
(** ** Particle.h *)

Module Particle.

Record t := mk {
  position : glm.vec3;   (* world position *)
  velocity : glm.vec3;   (* movement per second *)
  color : glm.vec4;      (* RGBA *)
  life : float;          (* remaining life, seconds *)
  maxLife : float;       (* initial life *)
  size : float           (* billboard size *)
}.

(** A value-initialised particle, as [std::vector::resize] makes them. *)
Definition zeroed : t :=
  mk (glm.splat3 F32.zero) (glm.splat3 F32.zero) (glm.splat4 F32.zero)
     F32.zero F32.zero F32.zero.

Definition isAlive (p : t) : bool := (life p >? F32.zero)%f32.

Definition getAge (p : t) : float :=
  if (maxLife p >? F32.zero)%f32
  then (F32.one - life p / maxLife p)%f32
  else F32.one.

Definition set_life (l : float) (p : t) : t :=
  mk (position p) (velocity p) (color p) l (maxLife p) (size p).

End Particle.

Module ParticleVertex.

Record t := mk {
  position : glm.vec3;
  color : glm.vec4;
  texCoord : glm.vec2;
  size : float
}.

End ParticleVertex.

(* ================================================================== *)
(** ** ParticleSystem.h *)

Module ParticleSystem.

Inductive EffectType := Fire | Smoke | Sand | Snow | Sparks.

Record EmitterConfig := mkConfig {
  position : glm.vec3;
  positionVariance : glm.vec3;
  velocity : glm.vec3;
  velocityVariance : glm.vec3;
  startColor : glm.vec4;
  endColor : glm.vec4;
  startSize : float;
  endSize : float;
  minLife : float;
  maxLife : float;
  emissionRate : float;      (* particles per second *)
  maxParticles : Z;          (* int *)
  gravity : glm.vec3;
  drag : float;
  looping : bool;
  duration : float
}.

Definition set_position (pos : glm.vec3) (c : EmitterConfig) : EmitterConfig :=
  mkConfig pos (positionVariance c) (velocity c) (velocityVariance c)
    (startColor c) (endColor c) (startSize c) (endSize c) (minLife c)
    (maxLife c) (emissionRate c) (maxParticles c) (gravity c) (drag c)
    (looping c) (duration c).

(** Literals: [#n] is the integer-valued [n.0f]; [F32.dec n k] is the
    decimal [n / 10^k]. *)
Local Notation "# n" := (F32.of_Z n) (at level 1, format "# n").

(** The default member initialisers of [EmitterConfig]. *)
Definition default_config : EmitterConfig :=
  {| position := glm.splat3 #0;
     positionVariance := glm.splat3 #1;
     velocity := glm.mk3 #0 #5 #0;
     velocityVariance := glm.splat3 #1;
     startColor := glm.splat4 #1;
     endColor := glm.mk4 #1 #1 #1 #0;
     startSize := #1;
     endSize := (F32.dec 1 1);
     minLife := #1;
     maxLife := #3;
     emissionRate := #50;
     maxParticles := 1000;
     gravity := glm.mk3 #0 (F32.opp (F32.dec 981 2)) #0;
     drag := (F32.dec 1 1);
     looping := true;
     duration := #0 |}.

Definition getPreset (type : EffectType) : EmitterConfig :=
  let cfg := default_config in
  match type with
  | Fire =>
      {| position := position cfg;
         positionVariance := glm.mk3 (F32.dec 5 1) (F32.dec 1 1) (F32.dec 5 1);
         velocity := glm.mk3 #0 #8 #0;
         velocityVariance := glm.mk3 #2 #3 #2;
         startColor := glm.mk4 #1 (F32.dec 6 1) (F32.dec 1 1) #1;
         endColor := glm.mk4 #1 #0 #0 #0;
         startSize := (F32.dec 15 1);
         endSize := (F32.dec 2 1);
         minLife := (F32.dec 5 1);
         maxLife := (F32.dec 15 1);
         emissionRate := #80;
         maxParticles := 500;
         gravity := glm.mk3 #0 #2 #0;
         drag := (F32.dec 5 1);
         looping := looping cfg;
         duration := duration cfg |}
  | Smoke =>
      {| position := position cfg;
         positionVariance := glm.mk3 (F32.dec 3 1) #0 (F32.dec 3 1);
         velocity := glm.mk3 #0 #3 #0;
         velocityVariance := glm.mk3 #1 #1 #1;
         startColor := glm.mk4 (F32.dec 3 1) (F32.dec 3 1) (F32.dec 3 1) (F32.dec 8 1);
         endColor := glm.mk4 (F32.dec 1 1) (F32.dec 1 1) (F32.dec 1 1) #0;
         startSize := (F32.dec 5 1);
         endSize := #3;
         minLife := #2;
         maxLife := #4;
         emissionRate := #20;
         maxParticles := 200;
         gravity := glm.mk3 #0 (F32.dec 5 1) #0;
         drag := (F32.dec 2 1);
         looping := looping cfg;
         duration := duration cfg |}
  | Sand =>
      {| position := position cfg;
         positionVariance := glm.mk3 #50 (F32.dec 5 1) #50;
         velocity := glm.mk3 #15 #2 #0;
         velocityVariance := glm.mk3 #5 #2 #3;
         startColor := glm.mk4 (F32.dec 76 2) (F32.dec 70 2) (F32.dec 50 2) (F32.dec 6 1);
         endColor := glm.mk4 (F32.dec 76 2) (F32.dec 70 2) (F32.dec 50 2) #0;
         startSize := (F32.dec 3 1);
         endSize := (F32.dec 1 1);
         minLife := #2;
         maxLife := #5;
         emissionRate := #100;
         maxParticles := 1000;
         gravity := glm.mk3 #0 (F32.opp #2) #0;
         drag := (F32.dec 1 1);
         looping := looping cfg;
         duration := duration cfg |}
  | Snow =>
      {| position := position cfg;
         positionVariance := glm.mk3 #80 #50 #80;
         velocity := glm.mk3 #0 (F32.opp #3) #0;
         velocityVariance := glm.mk3 #2 #1 #2;
         startColor := glm.mk4 #1 #1 #1 (F32.dec 9 1);
         endColor := glm.mk4 #1 #1 #1 #0;
         startSize := (F32.dec 3 1);
         endSize := (F32.dec 2 1);
         minLife := #5;
         maxLife := #10;
         emissionRate := #50;
         maxParticles := 800;
         gravity := glm.mk3 #0 (F32.opp #1) #0;
         drag := (F32.dec 3 1);
         looping := looping cfg;
         duration := duration cfg |}
  | Sparks =>
      {| position := position cfg;
         positionVariance := glm.mk3 (F32.dec 2 1) #0 (F32.dec 2 1);
         velocity := glm.mk3 #0 #15 #0;
         velocityVariance := glm.mk3 #8 #5 #8;
         startColor := glm.mk4 #1 (F32.dec 9 1) (F32.dec 3 1) #1;
         endColor := glm.mk4 #1 (F32.dec 3 1) #0 #0;
         startSize := (F32.dec 2 1);
         endSize := (F32.dec 5 2);
         minLife := (F32.dec 3 1);
         maxLife := #1;
         emissionRate := #150;
         maxParticles := 300;
         gravity := glm.mk3 #0 (F32.opp #15) #0;
         drag := (F32.dec 5 2);
         looping := looping cfg;
         duration := duration cfg |}
  end.

(** The value an [int] keeps after an arithmetic operation (two's
    complement). *)
Definition wrap_int (n : Z) : Z := (n + 2147483648) mod 4294967296 - 2147483648.

(** [std::vector<Particle>::resize(n)]: the front is kept, new slots are
    value-initialised. *)
Definition resize (n : nat) (ps : list Particle.t) : list Particle.t :=
  firstn n ps ++ repeat Particle.zeroed (n - length ps).

(** One billboard: the four corners of a particle's quad. *)
Definition quad (cameraRight cameraUp : glm.vec3) (p : Particle.t)
    : list ParticleVertex.t :=
  let right := cameraRight *v Particle.size p in
  let up := cameraUp *v Particle.size p in
  let v0 := ParticleVertex.mk (Particle.position p -v right -v up)
              (Particle.color p) (glm.mk2 #0 #0) (Particle.size p) in
  let v1 := ParticleVertex.mk (Particle.position p +v right -v up)
              (Particle.color p) (glm.mk2 #1 #0) (Particle.size p) in
  let v2 := ParticleVertex.mk (Particle.position p +v right +v up)
              (Particle.color p) (glm.mk2 #1 #1) (Particle.size p) in
  let v3 := ParticleVertex.mk (Particle.position p -v right +v up)
              (Particle.color p) (glm.mk2 #0 #1) (Particle.size p) in
  [v0; v1; v2; v3].

(** The six indices pushed for the quad whose first vertex is [vertexIndex]. *)
Definition quad_indices (vertexIndex : Z) : list Z :=
  [wrap32 (vertexIndex + 0); wrap32 (vertexIndex + 1); wrap32 (vertexIndex + 2);
   wrap32 (vertexIndex + 0); wrap32 (vertexIndex + 2); wrap32 (vertexIndex + 3)].

(** The loop of [generateVertices] over the pool. *)
Fixpoint generate_loop (cameraRight cameraUp : glm.vec3)
    (ps : list Particle.t) (vertexIndex : Z)
    (vertices : list ParticleVertex.t) (indices : list Z)
    : list ParticleVertex.t * list Z :=
  match ps with
  | [] => (vertices, indices)
  | p :: rest =>
      if negb (Particle.isAlive p)
      then generate_loop cameraRight cameraUp rest vertexIndex vertices indices
      else generate_loop cameraRight cameraUp rest (wrap32 (vertexIndex + 4))
             (vertices ++ quad cameraRight cameraUp p)
             (indices ++ quad_indices vertexIndex)
  end.

(** The body of [update]'s loop over the pool, for one slot. *)
Definition integrate (cfg : EmitterConfig) (deltaTime : float)
    (p : Particle.t) : Particle.t :=
  if negb (Particle.isAlive p) then p
  else
    let velocity1 := Particle.velocity p +v gravity cfg *v deltaTime in
    let velocity2 := velocity1 *v (F32.one - drag cfg * deltaTime)%f32 in
    let position1 := Particle.position p +v velocity2 *v deltaTime in
    let life1 := (Particle.life p - deltaTime)%f32 in
    let age :=
      Particle.getAge
        (Particle.mk position1 velocity2 (Particle.color p) life1
           (Particle.maxLife p) (Particle.size p)) in
    Particle.mk position1 velocity2
      (glm.mix4 (startColor cfg) (endColor cfg) age)
      life1 (Particle.maxLife p)
      (glm.mix (startSize cfg) (endSize cfg) age).

Definition count_alive (ps : list Particle.t) : Z :=
  fold_left (fun count p => if Particle.isAlive p then count + 1 else count) ps 0.

(** The order in which the three arguments of a [glm::vec3(a, b, c)] call
    are evaluated. C++ leaves it unspecified; when the arguments draw from
    the generator it decides which draw lands in which component. *)
Inductive ArgumentOrder := xyz | xzy | yxz | yzx | zxy | zyx.

(** The orders a build has chosen at the two constructor calls of
    [emitParticle], for the position and for the velocity. *)
Class EvaluationOrder := {
  position_order : ArgumentOrder;
  velocity_order : ArgumentOrder
}.

Section WithRng.

(** [std::mt19937] and the [uniform_real_distribution] on it: a
    generator state and the draw that advances it. *)
Variable R : Type.
Variable dist : R -> float * R.
Context {order : EvaluationOrder}.

Record t := mk {
  particles : list Particle.t;
  vertices : list ParticleVertex.t;
  indices : list Z;
  config : EmitterConfig;
  active : bool;
  emissionAccumulator : float;
  systemTime : float;
  rng : R
}.

(** [ParticleSystem()] with the generator seeded to [seed]. *)
Definition create (seed : R) : t :=
  {| particles := []; vertices := []; indices := [];
     config := default_config; active := false;
     emissionAccumulator := F32.zero; systemTime := F32.zero;
     rng := seed |}.

Definition set_particles (ps : list Particle.t) (st : t) : t :=
  mk ps (vertices st) (indices st) (config st) (active st)
     (emissionAccumulator st) (systemTime st) (rng st).
Definition set_config (c : EmitterConfig) (st : t) : t :=
  mk (particles st) (vertices st) (indices st) c (active st)
     (emissionAccumulator st) (systemTime st) (rng st).
Definition set_active (b : bool) (st : t) : t :=
  mk (particles st) (vertices st) (indices st) (config st) b
     (emissionAccumulator st) (systemTime st) (rng st).
Definition set_emissionAccumulator (f : float) (st : t) : t :=
  mk (particles st) (vertices st) (indices st) (config st) (active st)
     f (systemTime st) (rng st).
Definition set_systemTime (f : float) (st : t) : t :=
  mk (particles st) (vertices st) (indices st) (config st) (active st)
     (emissionAccumulator st) f (rng st).
Definition set_rng (g : R) (st : t) : t :=
  mk (particles st) (vertices st) (indices st) (config st) (active st)
     (emissionAccumulator st) (systemTime st) g.

(** [reserve(n)] of an [int] expression: a negative [n] converts to a
    [size_t] above [max_size()]. *)
Definition reserve_ok (n : Z) : bool := 0 <=? wrap_int n.

(** [init(const EmitterConfig&)] *)
Definition init (cfg : EmitterConfig) (st : t) : outcome t :=
  let st := set_config cfg st in
  if maxParticles (config st) <? 0 then Thrown length_error
  else
    let st := set_particles
                (resize (Z.to_nat (maxParticles (config st))) (particles st)) st in
    if negb (reserve_ok (maxParticles (config st) * 4)) then Thrown length_error
    else if negb (reserve_ok (maxParticles (config st) * 6)) then Thrown length_error
    else
      let st := set_particles
                  (map (Particle.set_life F32.zero) (particles st)) st in
      let st := set_active true st in
      Done (set_systemTime F32.zero st).

(** [init(EffectType, const glm::vec3&)] *)
Definition init_preset (type : EffectType) (pos : glm.vec3) (st : t)
    : outcome t :=
  let st := set_config (getPreset type) st in
  let st := set_config (set_position pos (config st)) st in
  if maxParticles (config st) <? 0 then Thrown length_error
  else
    let st := set_particles
                (resize (Z.to_nat (maxParticles (config st))) (particles st)) st in
    if negb (reserve_ok (maxParticles (config st) * 4)) then Thrown length_error
    else if negb (reserve_ok (maxParticles (config st) * 6)) then Thrown length_error
    else
      let st := set_particles
                  (map (Particle.set_life F32.zero) (particles st)) st in
      let st := set_active true st in
      Done (set_systemTime F32.zero st).

Definition setPosition (pos : glm.vec3) (st : t) : t :=
  set_config (set_position pos (config st)) st.

Definition start (st : t) : t := set_active true st.
Definition stop (st : t) : t := set_active false st.
Definition isActive (st : t) : bool := active st.

Definition getAliveCount (st : t) : Z := count_alive (particles st).

Definition randomRange (min max : float) (g : R) : float * R :=
  let (u, g') := dist g in ((min + u * (max - min))%f32, g').

(** [glm::vec3(randomRange(-v.x, v.x), randomRange(-v.y, v.y),
    randomRange(-v.z, v.z))] with the three calls made in the order [o]. *)
Definition random_offset (o : ArgumentOrder) (variance : glm.vec3) (g : R)
    : glm.vec3 * R :=
  let draw (component : glm.vec3 -> float) (g : R) :=
    randomRange (F32.opp (component variance)) (component variance) g in
  match o with
  | xyz =>
      let (dx, g1) := draw glm.x g in
      let (dy, g2) := draw glm.y g1 in
      let (dz, g3) := draw glm.z g2 in
      (glm.mk3 dx dy dz, g3)
  | xzy =>
      let (dx, g1) := draw glm.x g in
      let (dz, g2) := draw glm.z g1 in
      let (dy, g3) := draw glm.y g2 in
      (glm.mk3 dx dy dz, g3)
  | yxz =>
      let (dy, g1) := draw glm.y g in
      let (dx, g2) := draw glm.x g1 in
      let (dz, g3) := draw glm.z g2 in
      (glm.mk3 dx dy dz, g3)
  | yzx =>
      let (dy, g1) := draw glm.y g in
      let (dz, g2) := draw glm.z g1 in
      let (dx, g3) := draw glm.x g2 in
      (glm.mk3 dx dy dz, g3)
  | zxy =>
      let (dz, g1) := draw glm.z g in
      let (dx, g2) := draw glm.x g1 in
      let (dy, g3) := draw glm.y g2 in
      (glm.mk3 dx dy dz, g3)
  | zyx =>
      let (dz, g1) := draw glm.z g in
      let (dy, g2) := draw glm.y g1 in
      let (dx, g3) := draw glm.x g2 in
      (glm.mk3 dx dy dz, g3)
  end.

(** What [emitParticle] writes into the slot it recycles. *)
Definition respawn (cfg : EmitterConfig) (p : Particle.t) (g : R)
    : Particle.t * R :=
  let (dpos, g1) := random_offset position_order (positionVariance cfg) g in
  let (dvel, g2) := random_offset velocity_order (velocityVariance cfg) g1 in
  let (l, g3) := randomRange (minLife cfg) (maxLife cfg) g2 in
  (Particle.mk (position cfg +v dpos) (velocity cfg +v dvel)
     (startColor cfg) l l (startSize cfg), g3).

(** The scan of [emitParticle]: the first dead slot is recycled and the
    function returns; with no dead slot the loop ends and nothing is
    written. *)
Fixpoint emit_scan (cfg : EmitterConfig) (ps : list Particle.t) (g : R)
    : list Particle.t * R :=
  match ps with
  | [] => ([], g)
  | p :: rest =>
      if Particle.isAlive p
      then let (rest', g') := emit_scan cfg rest g in (p :: rest', g')
      else let (p', g') := respawn cfg p g in (p' :: rest, g')
  end.

Definition emitParticle (st : t) : t :=
  let (ps, g) := emit_scan (config st) (particles st) (rng st) in
  set_rng g (set_particles ps st).

(** [while (emissionAccumulator >= 1.0f) { emitParticle();
    emissionAccumulator -= 1.0f; }] *)
Fixpoint emit_loop (fuel : nat) (st : t) : outcome t :=
  match fuel with
  | O => Fuel_out
  | S fuel' =>
      if (emissionAccumulator st >=? F32.one)%f32
      then
        let st := emitParticle st in
        emit_loop fuel'
          (set_emissionAccumulator (emissionAccumulator st - F32.one)%f32 st)
      else Done st
  end.

Definition update (fuel : nat) (deltaTime : float) (st : t) : outcome t :=
  if negb (active st) && (getAliveCount st =? 0) then Done st
  else
    let st := set_systemTime (systemTime st + deltaTime)%f32 st in
    let st :=
      if negb (looping (config st))
         && (duration (config st) >? F32.zero)%f32
         && (systemTime st >? duration (config st))%f32
      then set_active false st else st in
    st <- (if active st
           then emit_loop fuel
                  (set_emissionAccumulator
                     (emissionAccumulator st
                      + emissionRate (config st) * deltaTime)%f32 st)
           else Done st) ;;
    Done (set_particles (map (integrate (config st) deltaTime) (particles st)) st).

Definition generateVertices (cameraRight cameraUp : glm.vec3) (st : t) : t :=
  let (vs, ixs) :=
    generate_loop cameraRight cameraUp (particles st) 0 [] [] in
  mk (particles st) vs ixs (config st) (active st)
     (emissionAccumulator st) (systemTime st) (rng st).

Definition getVertexCount (st : t) : Z := Z.of_nat (length (vertices st)).
Definition getIndexCount (st : t) : Z := Z.of_nat (length (indices st)).

End WithRng.

Arguments particles {R}.
Arguments vertices {R}.
Arguments indices {R}.
Arguments config {R}.
Arguments active {R}.
Arguments emissionAccumulator {R}.
Arguments systemTime {R}.
Arguments rng {R}.
Arguments create {R}.
Arguments init {R}.
Arguments init_preset {R}.
Arguments setPosition {R}.
Arguments start {R}.
Arguments stop {R}.
Arguments isActive {R}.
Arguments getAliveCount {R}.
Arguments emitParticle {R} dist {order}.
Arguments emit_loop {R} dist {order}.
Arguments update {R} dist {order}.
Arguments generateVertices {R}.
Arguments getVertexCount {R}.
Arguments getIndexCount {R}.
Arguments set_particles {R}.
Arguments set_emissionAccumulator {R}.
Arguments set_rng {R}.
Arguments set_systemTime {R}.
Arguments set_active {R}.
Arguments set_config {R}.

End ParticleSystem.

(* ================================================================== *)
(** ** What the program takes from libm and from GLM's matrix code *)

(** [std::sin] and [std::cos] on [float]. *)
Class Libm := {
  sinf : float -> float;
  cosf : float -> float
}.

(** [glm::normalize], [glm::radians] and the matrix functions that
    [Cactus::generateArm] calls. *)
Class GlmOps := {
  normalize : glm.vec3 -> glm.vec3;
  radians : float -> float;
  mat3 : Type;
  mat4 : Type;
  identity4 : mat4;                           (* glm::mat4(1.0f) *)
  translate : mat4 -> glm.vec3 -> mat4;
  rotate : mat4 -> float -> glm.vec3 -> mat4;
  mul_m4_v4 : mat4 -> glm.vec4 -> glm.vec4;
  mat3_of_mat4 : mat4 -> mat3;                (* glm::mat3(m) *)
  inverse3 : mat3 -> mat3;
  transpose3 : mat3 -> mat3;
  mul_m3_v3 : mat3 -> glm.vec3 -> glm.vec3
}.

(* ================================================================== *)
(** ** Vertex.h and Mesh.cpp *)

Module Vertex.

Record t := mk {
  position : glm.vec3;
  normal : glm.vec3;
  texCoord : glm.vec2;
  color : glm.vec3
}.

Definition set_position (p : glm.vec3) (v : t) : t :=
  mk p (normal v) (texCoord v) (color v).
Definition set_normal (n : glm.vec3) (v : t) : t :=
  mk (position v) n (texCoord v) (color v).

(** [sizeof(Vertex)]: eleven [float]s. *)
Definition sizeof : Z := 44.

(** [Vertex::operator==] *)
Definition eqb (v other : t) : bool :=
  glm.eq3 (position v) (position other)
  && glm.eq3 (normal v) (normal other)
  && glm.eq2 (texCoord v) (texCoord other)
  && glm.eq3 (color v) (color other).

End Vertex.

Module Mesh.

Record t := mk {
  vertices : list Vertex.t;
  indices : list Z;
  minBounds : glm.vec3;
  maxBounds : glm.vec3
}.

Definition recalculateBounds (vs : list Vertex.t) : glm.vec3 * glm.vec3 :=
  match vs with
  | [] => (glm.splat3 F32.zero, glm.splat3 F32.zero)
  | _ =>
      fold_left
        (fun bounds vertex =>
           (glm.min3 (fst bounds) (Vertex.position vertex),
            glm.max3 (snd bounds) (Vertex.position vertex)))
        vs (glm.splat3 F32.max_float, glm.splat3 F32.lowest)
  end.

(** [Mesh(std::vector<Vertex>, std::vector<uint32_t>)] *)
Definition make (vs : list Vertex.t) (ixs : list Z) : t :=
  let (lo, hi) := recalculateBounds vs in mk vs ixs lo hi.

Definition getVertexCount (m : t) : Z := Z.of_nat (length (vertices m)).
Definition getIndexCount (m : t) : Z := Z.of_nat (length (indices m)).
Definition isEmpty (m : t) : bool :=
  match vertices m with [] => true | _ => false end.

(** Every index names a vertex of the mesh. *)
Definition indices_valid (m : t) : Prop :=
  Forall (fun i => 0 <= i < getVertexCount m) (indices m).

End Mesh.

(* ================================================================== *)
(** ** MeshGenerator.cpp *)

Module MeshGenerator.

(** What a [std::vector<Vertex>] and a [std::vector<uint32_t>] can hold. *)
Definition max_vertices : Z := max_size Vertex.sizeof.
Definition max_indices : Z := max_size 4.

Section WithLibm.
Context `{Libm}.

Definition ratio (i n : Z) : float := (F32.of_Z i / F32.of_Z n)%f32.

(** The six indices of the grid cell whose corner is [current], with
    [next] the same corner one row further. *)
Definition sphere_cell (current next : Z) : list Z :=
  [current; next; wrap32 (current + 1);
   wrap32 (current + 1); next; wrap32 (next + 1)].

Definition createSphere (fuel : nat) (radius : float) (segments rings : Z)
    (color : glm.vec3) : outcome Mesh.t :=
  vertices <-
    for_u32 fuel (fun ring => ring <=? rings)
      (fun ring vertices =>
         let phi := (F32.pi * F32.of_Z ring / F32.of_Z rings)%f32 in
         let sinPhi := sinf phi in
         let cosPhi := cosf phi in
         for_u32 fuel (fun segment => segment <=? segments)
           (fun segment vertices =>
              let theta :=
                (F32.two * F32.pi * F32.of_Z segment / F32.of_Z segments)%f32 in
              let sinTheta := sinf theta in
              let cosTheta := cosf theta in
              let normal :=
                glm.mk3 (sinPhi * cosTheta)%f32 cosPhi (sinPhi * sinTheta)%f32 in
              let position := normal *v radius in
              let texCoord := glm.mk2 (ratio segment segments) (ratio ring rings) in
              push_back max_vertices vertices
                (Vertex.mk position normal texCoord color))
           0 vertices)
      0 [] ;;
  indices <-
    for_u32 fuel (fun ring => ring <? rings)
      (fun ring indices =>
         for_u32 fuel (fun segment => segment <? segments)
           (fun segment indices =>
              let current :=
                wrap32 (wrap32 (ring * wrap32 (segments + 1)) + segment) in
              let next := wrap32 (wrap32 (current + segments) + 1) in
              push_backs max_indices indices (sphere_cell current next))
           0 indices)
      0 [] ;;
  Done (Mesh.make vertices indices).

Definition plane_cell (topLeft topRight bottomLeft bottomRight : Z) : list Z :=
  [topLeft; bottomLeft; topRight; topRight; bottomLeft; bottomRight].

Definition createPlane (fuel : nat) (width depth : float)
    (subdivisionsX subdivisionsZ : Z) (color : glm.vec3) : outcome Mesh.t :=
  let halfWidth := (width * F32.half)%f32 in
  let halfDepth := (depth * F32.half)%f32 in
  vertices <-
    for_u32 fuel (fun z => z <=? subdivisionsZ)
      (fun z vertices =>
         for_u32 fuel (fun x => x <=? subdivisionsX)
           (fun x vertices =>
              let xPos :=
                (F32.opp halfWidth
                 + width * F32.of_Z x / F32.of_Z subdivisionsX)%f32 in
              let zPos :=
                (F32.opp halfDepth
                 + depth * F32.of_Z z / F32.of_Z subdivisionsZ)%f32 in
              let position := glm.mk3 xPos F32.zero zPos in
              let normal := glm.mk3 F32.zero F32.one F32.zero in
              let texCoord :=
                glm.mk2 (ratio x subdivisionsX) (ratio z subdivisionsZ) in
              push_back max_vertices vertices
                (Vertex.mk position normal texCoord color))
           0 vertices)
      0 [] ;;
  indices <-
    for_u32 fuel (fun z => z <? subdivisionsZ)
      (fun z indices =>
         for_u32 fuel (fun x => x <? subdivisionsX)
           (fun x indices =>
              let topLeft :=
                wrap32 (wrap32 (z * wrap32 (subdivisionsX + 1)) + x) in
              let topRight := wrap32 (topLeft + 1) in
              let bottomLeft := wrap32 (topLeft + wrap32 (subdivisionsX + 1)) in
              let bottomRight := wrap32 (bottomLeft + 1) in
              push_backs max_indices indices
                (plane_cell topLeft topRight bottomLeft bottomRight))
           0 indices)
      0 [] ;;
  Done (Mesh.make vertices indices).

(** The angle of segment [seg] out of [segments]. *)
Definition azimuth (seg segments : Z) : float :=
  (F32.two * F32.pi * F32.of_Z seg / F32.of_Z segments)%f32.

(** One vertex of a cap ring at height [y]. *)
Definition cap_vertex (radius y : float) (normal : glm.vec3)
    (color : glm.vec3) (segments seg : Z) : Vertex.t :=
  let theta := azimuth seg segments in
  let cosTheta := cosf theta in
  let sinTheta := sinf theta in
  let position := glm.mk3 (radius * cosTheta)%f32 y (radius * sinTheta)%f32 in
  let texCoord :=
    glm.mk2 (F32.half + F32.half * cosTheta)%f32
            (F32.half + F32.half * sinTheta)%f32 in
  Vertex.mk position normal texCoord color.

(** The side indices shared by cylinder and cone, for one segment. *)
Definition side_cell (segments seg : Z) : list Z :=
  let bottom := seg in
  let top := wrap32 (wrap32 (seg + segments) + 1) in
  [bottom; wrap32 (bottom + 1); top; top; wrap32 (bottom + 1); wrap32 (top + 1)].

Definition top_cap_cell (topCenterIndex seg : Z) : list Z :=
  [topCenterIndex;
   wrap32 (wrap32 (wrap32 (topCenterIndex + 1) + seg) + 1);
   wrap32 (wrap32 (topCenterIndex + 1) + seg)].

Definition bottom_cap_cell (bottomCenterIndex seg : Z) : list Z :=
  [bottomCenterIndex;
   wrap32 (wrap32 (bottomCenterIndex + 1) + seg);
   wrap32 (wrap32 (wrap32 (bottomCenterIndex + 1) + seg) + 1)].

Definition up_normal : glm.vec3 := glm.mk3 F32.zero F32.one F32.zero.
Definition down_normal : glm.vec3 := glm.mk3 F32.zero (F32.opp F32.one) F32.zero.
Definition cap_centre (y : float) (normal color : glm.vec3) : Vertex.t :=
  Vertex.mk (glm.mk3 F32.zero y F32.zero) normal (glm.mk2 F32.half F32.half) color.

Definition createCylinder (fuel : nat) (radius height : float) (segments : Z)
    (color : glm.vec3) : outcome Mesh.t :=
  let halfHeight := (height * F32.half)%f32 in
  (* side vertices, two rings *)
  vertices <-
    for_u32 fuel (fun i => i <=? 1)
      (fun i vertices =>
         let y := if i =? 0 then F32.opp halfHeight else halfHeight in
         let v := F32.of_Z i in
         for_u32 fuel (fun seg => seg <=? segments)
           (fun seg vertices =>
              let theta := azimuth seg segments in
              let cosTheta := cosf theta in
              let sinTheta := sinf theta in
              let position :=
                glm.mk3 (radius * cosTheta)%f32 y (radius * sinTheta)%f32 in
              let normal := glm.mk3 cosTheta F32.zero sinTheta in
              let texCoord := glm.mk2 (ratio seg segments) v in
              push_back max_vertices vertices
                (Vertex.mk position normal texCoord color))
           0 vertices)
      0 [] ;;
  (* side indices *)
  indices <-
    for_u32 fuel (fun seg => seg <? segments)
      (fun seg indices => push_backs max_indices indices (side_cell segments seg))
      0 [] ;;
  (* top cap *)
  let topCenterIndex := wrap32 (Z.of_nat (length vertices)) in
  vertices <-
    push_back max_vertices vertices (cap_centre halfHeight up_normal color) ;;
  vertices <-
    for_u32 fuel (fun seg => seg <=? segments)
      (fun seg vertices =>
         push_back max_vertices vertices
           (cap_vertex radius halfHeight up_normal color segments seg))
      0 vertices ;;
  indices <-
    for_u32 fuel (fun seg => seg <? segments)
      (fun seg indices =>
         push_backs max_indices indices (top_cap_cell topCenterIndex seg))
      0 indices ;;
  (* bottom cap *)
  let bottomCenterIndex := wrap32 (Z.of_nat (length vertices)) in
  vertices <-
    push_back max_vertices vertices
      (cap_centre (F32.opp halfHeight) down_normal color) ;;
  vertices <-
    for_u32 fuel (fun seg => seg <=? segments)
      (fun seg vertices =>
         push_back max_vertices vertices
           (cap_vertex radius (F32.opp halfHeight) down_normal color
              segments seg))
      0 vertices ;;
  indices <-
    for_u32 fuel (fun seg => seg <? segments)
      (fun seg indices =>
         push_backs max_indices indices (bottom_cap_cell bottomCenterIndex seg))
      0 indices ;;
  Done (Mesh.make vertices indices).

Section WithGlm.
Context `{GlmOps}.

Definition sqrtf : float -> float := SFsqrt F32.prec F32.emax.

Definition createCone (fuel : nat) (baseRadius topRadius height : float)
    (segments : Z) (color : glm.vec3) : outcome Mesh.t :=
  let halfHeight := (height * F32.half)%f32 in
  let slope := ((baseRadius - topRadius) / height)%f32 in
  let normalY := (slope / sqrtf (F32.one + slope * slope))%f32 in
  let normalXZ := (F32.one / sqrtf (F32.one + slope * slope))%f32 in
  vertices <-
    for_u32 fuel (fun i => i <=? 1)
      (fun i vertices =>
         let y := if i =? 0 then F32.opp halfHeight else halfHeight in
         let radius := if i =? 0 then baseRadius else topRadius in
         let v := F32.of_Z i in
         for_u32 fuel (fun seg => seg <=? segments)
           (fun seg vertices =>
              let theta := azimuth seg segments in
              let cosTheta := cosf theta in
              let sinTheta := sinf theta in
              let position :=
                glm.mk3 (radius * cosTheta)%f32 y (radius * sinTheta)%f32 in
              let normal :=
                normalize
                  (glm.mk3 (normalXZ * cosTheta)%f32 normalY
                     (normalXZ * sinTheta)%f32) in
              let texCoord := glm.mk2 (ratio seg segments) v in
              push_back max_vertices vertices
                (Vertex.mk position normal texCoord color))
           0 vertices)
      0 [] ;;
  indices <-
    for_u32 fuel (fun seg => seg <? segments)
      (fun seg indices => push_backs max_indices indices (side_cell segments seg))
      0 [] ;;
  if (baseRadius >? F32.dec 1 3)%f32
  then
    let centerIndex := wrap32 (Z.of_nat (length vertices)) in
    vertices <-
      push_back max_vertices vertices
        (cap_centre (F32.opp halfHeight) down_normal color) ;;
    vertices <-
      for_u32 fuel (fun seg => seg <=? segments)
        (fun seg vertices =>
           push_back max_vertices vertices
             (cap_vertex baseRadius (F32.opp halfHeight) down_normal
                color segments seg))
        0 vertices ;;
    indices <-
      for_u32 fuel (fun seg => seg <? segments)
        (fun seg indices =>
           push_backs max_indices indices (bottom_cap_cell centerIndex seg))
        0 indices ;;
    Done (Mesh.make vertices indices)
  else Done (Mesh.make vertices indices).

End WithGlm.
End WithLibm.

End MeshGenerator.

(* ================================================================== *)
(** ** Cactus.h and Cactus.cpp *)

Module Cactus.

Record Config := mkConfig {
  position : glm.vec3;       (* world position *)
  height : float;            (* main trunk height *)
  trunkRadius : float;
  numArms : Z;               (* int *)
  armHeight : float;         (* arm height as a fraction of the trunk *)
  color : glm.vec3;
  segments : Z               (* uint32_t *)
}.

Definition default_config : Config :=
  {| position := glm.splat3 F32.zero;
     height := F32.of_Z 5;
     trunkRadius := F32.dec 5 1;
     numArms := 2;
     armHeight := F32.dec 6 1;
     color := glm.mk3 (F32.dec 2 1) (F32.dec 6 1) (F32.dec 2 1);
     segments := 12 |}.

Record t := mk {
  m_config : Config;
  m_growthFactor : float;
  m_isBurning : bool
}.

(** [Cactus(const Config&)] and [Cactus()] *)
Definition create (config : Config) : t := mk config F32.one false.
Definition create_default : t := create default_config.

Definition getPosition (c : t) : glm.vec3 := position (m_config c).
Definition getHeight (c : t) : float := height (m_config c).
Definition isBurning (c : t) : bool := m_isBurning c.
Definition getGrowthFactor (c : t) : float := m_growthFactor c.
Definition getConfig (c : t) : Config := m_config c.

Definition setBurning (burning : bool) (c : t) : t :=
  mk (m_config c) (m_growthFactor c) burning.
Definition setGrowthFactor (factor : float) (c : t) : t :=
  mk (m_config c) factor (m_isBurning c).
Definition setConfig (config : Config) (c : t) : t :=
  mk config (m_growthFactor c) (m_isBurning c).

Definition grow (amount : float) (c : t) : t :=
  let c := setGrowthFactor (m_growthFactor c + amount)%f32 c in
  setGrowthFactor (glm.clamp (m_growthFactor c) (F32.dec 1 1) (F32.of_Z 4)) c.

(** [uint32_t idx + indexOffset] on every index of an appended part. *)
Definition rebase (indexOffset : Z) (ixs : list Z) : list Z :=
  map (fun idx => wrap32 (idx + indexOffset)) ixs.

Section WithExternals.
Context `{Libm} `{GlmOps}.

(** A vertex of a cylinder moved by [transform]: the position as a point,
    the normal by the inverse transpose of the linear part. *)
Definition transform_vertex (transform : mat4) (v : Vertex.t) : Vertex.t :=
  let pos :=
    mul_m4_v4 transform
      (glm.mk4 (glm.x (Vertex.position v)) (glm.y (Vertex.position v))
         (glm.z (Vertex.position v)) F32.one) in
  let transformed :=
    Vertex.set_position (glm.mk3 (glm.r pos) (glm.g pos) (glm.b pos)) v in
  let normalMatrix := transpose3 (inverse3 (mat3_of_mat4 transform)) in
  Vertex.set_normal (normalize (mul_m3_v3 normalMatrix (Vertex.normal v)))
    transformed.

Definition generateArm (fuel : nat) (c : t)
    (attachHeight angle armLength : float) : outcome Mesh.t :=
  let cfg := m_config c in
  let armRadius := (trunkRadius cfg * F32.dec 6 1 * m_growthFactor c)%f32 in
  let elbowLength := (armLength * F32.half)%f32 in
  horizontal <-
    MeshGenerator.createCylinder fuel armRadius elbowLength
      (segments cfg) (color cfg) ;;
  vertical <-
    MeshGenerator.createCylinder fuel armRadius (armLength * F32.dec 6 1)%f32
      (segments cfg) (color cfg) ;;
  let transform := identity4 in
  let transform := translate transform (position cfg) in
  let transform :=
    translate transform (glm.mk3 F32.zero attachHeight F32.zero) in
  let transform :=
    rotate transform angle (glm.mk3 F32.zero F32.one F32.zero) in
  let transform :=
    rotate transform (radians (F32.of_Z 90))
      (glm.mk3 F32.zero F32.zero F32.one) in
  let transform :=
    translate transform
      (glm.mk3 F32.zero (elbowLength * F32.half + trunkRadius cfg)%f32
         F32.zero) in
  let armVertices := map (transform_vertex transform) (Mesh.vertices horizontal) in
  let armIndices := Mesh.indices horizontal in
  let vertTransform := identity4 in
  let vertTransform := translate vertTransform (position cfg) in
  let vertTransform :=
    translate vertTransform (glm.mk3 F32.zero attachHeight F32.zero) in
  let vertTransform :=
    rotate vertTransform angle (glm.mk3 F32.zero F32.one F32.zero) in
  let vertTransform :=
    translate vertTransform
      (glm.mk3 (elbowLength + trunkRadius cfg)%f32
         (armLength * F32.dec 3 1)%f32 F32.zero) in
  let indexOffset := wrap32 (Z.of_nat (length armVertices)) in
  let armVertices :=
    armVertices ++ map (transform_vertex vertTransform) (Mesh.vertices vertical) in
  let armIndices := armIndices ++ rebase indexOffset (Mesh.indices vertical) in
  Done (Mesh.make armVertices armIndices).

(** The trunk's vertices moved from centre to base and to the world
    position. *)
Definition place_trunk (actualHeight : float) (pos : glm.vec3) (v : Vertex.t)
    : Vertex.t :=
  let p := Vertex.position v in
  let p := glm.mk3 (glm.x p) (glm.y p + actualHeight * F32.half)%f32 (glm.z p) in
  Vertex.set_position (p +v pos) v.

Definition generateMesh (fuel : nat) (c : t) : outcome Mesh.t :=
  let cfg := m_config c in
  let actualHeight := (height cfg * m_growthFactor c)%f32 in
  let actualRadius := (trunkRadius cfg * m_growthFactor c)%f32 in
  trunk <-
    MeshGenerator.createCylinder fuel actualRadius actualHeight
      (segments cfg) (color cfg) ;;
  let allVertices :=
    map (place_trunk actualHeight (position cfg)) (Mesh.vertices trunk) in
  let allIndices := Mesh.indices trunk in
  all <-
    for_int fuel (numArms cfg)
      (fun i all =>
         let angle :=
           (F32.of_Z i / F32.of_Z (numArms cfg) * F32.two_pi)%f32 in
         let angle := (angle + F32.pi * F32.dec 25 2)%f32 in
         let attachHeight := (actualHeight * armHeight cfg)%f32 in
         let armLength := (actualHeight * F32.dec 4 1)%f32 in
         arm <- generateArm fuel c attachHeight angle armLength ;;
         let indexOffset := wrap32 (Z.of_nat (length (fst all))) in
         Done (fst all ++ Mesh.vertices arm,
               snd all ++ rebase indexOffset (Mesh.indices arm)))
      0 (allVertices, allIndices) ;;
  Done (Mesh.make (fst all) (snd all)).

End WithExternals.

End Cactus.

(* ================================================================== *)
(* ================================================================== *)
(** ** OBJLoader.cpp: the string helpers *)

Module OBJLoader.

(** [std::string], a sequence of [char]. *)
Definition text : Type := list ascii.

(** [size_t] is taken to have 64 bits; [std::string::npos] is its largest
    value. *)
Definition size_modulus : Z := 2 ^ 64.
Definition npos : Z := size_modulus - 1.
Definition wrap_size (z : Z) : Z := z mod size_modulus.

Definition is_in (set : text) (c : ascii) : bool := existsb (Ascii.eqb c) set.

(** [str.find_first_not_of(set)]: [None] stands for [npos]. *)
Fixpoint find_first_not_of (set str : text) : option nat :=
  match str with
  | [] => None
  | c :: rest =>
      if is_in set c then option_map S (find_first_not_of set rest)
      else Some 0%nat
  end.

(** [str.find_last_not_of(set)] *)
Fixpoint find_last_not_of (set str : text) : option nat :=
  match str with
  | [] => None
  | c :: rest =>
      match find_last_not_of set rest with
      | Some i => Some (S i)
      | None => if is_in set c then None else Some 0%nat
      end
  end.

Definition position_value (p : option nat) : Z :=
  match p with Some i => Z.of_nat i | None => npos end.

(** [str.substr(pos, count)]; [std::out_of_range] when [pos > size()]. *)
Definition substr (str : text) (pos count : Z) : option text :=
  if Z.of_nat (length str) <? pos then None
  else Some (firstn (Z.to_nat count) (skipn (Z.to_nat pos) str)).

Definition whitespace : text := [" "; "009"; "013"; "010"]%char.

(** [OBJLoader::trim]; [None] is the exception of [substr]. *)
Definition trim (str : text) : option text :=
  let start := find_first_not_of whitespace str in
  match start with
  | None => Some []
  | Some _ =>
      let end_ := find_last_not_of whitespace str in
      substr str (position_value start)
        (wrap_size (position_value end_ - position_value start + 1))
  end.

(** [std::getline(stream, token, delimiter)] on the unread part of a
    string stream: the token and what is left unread, or [None] when
    nothing could be extracted and the stream fails. *)
Fixpoint getline (delimiter : ascii) (stream : text) : option (text * text) :=
  match stream with
  | [] => None
  | c :: rest =>
      if Ascii.eqb c delimiter then Some ([], rest)
      else
        match getline delimiter rest with
        | Some (token, rest') => Some (c :: token, rest')
        | None => Some ([c], [])
        end
  end.

(** [while (std::getline(tokenStream, token, delimiter))
      tokens.push_back(token);] *)
Fixpoint split_loop (fuel : nat) (delimiter : ascii) (stream : text)
    (tokens : list text) : outcome (list text) :=
  match fuel with
  | O => Fuel_out
  | S fuel' =>
      match getline delimiter stream with
      | Some (token, rest) =>
          split_loop fuel' delimiter rest (tokens ++ [token])
      | None => Done tokens
      end
  end.

(** [OBJLoader::split] *)
Definition split (fuel : nat) (str : text) (delimiter : ascii)
    : outcome (list text) :=
  split_loop fuel delimiter str [].

End OBJLoader.

(** * Definitions used to state the properties *)

Module PS := ParticleSystem.

(** ** Closed forms of the generators *)

(** [rows] times [cols] pushes of [g row col], row by row. *)
Definition grid {A : Type} (g : Z -> Z -> list A) (rows cols : nat) : list A :=
  flat_map (fun i => flat_map (g i) (zseq 0 cols)) (zseq 0 rows).

Section SphereForm.
Context `{Libm}.
Variables (radius : float) (segments rings : Z) (color : glm.vec3).

(** The vertex [createSphere] pushes at [(ring, segment)]. *)
Definition sphere_vertex (ring segment : Z) : Vertex.t :=
  let phi := (F32.pi * F32.of_Z ring / F32.of_Z rings)%f32 in
  let sinPhi := sinf phi in
  let cosPhi := cosf phi in
  let theta := (F32.two * F32.pi * F32.of_Z segment / F32.of_Z segments)%f32 in
  let sinTheta := sinf theta in
  let cosTheta := cosf theta in
  let normal := glm.mk3 (sinPhi * cosTheta)%f32 cosPhi (sinPhi * sinTheta)%f32 in
  Vertex.mk (normal *v radius) normal
    (glm.mk2 (MeshGenerator.ratio segment segments) (MeshGenerator.ratio ring rings))
    color.

(** The indices [createSphere] pushes at [(ring, segment)]. *)
Definition sphere_indices (ring segment : Z) : list Z :=
  let current := wrap32 (wrap32 (ring * wrap32 (segments + 1)) + segment) in
  let next := wrap32 (wrap32 (current + segments) + 1) in
  MeshGenerator.sphere_cell current next.

Definition sphere_mesh : Mesh.t :=
  Mesh.make
    (grid (fun ring segment => [sphere_vertex ring segment])
       (Z.to_nat rings + 1) (Z.to_nat segments + 1))
    (grid sphere_indices (Z.to_nat rings) (Z.to_nat segments)).
End SphereForm.

Section CylinderForm.
Context `{Libm}.
Variables (radius height : float) (segments : Z) (color : glm.vec3).

Definition cylinder_side_vertex (i seg : Z) : Vertex.t :=
  let halfHeight := (height * F32.half)%f32 in
  let y := if i =? 0 then F32.opp halfHeight else halfHeight in
  let v := F32.of_Z i in
  let theta := MeshGenerator.azimuth seg segments in
  let cosTheta := cosf theta in
  let sinTheta := sinf theta in
  Vertex.mk (glm.mk3 (radius * cosTheta)%f32 y (radius * sinTheta)%f32)
    (glm.mk3 cosTheta F32.zero sinTheta)
    (glm.mk2 (MeshGenerator.ratio seg segments) v) color.

Definition cylinder_side_vertices : list Vertex.t :=
  grid (fun i seg => [cylinder_side_vertex i seg]) 2 (Z.to_nat segments + 1).

Definition cylinder_top_vertices : list Vertex.t :=
  MeshGenerator.cap_centre (height * F32.half)%f32 MeshGenerator.up_normal color
  :: flat_map
       (fun seg =>
          [MeshGenerator.cap_vertex radius (height * F32.half)%f32
             MeshGenerator.up_normal color segments seg])
       (zseq 0 (Z.to_nat segments + 1)).

Definition cylinder_bottom_vertices : list Vertex.t :=
  MeshGenerator.cap_centre (F32.opp (height * F32.half)%f32)
    MeshGenerator.down_normal color
  :: flat_map
       (fun seg =>
          [MeshGenerator.cap_vertex radius (F32.opp (height * F32.half)%f32)
             MeshGenerator.down_normal color segments seg])
       (zseq 0 (Z.to_nat segments + 1)).

Definition cylinder_vertices : list Vertex.t :=
  cylinder_side_vertices ++ cylinder_top_vertices ++ cylinder_bottom_vertices.

Definition cylinder_indices : list Z :=
  let segs := zseq 0 (Z.to_nat segments) in
  let topCenterIndex := wrap32 (Z.of_nat (length cylinder_side_vertices)) in
  let bottomCenterIndex :=
    wrap32 (Z.of_nat (length (cylinder_side_vertices ++ cylinder_top_vertices))) in
  flat_map (MeshGenerator.side_cell segments) segs
  ++ flat_map (MeshGenerator.top_cap_cell topCenterIndex) segs
  ++ flat_map (MeshGenerator.bottom_cap_cell bottomCenterIndex) segs.

Definition cylinder_mesh : Mesh.t := Mesh.make cylinder_vertices cylinder_indices.
End CylinderForm.

(** ** Merging indexed parts *)

(** A vertex buffer and an index buffer into it. *)
Definition buffers : Type := list Vertex.t * list Z.


(** What one pass of the arm loop of [generateMesh] does to the combined
    buffers. *)
Definition append_part (all : buffers) (part : Mesh.t) : buffers :=
  (fst all ++ Mesh.vertices part,
   snd all
   ++ Cactus.rebase (wrap32 (Z.of_nat (length (fst all)))) (Mesh.indices part)).


Section CactusForm.
Context `{Libm} `{GlmOps}.
Variable c : Cactus.t.

(** The buffers [generateMesh] starts the arm loop with. *)
Definition trunk_buffers (trunk : Mesh.t) : buffers :=
  let cfg := Cactus.m_config c in
  let actualHeight := (Cactus.height cfg * Cactus.m_growthFactor c)%f32 in
  (map (Cactus.place_trunk actualHeight (Cactus.position cfg))
     (Mesh.vertices trunk),
   Mesh.indices trunk).

(** [arm] is what some call of [generateArm] on [c] returned. *)
Definition is_arm (fuel : nat) (arm : Mesh.t) : Prop :=
  exists attachHeight angle armLength,
    Cactus.generateArm fuel c attachHeight angle armLength = Done arm.
End CactusForm.

(** [0.1f <= g <= 4.0f] *)
Definition growth_in_range (g : float) : bool :=
  (F32.dec 1 1 <=? g)%f32 && (g <=? F32.of_Z 4)%f32.

(** A sequence of [grow] calls. *)
Definition grow_all (amounts : list float) (c : Cactus.t) : Cactus.t :=
  fold_left (fun c amount => Cactus.grow amount c) amounts c.

(** ** Runs of a particle system *)

(** The calls a host makes on an initialised system. *)
Inductive call :=
| Update (fuel : nat) (deltaTime : float)
| Start
| Stop.

Section Calls.
Variable R : Type.
Variable dist : R -> float * R.
Context {order : PS.EvaluationOrder}.

Definition exec (c : call) (st : PS.t R) : outcome (PS.t R) :=
  match c with
  | Update fuel deltaTime => PS.update dist fuel deltaTime st
  | Start => Done (PS.start st)
  | Stop => Done (PS.stop st)
  end.

Fixpoint run (cs : list call) (st : PS.t R) : outcome (PS.t R) :=
  match cs with
  | [] => Done st
  | c :: cs' => st' <- exec c st ;; run cs' st'
  end.

(** The states a [ParticleSystem] object can be in. *)
Inductive reachable : PS.t R -> Prop :=
| reach_create seed : reachable (PS.create seed)
| reach_init cfg st st' :
    reachable st -> PS.init cfg st = Done st' -> reachable st'
| reach_init_preset type pos st st' :
    reachable st -> PS.init_preset type pos st = Done st' -> reachable st'
| reach_update fuel deltaTime st st' :
    reachable st -> PS.update dist fuel deltaTime st = Done st' -> reachable st'
| reach_start st : reachable st -> reachable (PS.start st)
| reach_stop st : reachable st -> reachable (PS.stop st)
| reach_setPosition pos st : reachable st -> reachable (PS.setPosition pos st)
| reach_generateVertices cameraRight cameraUp st :
    reachable st -> reachable (PS.generateVertices cameraRight cameraUp st).

(** [update] up to its emission step: the clock and the duration check. *)
Definition after_clock (deltaTime : float) (st : PS.t R) : PS.t R :=
  let st := PS.set_systemTime (PS.systemTime st + deltaTime)%f32 st in
  if negb (PS.looping (PS.config st))
     && (PS.duration (PS.config st) >? F32.zero)%f32
     && (PS.systemTime st >? PS.duration (PS.config st))%f32
  then PS.set_active false st else st.

(** The emission step of [update]. *)
Definition emission (fuel : nat) (deltaTime : float) (st : PS.t R)
    : outcome (PS.t R) :=
  if PS.active st
  then PS.emit_loop dist fuel
         (PS.set_emissionAccumulator
            (PS.emissionAccumulator st
             + PS.emissionRate (PS.config st) * deltaTime)%f32 st)
  else Done st.

(** The test of [update]'s early return. *)
Definition idle (st : PS.t R) : bool :=
  negb (PS.active st) && (PS.getAliveCount st =? 0).
End Calls.

Arguments exec {R} dist {order}.
Arguments run {R} dist {order}.
Arguments reachable {R} dist {order}.
Arguments after_clock {R}.
Arguments emission {R} dist {order}.
Arguments idle {R}.

(** A slot either keeps its particle or held a dead one (and was recycled). *)
Definition kept_or_recycled (p q : Particle.t) : Prop :=
  q = p \/ Particle.isAlive p = false.

(** The age [integrate] computes, from the life already decremented. *)
Definition age_after (deltaTime : float) (p : Particle.t) : float :=
  if (Particle.maxLife p >? F32.zero)%f32
  then (F32.one - (Particle.life p - deltaTime) / Particle.maxLife p)%f32
  else F32.one.

(** The indices of [n] quads with the base computed in the integers. *)
Definition plain_quad_indices (n : nat) : list Z :=
  flat_map (fun k => [4 * k; 4 * k + 1; 4 * k + 2; 4 * k; 4 * k + 2; 4 * k + 3])
    (zseq 0 n).

Definition never_throws {A : Type} (m : outcome A) : Prop :=
  forall e, m <> Thrown e.

(** ** Concrete inputs *)

(** Stand-ins for libm and GLM with which the generators can be run. *)
Definition identity_libm : Libm := {| sinf := fun x => x; cosf := fun x => x |}.

Definition identity_glm : GlmOps :=
  {| normalize := fun v => v;
     radians := fun d => d;
     mat3 := unit;
     mat4 := unit;
     identity4 := tt;
     translate := fun m _ => m;
     rotate := fun m _ _ => m;
     mul_m4_v4 := fun _ v => v;
     mat3_of_mat4 := fun _ => tt;
     inverse3 := fun m => m;
     transpose3 := fun m => m;
     mul_m3_v3 := fun _ v => v |}.

(** A generator whose every draw is [0.5]. *)
Definition steady_rng (g : unit) : float * unit := (F32.half, g).

(** The arguments evaluated last to first at both calls. *)
Definition right_to_left : PS.EvaluationOrder :=
  {| PS.position_order := PS.zyx; PS.velocity_order := PS.zyx |}.

(** The default emitter with a pool of [n] slots and [rate] particles per
    second. *)
Definition demo_config (n : Z) (rate : float) : PS.EmitterConfig :=
  let c := PS.default_config in
  PS.mkConfig (PS.position c) (PS.positionVariance c) (PS.velocity c)
    (PS.velocityVariance c) (PS.startColor c) (PS.endColor c) (PS.startSize c)
    (PS.endSize c) (PS.minLife c) (PS.maxLife c) rate n (PS.gravity c)
    (PS.drag c) (PS.looping c) (PS.duration c).

Definition sample_particle (life maxLife : float) : Particle.t :=
  Particle.mk (glm.splat3 F32.zero) (glm.splat3 F32.one) (glm.splat4 F32.one)
    life maxLife F32.one.

(** A particle whose life and initial life are both [+infinity]. *)
Definition eternal_particle : Particle.t :=
  Particle.mk (glm.splat3 F32.zero) (glm.splat3 F32.zero) (glm.splat4 F32.one)
    F32.infinity F32.infinity F32.one.

(** A system whose single slot is alive and whose credit is one emission. *)
Definition full_system : PS.t unit :=
  PS.mk unit [sample_particle F32.two F32.two] [] [] (demo_config 1 (F32.of_Z 10))
    true F32.one F32.zero tt.

(** A cactus of one arm on three segments. *)
Definition small_cactus : Cactus.t :=
  Cactus.create
    (Cactus.mkConfig (glm.splat3 F32.zero) (F32.of_Z 5) (F32.dec 5 1) 1
       (F32.dec 6 1) (glm.splat3 F32.one) 3).

(** ** A claim in the specification's words *)

(** [createSphere] returns a mesh of the stated size for every
    [segments >= 1] and [rings >= 1]. *)
Definition sphere_claim_as_stated : Prop :=
  forall (L : Libm) (radius : float) (color : glm.vec3) (segments rings : Z),
    is_u32 segments -> is_u32 rings -> 1 <= segments -> 1 <= rings ->
    exists fuel m,
      MeshGenerator.createSphere fuel radius segments rings color = Done m
      /\ Mesh.getVertexCount m = (rings + 1) * (segments + 1)
      /\ Mesh.getIndexCount m = 6 * segments * rings
      /\ Forall (fun i => 0 <= i < (rings + 1) * (segments + 1)) (Mesh.indices m).

(* ================================================================== *)
(** ** Vertices, timed effects and strings *)

(** No component is a NaN. *)
Definition no_nan3 (u : glm.vec3) : bool :=
  negb (F32.is_nan (glm.x u)) && negb (F32.is_nan (glm.y u))
  && negb (F32.is_nan (glm.z u)).
Definition no_nan2 (u : glm.vec2) : bool :=
  negb (F32.is_nan (glm.x2 u)) && negb (F32.is_nan (glm.y2 u)).
Definition Vertex_no_nan (v : Vertex.t) : bool :=
  no_nan3 (Vertex.position v) && no_nan3 (Vertex.normal v)
  && no_nan2 (Vertex.texCoord v) && no_nan3 (Vertex.color v).

(** The duration test of [update], on the clock already advanced. *)
Definition expires {R : Type} (deltaTime : float) (st : PS.t R) : bool :=
  negb (PS.looping (PS.config st))
  && (PS.duration (PS.config st) >? F32.zero)%f32
  && (PS.systemTime st + deltaTime >? PS.duration (PS.config st))%f32.

(** The default emitter made a one-shot effect of the given duration. *)
Definition timed_config (duration : float) : PS.EmitterConfig :=
  let c := PS.default_config in
  PS.mkConfig (PS.position c) (PS.positionVariance c) (PS.velocity c)
    (PS.velocityVariance c) (PS.startColor c) (PS.endColor c) (PS.startSize c)
    (PS.endSize c) (PS.minLife c) (PS.maxLife c) (PS.emissionRate c)
    (PS.maxParticles c) (PS.gravity c) (PS.drag c) false duration.

(** The active flag after a sequence of calls when no effect expires: the
    last [start] or [stop] decides. *)
Definition switched (calls : list call) (active : bool) : bool :=
  fold_left
    (fun active c =>
       match c with Update _ _ => active | Start => true | Stop => false end)
    calls active.

(** Three vertices: one with a NaN z, one without NaN, and the second with
    its zero coordinates negated. *)
Definition nan_z_vertex : Vertex.t :=
  Vertex.mk (glm.mk3 F32.one F32.two F32.nan) (glm.splat3 F32.zero)
    (glm.mk2 F32.zero F32.zero) (glm.splat3 F32.one).
Definition plain_vertex : Vertex.t :=
  Vertex.mk (glm.mk3 F32.four F32.half F32.zero) (glm.splat3 F32.zero)
    (glm.mk2 F32.zero F32.one) (glm.splat3 F32.one).
Definition minus_zero_vertex : Vertex.t :=
  Vertex.mk (glm.mk3 F32.four F32.half (S754_zero true))
    (glm.splat3 (S754_zero true)) (glm.mk2 (S754_zero true) F32.one)
    (glm.splat3 F32.one).

(** A pool of three slots of which the first is alive. *)
Definition half_dead_system : PS.t unit :=
  PS.mk unit
    [sample_particle F32.two F32.two; sample_particle F32.zero F32.two;
     sample_particle F32.zero F32.two]
    [] [] (demo_config 3 (F32.of_Z 10)) true F32.one F32.zero tt.

(** An empty, active one-shot effect of one second, at time zero. *)
Definition one_shot_system : PS.t unit :=
  PS.mk unit [] [] [] (timed_config F32.one) true F32.zero F32.zero tt.

(** Every token followed by the delimiter. *)
Definition unsplit (delimiter : ascii) (tokens : list OBJLoader.text)
    : OBJLoader.text :=
  flat_map (fun token => token ++ [delimiter]) tokens.

(** [str] with the delimiter added at its end unless it is empty or has one
    there. *)
Definition terminated (delimiter : ascii) (str : OBJLoader.text)
    : OBJLoader.text :=
  match str with
  | [] => []
  | _ => if Ascii.eqb (last str delimiter) delimiter then str
         else str ++ [delimiter]
  end.

Definition blank (str : OBJLoader.text) : Prop :=
  Forall (fun c => OBJLoader.is_in OBJLoader.whitespace c = true) str.

(** Neither the first nor the last character is white space. *)
Definition tight (str : OBJLoader.text) : Prop :=
  match str with
  | [] => True
  | c :: _ =>
      OBJLoader.is_in OBJLoader.whitespace c = false
      /\ OBJLoader.is_in OBJLoader.whitespace (last str c) = false
  end.

(** ** Vectors of bounded size and runs on fuel *)

(** [bounded] is [free] run on vectors that hold at most [max] elements:
    it returns what [free] returns as long as the vector fits. *)
Definition within {A : Type} (max : Z)
    (bounded free : list A -> outcome (list A)) : Prop :=
  (forall s r, bounded s = Done r ->
               free s = Done r /\ (r = s \/ Z.of_nat (length r) <= max))
  /\ (forall s r, free s = Done r ->
                  (length s <= length r)%nat
                  /\ (Z.of_nat (length r) <= max -> bounded s = Done r)).

(** A run that has ended is not changed by more fuel. *)
Definition stable {B : Type} (run : nat -> outcome B) : Prop :=
  forall fuel fuel', (fuel <= fuel')%nat -> run fuel <> Fuel_out ->
                     run fuel' = run fuel.

(** * Properties *)

(** ** Integers modulo 2^32 *)

Lemma wrap32_small z : 0 <= z < u32_modulus -> wrap32 z = z.
Proof. intros Hz. unfold wrap32. apply Z.mod_small. exact Hz. Qed.

Lemma wrap32_range z : 0 <= wrap32 z < u32_modulus.
Proof. unfold wrap32. apply Z.mod_pos_bound. reflexivity. Qed.

Lemma wrap32_le z : 0 <= z -> wrap32 z <= z.
Proof. intros Hz. unfold wrap32. apply Z.mod_le; [exact Hz | reflexivity]. Qed.

Lemma wrap32_add_l a b : wrap32 (wrap32 a + b) = wrap32 (a + b).
Proof. unfold wrap32. apply Zplus_mod_idemp_l. Qed.

(** ** [zseq] *)

Lemma zseq_length i k : length (zseq i k) = k.
Proof.
  revert i. induction k as [|k IH]; intros i; simpl; [reflexivity |].
  now rewrite IH.
Qed.

Lemma zseq_In i k j : In j (zseq i k) <-> i <= j < i + Z.of_nat k.
Proof.
  revert i. induction k as [|k IH]; intros i; simpl.
  - split; [intros [] | lia].
  - rewrite IH. lia.
Qed.

Lemma zseq_app i k1 k2 : zseq i (k1 + k2) = zseq i k1 ++ zseq (i + Z.of_nat k1) k2.
Proof.
  revert i. induction k1 as [|k1 IH]; intros i.
  - simpl. f_equal. lia.
  - cbn [Nat.add zseq app]. rewrite IH. do 3 f_equal. lia.
Qed.

(** ** Fuelled loops *)

Section LoopFacts.
Context {S : Type}.
Variables (cond : Z -> bool) (next : Z -> Z) (body : Z -> S -> outcome S).

(** With more fuel than iterations, the loop is the bodies in sequence. *)
Lemma for_loop_enough k : forall fuel i s,
  (k < fuel)%nat ->
  (forall j, i <= j < i + Z.of_nat k -> cond j = true /\ next j = j + 1) ->
  cond (i + Z.of_nat k) = false ->
  for_loop fuel cond next body i s = foldM body (zseq i k) s.
Proof.
  induction k as [|k IH]; intros fuel i s Hfuel Hrun Hstop.
  - destruct fuel as [|fuel]; [lia |]. simpl.
    replace (i + Z.of_nat 0) with i in Hstop by lia.
    now rewrite Hstop.
  - destruct fuel as [|fuel]; [lia |]. simpl.
    destruct (Hrun i ltac:(lia)) as [Hc Hn]. rewrite Hc, Hn.
    destruct (body i s) as [s' | |e]; simpl; try reflexivity.
    apply IH.
    + lia.
    + intros j Hj. apply Hrun. lia.
    + replace (i + 1 + Z.of_nat k) with (i + Z.of_nat (Datatypes.S k)) by lia.
      exact Hstop.
Qed.

(** With no more fuel than iterations, the loop does not return. *)
Lemma for_loop_short fuel : forall k i s r,
  (fuel <= k)%nat ->
  (forall j, i <= j < i + Z.of_nat k -> cond j = true /\ next j = j + 1) ->
  for_loop fuel cond next body i s <> Done r.
Proof.
  induction fuel as [|fuel IH]; intros k i s r Hfuel Hrun; simpl.
  - discriminate.
  - destruct k as [|k]; [lia |].
    destruct (Hrun i ltac:(lia)) as [Hc Hn]. rewrite Hc, Hn.
    destruct (body i s) as [s' | |e]; simpl; try discriminate.
    apply (IH k).
    + lia.
    + intros j Hj. apply Hrun. lia.
Qed.

(** A loop whose condition holds on a set closed under [next] never
    returns. *)
Lemma for_loop_forever (P : Z -> Prop) fuel : forall i s r,
  (forall j, P j -> cond j = true /\ P (next j)) ->
  P i ->
  for_loop fuel cond next body i s <> Done r.
Proof.
  induction fuel as [|fuel IH]; intros i s r Hall Hi; simpl.
  - discriminate.
  - destruct (Hall i Hi) as [Hc Hn]. rewrite Hc.
    destruct (body i s) as [s' | |e]; simpl; try discriminate.
    apply IH; assumption.
Qed.

(** A loop throws only if its body does. *)
Lemma for_loop_no_throw fuel : forall i s e,
  (forall j s' e', body j s' <> Thrown e') ->
  for_loop fuel cond next body i s <> Thrown e.
Proof.
  induction fuel as [|fuel IH]; intros i s e Hb; simpl.
  - discriminate.
  - destruct (cond i); [| discriminate].
    destruct (body i s) as [s' | |e'] eqn:E; simpl.
    + apply IH. exact Hb.
    + discriminate.
    + exfalso. exact (Hb _ _ _ E).
Qed.
End LoopFacts.

Lemma foldM_push {A : Type} (g : Z -> list A) l : forall s,
  foldM (fun i s => Done (s ++ g i)) l s = Done (s ++ flat_map g l).
Proof.
  induction l as [|i l IH]; intros s; simpl.
  - now rewrite app_nil_r.
  - rewrite IH. now rewrite <- app_assoc.
Qed.

(** ** [uint32_t] counting loops *)

Section U32Loops.
Context {S : Type}.
Variable body : Z -> S -> outcome S.

Lemma for_u32_lt_enough fuel n s :
  is_u32 n -> (Z.to_nat n < fuel)%nat ->
  for_u32 fuel (fun i => i <? n) body 0 s = foldM body (zseq 0 (Z.to_nat n)) s.
Proof.
  intros [Hn0 Hn] Hfuel. unfold for_u32.
  apply for_loop_enough; [exact Hfuel | |].
  - intros j Hj. split; [apply Z.ltb_lt; lia |].
    apply wrap32_small. unfold u32_modulus in *. lia.
  - apply Z.ltb_ge. lia.
Qed.

Lemma for_u32_le_enough fuel n s :
  0 <= n < u32_max -> (Z.to_nat n + 1 < fuel)%nat ->
  for_u32 fuel (fun i => i <=? n) body 0 s
  = foldM body (zseq 0 (Z.to_nat n + 1)) s.
Proof.
  intros [Hn0 Hn] Hfuel. unfold for_u32.
  apply for_loop_enough; [exact Hfuel | |].
  - intros j Hj. split; [apply Z.leb_le; lia |].
    apply wrap32_small. unfold u32_modulus, u32_max in *. lia.
  - apply Z.leb_gt. lia.
Qed.

Lemma for_u32_lt_short fuel n s r :
  is_u32 n -> (fuel <= Z.to_nat n)%nat ->
  for_u32 fuel (fun i => i <? n) body 0 s <> Done r.
Proof.
  intros [Hn0 Hn] Hfuel. unfold for_u32.
  apply (for_loop_short _ _ _ fuel (Z.to_nat n)); [exact Hfuel |].
  intros j Hj. split; [apply Z.ltb_lt; lia |].
  apply wrap32_small. unfold u32_modulus in *. lia.
Qed.

Lemma for_u32_le_short fuel n s r :
  0 <= n < u32_max -> (fuel <= Z.to_nat n + 1)%nat ->
  for_u32 fuel (fun i => i <=? n) body 0 s <> Done r.
Proof.
  intros [Hn0 Hn] Hfuel. unfold for_u32.
  apply (for_loop_short _ _ _ fuel (Z.to_nat n + 1)); [exact Hfuel |].
  intros j Hj. split; [apply Z.leb_le; lia |].
  apply wrap32_small. unfold u32_modulus, u32_max in *. lia.
Qed.

(** [for (uint32_t i = 0; i <= UINT32_MAX; ++i)] has no exit. *)
Lemma for_u32_le_max_forever fuel n s r :
  u32_max <= n ->
  for_u32 fuel (fun i => i <=? n) body 0 s <> Done r.
Proof.
  intros Hn. unfold for_u32.
  apply (for_loop_forever _ _ _ is_u32).
  - intros j [Hj0 Hj]. split.
    + apply Z.leb_le. unfold u32_modulus, u32_max in *. lia.
    + apply wrap32_range.
  - unfold is_u32, u32_modulus. lia.
Qed.

(** A returning [i <= n] loop: [n] is below [UINT32_MAX], the fuel was
    enough, and the result is that of the [n + 1] bodies. *)
Lemma for_u32_le_Done fuel n s r :
  is_u32 n ->
  for_u32 fuel (fun i => i <=? n) body 0 s = Done r ->
  n < u32_max /\ (Z.to_nat n + 1 < fuel)%nat
  /\ foldM body (zseq 0 (Z.to_nat n + 1)) s = Done r.
Proof.
  intros Hu Hdone.
  assert (Hn : n < u32_max).
  { destruct (Z_lt_le_dec n u32_max) as [Hlt | Hge]; [exact Hlt |].
    exfalso. exact (for_u32_le_max_forever _ _ _ _ Hge Hdone). }
  assert (Hf : (Z.to_nat n + 1 < fuel)%nat).
  { destruct (Nat.lt_ge_cases (Z.to_nat n + 1) fuel) as [Hlt | Hge]; [exact Hlt |].
    exfalso. refine (for_u32_le_short _ _ _ _ _ Hge Hdone).
    destruct Hu. lia. }
  repeat split; [exact Hn | exact Hf |].
  rewrite <- Hdone. symmetry. apply for_u32_le_enough; [destruct Hu; lia | exact Hf].
Qed.

Lemma for_u32_lt_Done fuel n s r :
  is_u32 n ->
  for_u32 fuel (fun i => i <? n) body 0 s = Done r ->
  (Z.to_nat n < fuel)%nat /\ foldM body (zseq 0 (Z.to_nat n)) s = Done r.
Proof.
  intros Hu Hdone.
  assert (Hf : (Z.to_nat n < fuel)%nat).
  { destruct (Nat.lt_ge_cases (Z.to_nat n) fuel) as [Hlt | Hge]; [exact Hlt |].
    exfalso. exact (for_u32_lt_short _ _ _ _ Hu Hge Hdone). }
  split; [exact Hf |].
  rewrite <- Hdone. symmetry. apply for_u32_lt_enough; assumption.
Qed.
End U32Loops.

(** Loops that only push: the closed forms used for every generator. *)

Lemma push_le_enough {A : Type} (g : Z -> list A) fuel n s :
  0 <= n < u32_max -> (Z.to_nat n + 1 < fuel)%nat ->
  for_u32 fuel (fun i => i <=? n) (fun i s => Done (s ++ g i)) 0 s
  = Done (s ++ flat_map g (zseq 0 (Z.to_nat n + 1))).
Proof. intros Hn Hf. rewrite for_u32_le_enough by assumption. apply foldM_push. Qed.

Lemma push_lt_enough {A : Type} (g : Z -> list A) fuel n s :
  is_u32 n -> (Z.to_nat n < fuel)%nat ->
  for_u32 fuel (fun i => i <? n) (fun i s => Done (s ++ g i)) 0 s
  = Done (s ++ flat_map g (zseq 0 (Z.to_nat n))).
Proof. intros Hn Hf. rewrite for_u32_lt_enough by assumption. apply foldM_push. Qed.

Lemma push_le_Done {A : Type} (g : Z -> list A) fuel n s r :
  is_u32 n ->
  for_u32 fuel (fun i => i <=? n) (fun i s => Done (s ++ g i)) 0 s = Done r ->
  n < u32_max /\ (Z.to_nat n + 1 < fuel)%nat
  /\ r = s ++ flat_map g (zseq 0 (Z.to_nat n + 1)).
Proof.
  intros Hu Hd. apply for_u32_le_Done in Hd; [| exact Hu].
  destruct Hd as (Hn & Hf & Hd). rewrite foldM_push in Hd.
  repeat split; [exact Hn | exact Hf | congruence].
Qed.

Lemma push_lt_Done {A : Type} (g : Z -> list A) fuel n s r :
  is_u32 n ->
  for_u32 fuel (fun i => i <? n) (fun i s => Done (s ++ g i)) 0 s = Done r ->
  (Z.to_nat n < fuel)%nat /\ r = s ++ flat_map g (zseq 0 (Z.to_nat n)).
Proof.
  intros Hu Hd. apply for_u32_lt_Done in Hd; [| exact Hu].
  destruct Hd as (Hf & Hd). rewrite foldM_push in Hd.
  split; [exact Hf | congruence].
Qed.

(** Lengths and bounds of flattened grids. *)

Lemma flat_map_length_const {A B : Type} (g : A -> list B) (c : nat) l :
  (forall a, In a l -> length (g a) = c) ->
  length (flat_map g l) = (length l * c)%nat.
Proof.
  induction l as [|a l IH]; intros Hc; simpl; [reflexivity |].
  rewrite length_app, IH by (intros; apply Hc; simpl; auto).
  rewrite (Hc a) by (simpl; auto). reflexivity.
Qed.

Lemma Forall_flat_map_in {A B : Type} (P : B -> Prop) (g : A -> list B) l :
  (forall a, In a l -> Forall P (g a)) -> Forall P (flat_map g l).
Proof.
  induction l as [|a l IH]; intros Hg; simpl; [constructor |].
  apply Forall_app. split; [apply Hg; simpl; auto |].
  apply IH. intros. apply Hg. simpl. auto.
Qed.

(** ** Two nested counting loops that push *)

Lemma foldM_ext {S : Type} (body body' : Z -> S -> outcome S) l : forall s,
  (forall i s, body i s = body' i s) ->
  foldM body l s = foldM body' l s.
Proof.
  induction l as [|i l IH]; intros s Hb; simpl; [reflexivity |].
  rewrite Hb. destruct (body' i s); simpl; auto.
Qed.

Section Grids.
Context {A : Type}.
Variable g : Z -> Z -> list A.

Lemma grid_le_enough fuel n m s :
  0 <= n < u32_max -> 0 <= m < u32_max ->
  (Z.to_nat n + 1 < fuel)%nat -> (Z.to_nat m + 1 < fuel)%nat ->
  for_u32 fuel (fun i => i <=? n)
    (fun i s =>
       for_u32 fuel (fun j => j <=? m) (fun j s => Done (s ++ g i j)) 0 s) 0 s
  = Done (s ++ grid g (Z.to_nat n + 1) (Z.to_nat m + 1)).
Proof.
  intros Hn Hm Hfn Hfm.
  rewrite for_u32_le_enough by assumption.
  rewrite (foldM_ext _
             (fun i s => Done (s ++ flat_map (g i) (zseq 0 (Z.to_nat m + 1))))).
  - apply foldM_push.
  - intros i s0. apply push_le_enough; assumption.
Qed.

Lemma grid_le_Done fuel n m s r :
  is_u32 n -> is_u32 m ->
  for_u32 fuel (fun i => i <=? n)
    (fun i s =>
       for_u32 fuel (fun j => j <=? m) (fun j s => Done (s ++ g i j)) 0 s) 0 s
  = Done r ->
  n < u32_max /\ m < u32_max
  /\ (Z.to_nat n + 1 < fuel)%nat /\ (Z.to_nat m + 1 < fuel)%nat
  /\ r = s ++ grid g (Z.to_nat n + 1) (Z.to_nat m + 1).
Proof.
  intros Hun Hum Hd.
  pose proof Hd as Hd0.
  apply for_u32_le_Done in Hd0; [| exact Hun].
  destruct Hd0 as (Hn & Hfn & Hfold).
  rewrite Nat.add_1_r in Hfold. simpl in Hfold.
  destruct (for_u32 fuel (fun j => j <=? m) (fun j s => Done (s ++ g 0 j)) 0 s)
    as [s1 | |e] eqn:Hinner; simpl in Hfold; try discriminate.
  apply push_le_Done in Hinner; [| exact Hum].
  destruct Hinner as (Hm & Hfm & _).
  repeat split; try assumption.
  rewrite grid_le_enough in Hd; try assumption;
    [congruence | destruct Hun; lia | destruct Hum; lia].
Qed.

Lemma grid_lt_enough fuel n m s :
  is_u32 n -> is_u32 m ->
  (Z.to_nat n < fuel)%nat -> (Z.to_nat m < fuel)%nat ->
  for_u32 fuel (fun i => i <? n)
    (fun i s =>
       for_u32 fuel (fun j => j <? m) (fun j s => Done (s ++ g i j)) 0 s) 0 s
  = Done (s ++ grid g (Z.to_nat n) (Z.to_nat m)).
Proof.
  intros Hn Hm Hfn Hfm.
  rewrite for_u32_lt_enough by assumption.
  rewrite (foldM_ext _
             (fun i s => Done (s ++ flat_map (g i) (zseq 0 (Z.to_nat m))))).
  - apply foldM_push.
  - intros i s0. apply push_lt_enough; assumption.
Qed.

Lemma grid_lt_Done fuel n m s r :
  is_u32 n -> is_u32 m ->
  for_u32 fuel (fun i => i <? n)
    (fun i s =>
       for_u32 fuel (fun j => j <? m) (fun j s => Done (s ++ g i j)) 0 s) 0 s
  = Done r ->
  r = s ++ grid g (Z.to_nat n) (Z.to_nat m).
Proof.
  intros Hun Hum Hd.
  pose proof Hd as Hd0.
  apply for_u32_lt_Done in Hd0; [| exact Hun].
  destruct Hd0 as (Hfn & Hfold).
  destruct (Z.to_nat n) as [|k] eqn:Hk.
  - simpl in Hfold. unfold grid. simpl. rewrite app_nil_r. congruence.
  - simpl in Hfold.
    destruct (for_u32 fuel (fun j => j <? m) (fun j s => Done (s ++ g 0 j)) 0 s)
      as [s1 | |e] eqn:Hinner; simpl in Hfold; try discriminate.
    apply push_lt_Done in Hinner; [| exact Hum].
    destruct Hinner as (Hfm & _).
    rewrite grid_lt_enough in Hd; try assumption; [| lia].
    rewrite Hk in Hd. congruence.
Qed.

Lemma grid_length (c rows cols : nat) :
  (forall i j, length (g i j) = c) ->
  length (grid g rows cols) = (rows * cols * c)%nat.
Proof.
  intros Hc. unfold grid.
  rewrite (flat_map_length_const _ (cols * c)).
  - rewrite zseq_length. lia.
  - intros i _. rewrite (flat_map_length_const _ c).
    + now rewrite zseq_length.
    + intros j _. apply Hc.
Qed.

Lemma grid_Forall (P : A -> Prop) (rows cols : nat) :
  (forall i j, 0 <= i < Z.of_nat rows -> 0 <= j < Z.of_nat cols ->
               Forall P (g i j)) ->
  Forall P (grid g rows cols).
Proof.
  intros HP. unfold grid.
  apply Forall_flat_map_in. intros i Hi. apply zseq_In in Hi.
  apply Forall_flat_map_in. intros j Hj. apply zseq_In in Hj.
  apply HP; lia.
Qed.
End Grids.

(** ** Vectors that hold at most [max] elements *)

Section Vectors.
Context {A : Type}.
Variable max : Z.

Lemma push_backs_fit (xs : list A) : forall v,
  Z.of_nat (length v) + Z.of_nat (length xs) <= max ->
  push_backs max v xs = Done (v ++ xs).
Proof.
  induction xs as [|x xs IH]; intros v Hfit; cbn [push_backs].
  - rewrite app_nil_r. reflexivity.
  - unfold push_back. cbn [length] in Hfit.
    replace (Z.of_nat (length v) <? max) with true
      by (symmetry; apply Z.ltb_lt; lia).
    cbn [bind]. rewrite IH by (rewrite length_app; cbn [length]; lia).
    rewrite <- app_assoc. reflexivity.
Qed.

Lemma push_backs_Done (xs : list A) : forall v r,
  push_backs max v xs = Done r ->
  r = v ++ xs /\ (xs = [] \/ Z.of_nat (length r) <= max).
Proof.
  induction xs as [|x xs IH]; intros v r Hd; cbn [push_backs] in Hd.
  - injection Hd as <-. rewrite app_nil_r. auto.
  - unfold push_back in Hd.
    destruct (Z.of_nat (length v) <? max) eqn:Hlt; cbn [bind] in Hd;
      [| discriminate].
    apply Z.ltb_lt in Hlt. apply IH in Hd. destruct Hd as [-> Hfit].
    split; [rewrite <- app_assoc; reflexivity |]. right.
    destruct Hfit as [-> | Hfit]; [| exact Hfit].
    rewrite app_nil_r, length_app. cbn [length]. lia.
Qed.

Lemma push_back_Done (v : list A) (x : A) r :
  push_back max v x = Done r ->
  r = v ++ [x] /\ Z.of_nat (length v) < max.
Proof.
  unfold push_back. destruct (Z.of_nat (length v) <? max) eqn:Hlt;
    [| discriminate].
  apply Z.ltb_lt in Hlt. intros Hd. injection Hd as <-. auto.
Qed.

Lemma push_back_fit (v : list A) (x : A) :
  Z.of_nat (length v) < max -> push_back max v x = Done (v ++ [x]).
Proof.
  intros Hlt. unfold push_back.
  replace (Z.of_nat (length v) <? max) with true
    by (symmetry; apply Z.ltb_lt; lia).
  reflexivity.
Qed.

Lemma within_push_backs (xs : list A) :
  within max (fun s => push_backs max s xs) (fun s => Done (s ++ xs)).
Proof.
  split.
  - intros s r Hd. apply push_backs_Done in Hd. destruct Hd as [-> Hfit].
    split; [reflexivity |].
    destruct Hfit as [-> | Hfit]; [left; apply app_nil_r | right; exact Hfit].
  - intros s r Hd. injection Hd as <-. rewrite length_app. split; [lia |].
    intros Hfit. apply push_backs_fit. lia.
Qed.

Lemma within_push_back (x : A) :
  within max (fun s => push_back max s x) (fun s => Done (s ++ [x])).
Proof.
  split.
  - intros s r Hd. apply push_back_Done in Hd. destruct Hd as [-> Hlt].
    split; [reflexivity |]. right. rewrite length_app. cbn [length]. lia.
  - intros s r Hd. injection Hd as <-. rewrite length_app. cbn [length].
    split; [lia |]. intros Hfit. apply push_back_fit. lia.
Qed.

Lemma within_for_loop cond next (bounded free : Z -> list A -> outcome (list A)) :
  (forall i, within max (bounded i) (free i)) ->
  forall fuel i,
    within max (for_loop fuel cond next bounded i)
      (for_loop fuel cond next free i).
Proof.
  intros Hbody. induction fuel as [|fuel IH]; intros i; split;
    cbn [for_loop]; try discriminate.
  - intros s r Hd. destruct (cond i); [| injection Hd as <-; auto].
    destruct (bounded i s) as [s' | |e] eqn:Hb; cbn [bind] in Hd;
      try discriminate.
    destruct (proj1 (Hbody i) s s' Hb) as [Hf Hs'].
    rewrite Hf. cbn [bind].
    destruct (proj1 (IH (next i)) s' r Hd) as [Hloop Hr].
    split; [exact Hloop |].
    destruct Hr as [-> | Hr]; [exact Hs' | right; exact Hr].
  - intros s r Hd. destruct (cond i);
      [| injection Hd as <-; split; [lia | reflexivity]].
    destruct (free i s) as [s' | |e] eqn:Hf; cbn [bind] in Hd;
      try discriminate.
    destruct (proj2 (Hbody i) s s' Hf) as [Hlen Hb].
    destruct (proj2 (IH (next i)) s' r Hd) as [Hlen' Hloop].
    split; [lia |]. intros Hfit.
    rewrite Hb by lia. cbn [bind]. apply Hloop. exact Hfit.
Qed.

Lemma within_for_u32 cond (bounded free : Z -> list A -> outcome (list A)) fuel i :
  (forall i, within max (bounded i) (free i)) ->
  within max (fun s => for_u32 fuel cond bounded i s)
    (fun s => for_u32 fuel cond free i s).
Proof. intros Hbody. apply (within_for_loop _ _ _ _ Hbody fuel i). Qed.

Lemma within_Done bounded free (s r : list A) :
  within max bounded free -> bounded s = Done r ->
  free s = Done r /\ (r = s \/ Z.of_nat (length r) <= max).
Proof. intros [H1 _]. apply H1. Qed.

Lemma within_enough bounded free (s r : list A) :
  within max bounded free -> free s = Done r ->
  Z.of_nat (length r) <= max -> bounded s = Done r.
Proof. intros [_ H2] Hf Hfit. apply (H2 s r Hf). exact Hfit. Qed.
End Vectors.

Section Stable.

Lemma stable_pure {B : Type} (m : outcome B) : stable (fun _ => m).
Proof. intros fuel fuel' _ _. reflexivity. Qed.

Lemma stable_bind {B C : Type} (first : nat -> outcome B)
    (rest : nat -> B -> outcome C) :
  stable first -> (forall x, stable (fun fuel => rest fuel x)) ->
  stable (fun fuel => x <- first fuel ;; rest fuel x).
Proof.
  intros Hfirst Hrest fuel fuel' Hle Hrun.
  destruct (first fuel) as [x | |e] eqn:Hf; cbn [bind] in Hrun;
    try contradiction.
  - rewrite (Hfirst fuel fuel' Hle) by (rewrite Hf; discriminate).
    rewrite Hf. cbn [bind]. apply (Hrest x fuel fuel' Hle Hrun).
  - rewrite (Hfirst fuel fuel' Hle) by (rewrite Hf; discriminate).
    rewrite Hf. reflexivity.
Qed.

Lemma stable_if {B : Type} (c : bool) (yes no : nat -> outcome B) :
  stable yes -> stable no -> stable (fun fuel => if c then yes fuel else no fuel).
Proof. intros Hy Hn. destruct c; assumption. Qed.

Lemma for_loop_stable {S : Type} cond next
    (body : nat -> Z -> S -> outcome S) :
  (forall i s, stable (fun fuel => body fuel i s)) ->
  forall steps steps' fuel fuel' i s,
    (steps <= steps')%nat -> (fuel <= fuel')%nat ->
    for_loop steps cond next (body fuel) i s <> Fuel_out ->
    for_loop steps' cond next (body fuel') i s
    = for_loop steps cond next (body fuel) i s.
Proof.
  intros Hbody. induction steps as [|steps IH];
    intros steps' fuel fuel' i s Hs Hf Hrun; cbn [for_loop] in *;
    [contradiction |].
  destruct steps' as [|steps']; [lia |]. cbn [for_loop].
  destruct (cond i); [| reflexivity].
  destruct (body fuel i s) as [s' | |e] eqn:Hb; cbn [bind] in Hrun;
    try contradiction.
  - rewrite (Hbody i s fuel fuel' Hf) by (rewrite Hb; discriminate).
    rewrite Hb. cbn [bind]. apply IH; [lia | exact Hf | exact Hrun].
  - rewrite (Hbody i s fuel fuel' Hf) by (rewrite Hb; discriminate).
    rewrite Hb. reflexivity.
Qed.

Lemma stable_for_u32 {S : Type} cond (body : nat -> Z -> S -> outcome S) i s :
  (forall i s, stable (fun fuel => body fuel i s)) ->
  stable (fun fuel => for_u32 fuel cond (body fuel) i s).
Proof.
  intros Hbody fuel fuel' Hle Hrun. unfold for_u32 in *.
  apply (for_loop_stable _ _ _ Hbody); assumption.
Qed.

Lemma stable_never_throws {B : Type} (run : nat -> outcome B) fuel0 :
  stable run -> returns (run fuel0) -> forall fuel, never_throws (run fuel).
Proof.
  intros Hst [r Hr] fuel e He.
  pose proof (Hst fuel (Nat.max fuel fuel0) (Nat.le_max_l _ _)
                ltac:(rewrite He; discriminate)) as H1.
  pose proof (Hst fuel0 (Nat.max fuel fuel0) (Nat.le_max_r _ _)
                ltac:(rewrite Hr; discriminate)) as H2.
  congruence.
Qed.
End Stable.

Lemma stable_for_int {S : Type} n (body : nat -> Z -> S -> outcome S) i s :
  (forall i s, stable (fun fuel => body fuel i s)) ->
  stable (fun fuel => for_int fuel n (body fuel) i s).
Proof.
  intros Hbody fuel fuel' Hle Hrun. unfold for_int in *.
  apply (for_loop_stable _ _ _ Hbody); assumption.
Qed.

Ltac stable_run :=
  repeat first
    [ apply stable_pure
    | apply stable_bind; [| intro]
    | apply stable_for_u32; intros
    | apply stable_for_int; intros
    | apply stable_if ].

(** ** Loops that push onto a bounded vector *)

Lemma max_vertices_large : 2 ^ 40 <= MeshGenerator.max_vertices.
Proof. apply Z.leb_le. reflexivity. Qed.

Lemma max_indices_large :
  6 * MeshGenerator.max_vertices <= MeshGenerator.max_indices.
Proof. apply Z.leb_le. reflexivity. Qed.

Section BoundedLoops.
Context {A : Type}.
Variable max : Z.

Lemma within_row_le (g : Z -> A) fuel n :
  within max
    (fun s => for_u32 fuel (fun i => i <=? n) (fun i s => push_back max s (g i)) 0 s)
    (fun s => for_u32 fuel (fun i => i <=? n) (fun i s => Done (s ++ [g i])) 0 s).
Proof. apply within_for_u32. intros i. apply within_push_back. Qed.

Lemma within_row_lt (g : Z -> list A) fuel n :
  within max
    (fun s => for_u32 fuel (fun i => i <? n) (fun i s => push_backs max s (g i)) 0 s)
    (fun s => for_u32 fuel (fun i => i <? n) (fun i s => Done (s ++ g i)) 0 s).
Proof. apply within_for_u32. intros i. apply within_push_backs. Qed.

Lemma within_grid_le (g : Z -> Z -> A) fuel n m :
  within max
    (fun s =>
       for_u32 fuel (fun i => i <=? n)
         (fun i s =>
            for_u32 fuel (fun j => j <=? m)
              (fun j s => push_back max s (g i j)) 0 s) 0 s)
    (fun s =>
       for_u32 fuel (fun i => i <=? n)
         (fun i s =>
            for_u32 fuel (fun j => j <=? m)
              (fun j s => Done (s ++ [g i j])) 0 s) 0 s).
Proof. apply within_for_u32. intros i. apply within_row_le. Qed.

Lemma within_grid_lt (g : Z -> Z -> list A) fuel n m :
  within max
    (fun s =>
       for_u32 fuel (fun i => i <? n)
         (fun i s =>
            for_u32 fuel (fun j => j <? m)
              (fun j s => push_backs max s (g i j)) 0 s) 0 s)
    (fun s =>
       for_u32 fuel (fun i => i <? n)
         (fun i s =>
            for_u32 fuel (fun j => j <? m)
              (fun j s => Done (s ++ g i j)) 0 s) 0 s).
Proof. apply within_for_u32. intros i. apply within_row_lt. Qed.

(** One row of single pushes, [i <= n]. *)
Lemma row_le_enough (g : Z -> A) fuel n s :
  0 <= n < u32_max -> (Z.to_nat n + 1 < fuel)%nat ->
  Z.of_nat (length s) + (n + 1) <= max ->
  for_u32 fuel (fun i => i <=? n) (fun i s => push_back max s (g i)) 0 s
  = Done (s ++ flat_map (fun i => [g i]) (zseq 0 (Z.to_nat n + 1))).
Proof.
  intros Hn Hf Hfit.
  apply (within_enough max _ _ s _ (within_row_le g fuel n)).
  - apply (push_le_enough (fun i => [g i])); assumption.
  - rewrite length_app, (flat_map_length_const _ 1) by reflexivity.
    rewrite zseq_length. lia.
Qed.

Lemma row_le_Done (g : Z -> A) fuel n s r :
  is_u32 n ->
  for_u32 fuel (fun i => i <=? n) (fun i s => push_back max s (g i)) 0 s = Done r ->
  n < u32_max /\ (Z.to_nat n + 1 < fuel)%nat
  /\ r = s ++ flat_map (fun i => [g i]) (zseq 0 (Z.to_nat n + 1))
  /\ Z.of_nat (length s) + (n + 1) <= max.
Proof.
  intros Hu Hd.
  apply (within_Done max _ _ s r (within_row_le g fuel n)) in Hd.
  destruct Hd as [Hd Hfit].
  apply (push_le_Done (fun i => [g i])) in Hd; [| exact Hu].
  destruct Hd as (Hn & Hf & ->).
  repeat split; try assumption.
  assert (Hlen : Z.of_nat (length (s ++ flat_map (fun i => [g i])
                                         (zseq 0 (Z.to_nat n + 1))))
                 = Z.of_nat (length s) + (n + 1)).
  { rewrite length_app, (flat_map_length_const _ 1) by reflexivity.
    rewrite zseq_length. destruct Hu. lia. }
  destruct Hfit as [Heq | Hfit]; [| lia].
  apply (f_equal (@length A)) in Heq. destruct Hu. lia.
Qed.

(** One row of cells of [c] pushes each, [i < n]. *)
Lemma row_lt_enough (g : Z -> list A) (c : nat) fuel n s :
  (forall i, length (g i) = c) ->
  is_u32 n -> (Z.to_nat n < fuel)%nat ->
  Z.of_nat (length s) + n * Z.of_nat c <= max ->
  for_u32 fuel (fun i => i <? n) (fun i s => push_backs max s (g i)) 0 s
  = Done (s ++ flat_map g (zseq 0 (Z.to_nat n))).
Proof.
  intros Hc Hn Hf Hfit.
  apply (within_enough max _ _ s _ (within_row_lt g fuel n)).
  - apply push_lt_enough; assumption.
  - rewrite length_app, (flat_map_length_const _ c) by (intros; apply Hc).
    rewrite zseq_length. destruct Hn. lia.
Qed.

Lemma row_lt_Done (g : Z -> list A) fuel n s r :
  is_u32 n ->
  for_u32 fuel (fun i => i <? n) (fun i s => push_backs max s (g i)) 0 s = Done r ->
  (Z.to_nat n < fuel)%nat /\ r = s ++ flat_map g (zseq 0 (Z.to_nat n)).
Proof.
  intros Hu Hd.
  apply (within_Done max _ _ s r (within_row_lt g fuel n)) in Hd.
  destruct Hd as [Hd _]. apply push_lt_Done in Hd; [| exact Hu]. exact Hd.
Qed.

(** A grid of single pushes, [i <= n] and [j <= m]. *)
Lemma grid_push_le_enough (g : Z -> Z -> A) fuel n m s :
  0 <= n < u32_max -> 0 <= m < u32_max ->
  (Z.to_nat n + 1 < fuel)%nat -> (Z.to_nat m + 1 < fuel)%nat ->
  Z.of_nat (length s) + (n + 1) * (m + 1) <= max ->
  for_u32 fuel (fun i => i <=? n)
    (fun i s =>
       for_u32 fuel (fun j => j <=? m) (fun j s => push_back max s (g i j)) 0 s)
    0 s
  = Done (s ++ grid (fun i j => [g i j]) (Z.to_nat n + 1) (Z.to_nat m + 1)).
Proof.
  intros Hn Hm Hfn Hfm Hfit.
  apply (within_enough max _ _ s _ (within_grid_le g fuel n m)).
  - apply (grid_le_enough (fun i j => [g i j])); assumption.
  - rewrite length_app, (grid_length _ 1) by reflexivity. nia.
Qed.

Lemma grid_push_le_Done (g : Z -> Z -> A) fuel n m s r :
  is_u32 n -> is_u32 m ->
  for_u32 fuel (fun i => i <=? n)
    (fun i s =>
       for_u32 fuel (fun j => j <=? m) (fun j s => push_back max s (g i j)) 0 s)
    0 s
  = Done r ->
  n < u32_max /\ m < u32_max
  /\ (Z.to_nat n + 1 < fuel)%nat /\ (Z.to_nat m + 1 < fuel)%nat
  /\ r = s ++ grid (fun i j => [g i j]) (Z.to_nat n + 1) (Z.to_nat m + 1)
  /\ Z.of_nat (length s) + (n + 1) * (m + 1) <= max.
Proof.
  intros Hun Hum Hd.
  apply (within_Done max _ _ s r (within_grid_le g fuel n m)) in Hd.
  destruct Hd as [Hd Hfit].
  apply (grid_le_Done (fun i j => [g i j])) in Hd; try assumption.
  destruct Hd as (Hn & Hm & Hfn & Hfm & ->).
  repeat split; try assumption.
  assert (Hlen : Z.of_nat (length (s ++ grid (fun i j => [g i j])
                                         (Z.to_nat n + 1) (Z.to_nat m + 1)))
                 = Z.of_nat (length s) + (n + 1) * (m + 1)).
  { rewrite length_app, (grid_length _ 1) by reflexivity.
    destruct Hun, Hum. nia. }
  destruct Hfit as [Heq | Hfit]; [| lia].
  apply (f_equal (@length A)) in Heq. destruct Hun, Hum. nia.
Qed.

(** A grid of cells of [c] pushes each, [i < n] and [j < m]. *)
Lemma grid_push_lt_enough (g : Z -> Z -> list A) (c : nat) fuel n m s :
  (forall i j, length (g i j) = c) ->
  is_u32 n -> is_u32 m -> (Z.to_nat n < fuel)%nat -> (Z.to_nat m < fuel)%nat ->
  Z.of_nat (length s) + n * m * Z.of_nat c <= max ->
  for_u32 fuel (fun i => i <? n)
    (fun i s =>
       for_u32 fuel (fun j => j <? m) (fun j s => push_backs max s (g i j)) 0 s)
    0 s
  = Done (s ++ grid g (Z.to_nat n) (Z.to_nat m)).
Proof.
  intros Hc Hn Hm Hfn Hfm Hfit.
  apply (within_enough max _ _ s _ (within_grid_lt g fuel n m)).
  - apply grid_lt_enough; assumption.
  - rewrite length_app, (grid_length _ c) by (intros; apply Hc).
    destruct Hn, Hm. nia.
Qed.

Lemma grid_push_lt_Done (g : Z -> Z -> list A) (c : nat) fuel n m s r :
  (forall i j, length (g i j) = c) ->
  is_u32 n -> is_u32 m ->
  for_u32 fuel (fun i => i <? n)
    (fun i s =>
       for_u32 fuel (fun j => j <? m) (fun j s => push_backs max s (g i j)) 0 s)
    0 s
  = Done r ->
  r = s ++ grid g (Z.to_nat n) (Z.to_nat m)
  /\ (r = s \/ Z.of_nat (length s) + n * m * Z.of_nat c <= max).
Proof.
  intros Hc Hun Hum Hd.
  apply (within_Done max _ _ s r (within_grid_lt g fuel n m)) in Hd.
  destruct Hd as [Hd Hfit].
  apply grid_lt_Done in Hd; try assumption. subst r.
  split; [reflexivity |].
  destruct Hfit as [Heq | Hfit]; [left; exact Heq | right].
  rewrite length_app, (grid_length _ c) in Hfit by (intros; apply Hc).
  destruct Hun, Hum. nia.
Qed.
End BoundedLoops.

(** The lengths of the vectors the generators build, and that they fit. *)
Ltac list_lengths :=
  repeat first
    [ rewrite length_app
    | rewrite (grid_length _ 1) by reflexivity
    | rewrite (grid_length _ 6) by reflexivity
    | rewrite (flat_map_length_const _ 1) by reflexivity
    | rewrite (flat_map_length_const _ 3) by reflexivity
    | rewrite (flat_map_length_const _ 6) by reflexivity
    | rewrite zseq_length ];
  cbn [length]; repeat change (Z.to_nat 1 + 1)%nat with 2%nat.

Ltac fits :=
  list_lengths;
  pose proof max_vertices_large; pose proof max_indices_large;
  unfold u32_max, is_u32, u32_modulus in *; lia.

(** ** createSphere *)

Section Sphere.
Context `{Libm}.
Variables (radius : float) (segments rings : Z) (color : glm.vec3).

Lemma createSphere_enough fuel :
  0 <= segments < u32_max -> 0 <= rings < u32_max ->
  (Z.to_nat segments + 1 < fuel)%nat -> (Z.to_nat rings + 1 < fuel)%nat ->
  (rings + 1) * (segments + 1) <= MeshGenerator.max_vertices ->
  MeshGenerator.createSphere fuel radius segments rings color
  = Done (sphere_mesh radius segments rings color).
Proof.
  intros Hs Hr Hfs Hfr Hfit. unfold MeshGenerator.createSphere. cbv zeta.
  assert (Hus : is_u32 segments) by (unfold is_u32, u32_modulus, u32_max in *; lia).
  assert (Hur : is_u32 rings) by (unfold is_u32, u32_modulus, u32_max in *; lia).
  pose proof (grid_push_le_enough MeshGenerator.max_vertices
                (sphere_vertex radius segments rings color)
                fuel rings segments [] Hr Hs Hfr Hfs Hfit) as Hv.
  unfold sphere_vertex in Hv. cbv zeta in Hv. rewrite Hv. clear Hv.
  cbn [bind].
  pose proof max_indices_large as Hlarge.
  assert (Hfit6 : Z.of_nat (length (@nil Z)) + rings * segments * Z.of_nat 6
                  <= MeshGenerator.max_indices) by (cbn [length]; nia).
  pose proof (grid_push_lt_enough MeshGenerator.max_indices
                (sphere_indices segments) 6 fuel rings segments []
                ltac:(reflexivity) Hur Hus ltac:(lia) ltac:(lia) Hfit6) as Hi.
  unfold sphere_indices in Hi. cbv zeta in Hi. rewrite Hi. clear Hi.
  reflexivity.
Qed.

Lemma createSphere_Done_fits fuel m :
  is_u32 segments -> is_u32 rings ->
  MeshGenerator.createSphere fuel radius segments rings color = Done m ->
  segments < u32_max /\ rings < u32_max
  /\ m = sphere_mesh radius segments rings color
  /\ (rings + 1) * (segments + 1) <= MeshGenerator.max_vertices.
Proof.
  intros Hs Hr Hd. unfold MeshGenerator.createSphere in Hd. cbv zeta in Hd.
  match type of Hd with
  | bind ?v _ = _ => destruct v as [vs | |e] eqn:Hv; cbn [bind] in Hd; try discriminate
  end.
  pose proof (grid_push_le_Done MeshGenerator.max_vertices
                (sphere_vertex radius segments rings color)
                fuel rings segments [] vs Hr Hs) as Hgrid.
  unfold sphere_vertex in Hgrid. cbv zeta in Hgrid.
  destruct (Hgrid Hv) as (Hr' & Hs' & _ & _ & Hvs & Hfit). clear Hgrid.
  match type of Hd with
  | bind ?v _ = _ => destruct v as [ixs | |e] eqn:Hi; cbn [bind] in Hd; try discriminate
  end.
  pose proof (grid_push_lt_Done MeshGenerator.max_indices
                (sphere_indices segments) 6 fuel rings segments [] ixs
                ltac:(reflexivity) Hr Hs) as Hgrid.
  unfold sphere_indices in Hgrid. cbv zeta in Hgrid.
  destruct (Hgrid Hi) as [Hixs _]. clear Hgrid.
  repeat split; try assumption.
  injection Hd as <-. rewrite Hvs, Hixs. reflexivity.
Qed.

Lemma createSphere_Done fuel m :
  is_u32 segments -> is_u32 rings ->
  MeshGenerator.createSphere fuel radius segments rings color = Done m ->
  segments < u32_max /\ rings < u32_max /\ m = sphere_mesh radius segments rings color.
Proof.
  intros Hs Hr Hd.
  destruct (createSphere_Done_fits fuel m Hs Hr Hd) as (H1 & H2 & H3 & _).
  auto.
Qed.
End Sphere.

Lemma make_vertices vs ixs : Mesh.vertices (Mesh.make vs ixs) = vs.
Proof. unfold Mesh.make. destruct (Mesh.recalculateBounds vs). reflexivity. Qed.

Lemma make_indices vs ixs : Mesh.indices (Mesh.make vs ixs) = ixs.
Proof. unfold Mesh.make. destruct (Mesh.recalculateBounds vs). reflexivity. Qed.

(** An index computed in [uint32_t] is at most the same expression computed
    in the integers. *)
Lemma wrap32_bounds z : 0 <= z -> 0 <= wrap32 z <= z.
Proof. intros Hz. split; [apply wrap32_range | apply wrap32_le; exact Hz]. Qed.

Section SphereBounds.
Context `{Libm}.

Lemma sphere_indices_bound segments rings ring segment :
  0 <= segments -> 0 <= ring < rings -> 0 <= segment < segments ->
  Forall (fun i => 0 <= i < (rings + 1) * (segments + 1))
    (sphere_indices segments ring segment).
Proof.
  intros Hs Hr Hc. unfold sphere_indices, MeshGenerator.sphere_cell. cbv zeta.
  pose proof (wrap32_bounds (segments + 1) ltac:(lia)) as B1.
  pose proof (wrap32_bounds (ring * wrap32 (segments + 1)) ltac:(nia)) as B2.
  pose proof (wrap32_bounds (wrap32 (ring * wrap32 (segments + 1)) + segment)
                ltac:(lia)) as B3.
  set (current := wrap32 (wrap32 (ring * wrap32 (segments + 1)) + segment)) in *.
  pose proof (wrap32_bounds (current + segments) ltac:(lia)) as B4.
  pose proof (wrap32_bounds (wrap32 (current + segments) + 1) ltac:(lia)) as B5.
  set (next := wrap32 (wrap32 (current + segments) + 1)) in *.
  pose proof (wrap32_bounds (current + 1) ltac:(lia)) as B6.
  pose proof (wrap32_bounds (next + 1) ltac:(lia)) as B7.
  assert (Hcur : current <= ring * (segments + 1) + segment) by nia.
  assert (Htop : ring * (segments + 1) + segment + segments + 2
                 < (rings + 1) * (segments + 1)) by nia.
  repeat constructor; lia.
Qed.

Lemma sphere_mesh_counts radius segments rings color :
  0 <= segments -> 0 <= rings ->
  let m := sphere_mesh radius segments rings color in
  Mesh.getVertexCount m = (rings + 1) * (segments + 1)
  /\ Mesh.getIndexCount m = 6 * segments * rings
  /\ Forall (fun i => 0 <= i < (rings + 1) * (segments + 1)) (Mesh.indices m).
Proof.
  intros Hs Hr m. unfold m, sphere_mesh, Mesh.getVertexCount, Mesh.getIndexCount.
  rewrite make_vertices, make_indices.
  rewrite (grid_length _ 1) by reflexivity.
  rewrite (grid_length _ 6) by reflexivity.
  repeat split; try lia.
  apply grid_Forall. intros i j Hi Hj.
  apply sphere_indices_bound; lia.
Qed.
End SphereBounds.

(** C4, counterexample: with [segments = UINT32_MAX] the vertex loop
    [segment <= segments] has no exit, and [createSphere] returns no mesh. *)
Lemma createSphere_max_segments_never_returns :
  is_u32 4294967295 /\ 1 <= 4294967295
  /\ ~ (exists (L : Libm) fuel radius color m,
          MeshGenerator.createSphere fuel radius 4294967295 1 color = Done m)
  /\ ~ sphere_claim_as_stated.
Proof.
  assert (Hu : is_u32 4294967295) by (unfold is_u32, u32_modulus; lia).
  assert (Hno : ~ (exists (L : Libm) fuel radius color m,
          MeshGenerator.createSphere fuel radius 4294967295 1 color = Done m)).
  { intros (L & fuel & radius & color & m & Hd).
    apply createSphere_Done in Hd; [| exact Hu | unfold is_u32, u32_modulus; lia].
    destruct Hd as (Hlt & _). unfold u32_max in Hlt. lia. }
  split; [exact Hu |]. split; [lia |]. split; [exact Hno |].
  intros Hclaim. apply Hno.
  destruct (Hclaim identity_libm F32.one (glm.splat3 F32.one) 4294967295 1)
    as (fuel & m & Hd & _);
    try (unfold is_u32, u32_modulus; lia).
  exists identity_libm, fuel, F32.one, (glm.splat3 F32.one), m. exact Hd.
Qed.

(** C4, amended: for [1 <= segments, rings <= UINT32_MAX - 1] whose
    [(rings+1)*(segments+1)] vertices a [std::vector<Vertex>] can hold,
    [createSphere] returns (given fuel for its loops), and only for those;
    the mesh it returns has exactly [(rings+1)*(segments+1)] vertices and
    [6*segments*rings] indices, each index below [(rings+1)*(segments+1)]. *)
Theorem createSphere_size_and_index_range
    (L : Libm) (radius : float) (color : glm.vec3) (segments rings : Z) :
  1 <= segments < u32_max -> 1 <= rings < u32_max ->
  ((rings + 1) * (segments + 1) <= MeshGenerator.max_vertices ->
   exists fuel m,
     MeshGenerator.createSphere fuel radius segments rings color = Done m)
  /\ (forall fuel m,
        MeshGenerator.createSphere fuel radius segments rings color = Done m ->
        (rings + 1) * (segments + 1) <= MeshGenerator.max_vertices
        /\ Mesh.getVertexCount m = (rings + 1) * (segments + 1)
        /\ Mesh.getIndexCount m = 6 * segments * rings
        /\ Forall (fun i => 0 <= i < (rings + 1) * (segments + 1))
             (Mesh.indices m)).
Proof.
  intros Hs Hr. split.
  - intros Hfit. exists (Z.to_nat segments + Z.to_nat rings + 2)%nat.
    exists (sphere_mesh radius segments rings color).
    apply createSphere_enough; first [lia | exact Hfit].
  - intros fuel m Hd.
    apply createSphere_Done_fits in Hd;
      try (unfold is_u32, u32_modulus, u32_max in *; lia).
    destruct Hd as (_ & _ & -> & Hfit).
    split; [exact Hfit |]. apply sphere_mesh_counts; lia.
Qed.

Lemma createSphere_size_and_index_range_witness :
  (exists fuel m,
     @MeshGenerator.createSphere identity_libm fuel F32.one 2 2
       (glm.splat3 F32.one) = Done m)
  /\ exists m,
       @MeshGenerator.createSphere identity_libm 5 F32.one 2 2
         (glm.splat3 F32.one) = Done m
       /\ Mesh.getVertexCount m = 9 /\ Mesh.getIndexCount m = 24.
Proof.
  destruct (createSphere_size_and_index_range identity_libm F32.one
              (glm.splat3 F32.one) 2 2) as [Hret Hc];
    [unfold u32_max; lia | unfold u32_max; lia |].
  split; [apply Hret; apply Z.leb_le; reflexivity |].
  eexists. split; [vm_compute; reflexivity |].
  destruct (Hc 5%nat _ eq_refl) as (_ & Hv & Hi & _).
  split; [exact Hv | exact Hi].
Defined.

Ltac bind_inv H :=
  match type of H with
  | bind ?v _ = Done _ =>
      let E := fresh "E" in
      destruct v eqn:E; cbn [bind] in H; try discriminate
  end.

(** ** createCylinder *)

Section Cylinder.
Context `{Libm}.
Variables (radius height : float) (segments : Z) (color : glm.vec3).

Lemma cylinder_mesh_eq vs ixs :
  vs = cylinder_vertices radius height segments color ->
  ixs = cylinder_indices radius height segments color ->
  Mesh.make vs ixs = cylinder_mesh radius height segments color.
Proof. intros -> ->. reflexivity. Qed.

Lemma createCylinder_enough fuel :
  0 <= segments < u32_max ->
  (Z.to_nat segments + 1 < fuel)%nat -> (2 < fuel)%nat ->
  MeshGenerator.createCylinder fuel radius height segments color
  = Done (cylinder_mesh radius height segments color).
Proof.
  intros Hs Hf H2. unfold MeshGenerator.createCylinder. cbv zeta.
  assert (Hu : is_u32 segments) by (unfold is_u32, u32_modulus, u32_max in *; lia).
  assert (Hside : Z.of_nat (length (@nil Vertex.t)) + (1 + 1) * (segments + 1)
                  <= MeshGenerator.max_vertices) by fits.
  pose proof (grid_push_le_enough MeshGenerator.max_vertices
                (cylinder_side_vertex radius height segments color)
                fuel 1 segments [] ltac:(unfold u32_max; lia) Hs ltac:(lia) Hf
                Hside) as Hv.
  unfold cylinder_side_vertex in Hv. cbv zeta in Hv. rewrite Hv. clear Hv Hside.
  cbn [bind].
  rewrite (row_lt_enough MeshGenerator.max_indices
             (MeshGenerator.side_cell segments) 6)
    by first [reflexivity | assumption | lia | fits].
  cbn [bind].
  rewrite (push_back_fit MeshGenerator.max_vertices) by fits. cbn [bind].
  rewrite (row_le_enough MeshGenerator.max_vertices) by first [assumption | fits].
  cbn [bind].
  rewrite (row_lt_enough MeshGenerator.max_indices _ 3)
    by first [reflexivity | assumption | lia | fits].
  cbn [bind].
  rewrite (push_back_fit MeshGenerator.max_vertices) by fits. cbn [bind].
  rewrite (row_le_enough MeshGenerator.max_vertices) by first [assumption | fits].
  cbn [bind].
  rewrite (row_lt_enough MeshGenerator.max_indices _ 3)
    by first [reflexivity | assumption | lia | fits].
  cbn [bind].
  f_equal. apply cylinder_mesh_eq.
  - unfold cylinder_vertices, cylinder_top_vertices, cylinder_bottom_vertices,
      cylinder_side_vertices.
    cbn [app]. change (Z.to_nat 1 + 1)%nat with 2%nat.
    repeat rewrite <- app_assoc. reflexivity.
  - unfold cylinder_indices. cbv zeta. cbn [app].
    unfold cylinder_top_vertices, cylinder_side_vertices.
    change (Z.to_nat 1 + 1)%nat with 2%nat.
    repeat rewrite <- app_assoc. reflexivity.
Qed.

Lemma createCylinder_Done fuel m :
  is_u32 segments ->
  MeshGenerator.createCylinder fuel radius height segments color = Done m ->
  segments < u32_max /\ m = cylinder_mesh radius height segments color.
Proof.
  intros Hu Hd. pose proof Hd as Hd0.
  unfold MeshGenerator.createCylinder in Hd0. cbv zeta in Hd0.
  bind_inv Hd0.
  pose proof (grid_push_le_Done MeshGenerator.max_vertices
                (cylinder_side_vertex radius height segments color)
                fuel 1 segments [] a ltac:(unfold is_u32, u32_modulus; lia) Hu)
    as Hgrid.
  unfold cylinder_side_vertex in Hgrid. cbv zeta in Hgrid.
  destruct (Hgrid E) as (_ & Hs & H2 & Hf & _). clear Hgrid.
  split; [exact Hs |].
  rewrite createCylinder_enough in Hd.
  - congruence.
  - destruct Hu. lia.
  - exact Hf.
  - change (Z.to_nat 1) with 1%nat in H2. lia.
Qed.

Lemma cylinder_vertices_length :
  0 <= segments ->
  Z.of_nat (length (cylinder_vertices radius height segments color)) = 4 * segments + 6.
Proof.
  intros Hs. unfold cylinder_vertices, cylinder_side_vertices,
    cylinder_top_vertices, cylinder_bottom_vertices.
  repeat rewrite length_app. cbn [length].
  rewrite (grid_length _ 1) by reflexivity.
  repeat rewrite (flat_map_length_const _ 1) by reflexivity.
  rewrite zseq_length. lia.
Qed.

Lemma cylinder_indices_bound :
  0 <= segments ->
  Forall (fun i => 0 <= i < 4 * segments + 6)
    (cylinder_indices radius height segments color).
Proof.
  intros Hs. unfold cylinder_indices. cbv zeta.
  assert (Hside : Z.of_nat (length (cylinder_side_vertices radius height segments color))
                  = 2 * segments + 2).
  { unfold cylinder_side_vertices. rewrite (grid_length _ 1) by reflexivity. lia. }
  assert (Htop : Z.of_nat (length (cylinder_side_vertices radius height segments color
                                   ++ cylinder_top_vertices radius height segments color))
                 = 3 * segments + 4).
  { rewrite length_app. unfold cylinder_top_vertices. cbn [length].
    rewrite (flat_map_length_const _ 1) by reflexivity.
    rewrite zseq_length. lia. }
  rewrite Hside, Htop.
  pose proof (wrap32_bounds (2 * segments + 2) ltac:(lia)) as Bt.
  pose proof (wrap32_bounds (3 * segments + 4) ltac:(lia)) as Bb.
  set (tc := wrap32 (2 * segments + 2)) in *.
  set (bc := wrap32 (3 * segments + 4)) in *.
  apply Forall_app; split; [| apply Forall_app; split];
    apply Forall_flat_map_in; intros seg Hseg; apply zseq_In in Hseg.
  - unfold MeshGenerator.side_cell. cbv zeta.
    pose proof (wrap32_bounds (seg + 1) ltac:(lia)).
    pose proof (wrap32_bounds (seg + segments) ltac:(lia)).
    pose proof (wrap32_bounds (wrap32 (seg + segments) + 1) ltac:(lia)).
    pose proof (wrap32_bounds (wrap32 (wrap32 (seg + segments) + 1) + 1) ltac:(lia)).
    repeat constructor; lia.
  - unfold MeshGenerator.top_cap_cell.
    pose proof (wrap32_bounds (tc + 1) ltac:(lia)).
    pose proof (wrap32_bounds (wrap32 (tc + 1) + seg) ltac:(lia)).
    pose proof (wrap32_bounds (wrap32 (wrap32 (tc + 1) + seg) + 1) ltac:(lia)).
    repeat constructor; lia.
  - unfold MeshGenerator.bottom_cap_cell.
    pose proof (wrap32_bounds (bc + 1) ltac:(lia)).
    pose proof (wrap32_bounds (wrap32 (bc + 1) + seg) ltac:(lia)).
    pose proof (wrap32_bounds (wrap32 (wrap32 (bc + 1) + seg) + 1) ltac:(lia)).
    repeat constructor; lia.
Qed.

Lemma cylinder_mesh_valid :
  0 <= segments ->
  Mesh.getVertexCount (cylinder_mesh radius height segments color)
  = 4 * segments + 6
  /\ Mesh.indices_valid (cylinder_mesh radius height segments color).
Proof.
  intros Hs. unfold Mesh.indices_valid, Mesh.getVertexCount, cylinder_mesh.
  rewrite make_vertices, make_indices, cylinder_vertices_length by exact Hs.
  split; [reflexivity | apply cylinder_indices_bound; exact Hs].
Qed.
End Cylinder.

Section LoopInvariant.
Context {S : Type}.
Variables (cond : Z -> bool) (next : Z -> Z) (body : Z -> S -> outcome S).
Variable Inv : Z -> S -> Prop.

Lemma for_loop_invariant fuel : forall i s r,
  (forall j s s', cond j = true -> Inv j s -> body j s = Done s' ->
                  Inv (next j) s') ->
  Inv i s ->
  for_loop fuel cond next body i s = Done r ->
  exists j, Inv j r /\ cond j = false.
Proof.
  induction fuel as [|fuel IH]; intros i s r Hstep Hi Hd; simpl in Hd.
  - discriminate.
  - destruct (cond i) eqn:Hc.
    + destruct (body i s) as [s' | |e] eqn:Hb; simpl in Hd; try discriminate.
      apply (IH (next i) s' r Hstep); [| exact Hd].
      apply (Hstep i s s'); assumption.
    + injection Hd as <-. exists i. split; assumption.
Qed.
End LoopInvariant.

Lemma foldM_returns {S : Type} (body : Z -> S -> outcome S) l : forall s,
  (forall i s, returns (body i s)) -> returns (foldM body l s).
Proof.
  induction l as [|i l IH]; intros s Hb; simpl.
  - exists s. reflexivity.
  - destruct (Hb i s) as [s' ->]. simpl. apply IH. exact Hb.
Qed.

Lemma rebase_valid (vs1 vs2 : list Vertex.t) (is1 is2 : list Z) :
  Forall (fun i => 0 <= i < Z.of_nat (length vs1)) is1 ->
  Forall (fun i => 0 <= i < Z.of_nat (length vs2)) is2 ->
  Forall (fun i => 0 <= i < Z.of_nat (length (vs1 ++ vs2)))
    (is1 ++ Cactus.rebase (wrap32 (Z.of_nat (length vs1))) is2).
Proof.
  intros H1 H2. rewrite length_app, Nat2Z.inj_add.
  apply Forall_app. split.
  - eapply Forall_impl; [| exact H1]. simpl. intros i Hi. lia.
  - unfold Cactus.rebase. apply Forall_map.
    eapply Forall_impl; [| exact H2]. simpl. intros i Hi.
    pose proof (wrap32_bounds (Z.of_nat (length vs1)) ltac:(lia)).
    pose proof (wrap32_bounds (i + wrap32 (Z.of_nat (length vs1))) ltac:(lia)).
    lia.
Qed.






(** ** Cactus *)

Section CactusFacts.
Context `{Libm} `{GlmOps}.
Variable c : Cactus.t.

Lemma generateArm_Done fuel attachHeight angle armLength arm :
  is_u32 (Cactus.segments (Cactus.m_config c)) ->
  Cactus.generateArm fuel c attachHeight angle armLength = Done arm ->
  (Cactus.segments (Cactus.m_config c)) < u32_max
  /\ Mesh.getVertexCount arm = 2 * (4 * (Cactus.segments (Cactus.m_config c)) + 6)
  /\ Mesh.indices_valid arm.
Proof.
  intros Hu Hd. unfold Cactus.generateArm in Hd. cbv zeta in Hd.
  bind_inv Hd. bind_inv Hd.
  apply createCylinder_Done in E; [| exact Hu].
  apply createCylinder_Done in E0; [| exact Hu].
  destruct E as (Hs & ->). destruct E0 as (_ & ->).
  injection Hd as <-.
  destruct Hu as [Hs0 _].
  destruct (cylinder_mesh_valid
              (Cactus.trunkRadius (Cactus.m_config c) * F32.dec 6 1
               * Cactus.m_growthFactor c)%f32
              (armLength * F32.half)%f32 (Cactus.segments (Cactus.m_config c))
              (Cactus.color (Cactus.m_config c)) Hs0)
    as [Hc1 Hv1].
  destruct (cylinder_mesh_valid
              (Cactus.trunkRadius (Cactus.m_config c) * F32.dec 6 1
               * Cactus.m_growthFactor c)%f32
              (armLength * F32.dec 6 1)%f32 (Cactus.segments (Cactus.m_config c))
              (Cactus.color (Cactus.m_config c)) Hs0)
    as [Hc2 Hv2].
  unfold Mesh.indices_valid, Mesh.getVertexCount in *.
  rewrite make_vertices, make_indices.
  split; [exact Hs |]. split.
  - rewrite length_app, !length_map. lia.
  - apply rebase_valid; rewrite length_map; assumption.
Qed.

Lemma generateArm_enough fuel attachHeight angle armLength :
  0 <= (Cactus.segments (Cactus.m_config c)) < u32_max ->
  (Z.to_nat (Cactus.segments (Cactus.m_config c)) + 1 < fuel)%nat -> (2 < fuel)%nat ->
  returns (Cactus.generateArm fuel c attachHeight angle armLength).
Proof.
  intros Hs Hf H2. unfold Cactus.generateArm. cbv zeta.
  rewrite !createCylinder_enough by assumption. cbn [bind].
  eexists. reflexivity.
Qed.

Lemma generateMesh_structure fuel m :
  is_u32 (Cactus.segments (Cactus.m_config c)) ->
  Cactus.generateMesh fuel c = Done m ->
  exists trunk arms,
    MeshGenerator.createCylinder fuel
      (Cactus.trunkRadius (Cactus.m_config c) * Cactus.m_growthFactor c)%f32
      (Cactus.height (Cactus.m_config c) * Cactus.m_growthFactor c)%f32
      (Cactus.segments (Cactus.m_config c)) (Cactus.color (Cactus.m_config c))
    = Done trunk
    /\ Forall (is_arm c fuel) arms
    /\ Z.of_nat (length arms) = Z.max 0 (Cactus.numArms (Cactus.m_config c))
    /\ (Mesh.vertices m, Mesh.indices m)
       = fold_left append_part arms (trunk_buffers c trunk).
Proof.
  intros Hu Hd. unfold Cactus.generateMesh in Hd. cbv zeta in Hd.
  bind_inv Hd. rename a into trunk. bind_inv Hd. rename a into all.
  injection Hd as <-. rewrite make_vertices, make_indices.
  exists trunk.
  unfold for_int in E0.
  apply (for_loop_invariant _ _ _
           (fun i (all : buffers) =>
              0 <= i <= Z.max 0 (Cactus.numArms (Cactus.m_config c))
              /\ exists arms, Z.of_nat (length arms) = i
                   /\ Forall (is_arm c fuel) arms
                   /\ all = fold_left append_part arms (trunk_buffers c trunk)))
    in E0.
  - destruct E0 as (j & (Hj & arms & Hlen & Harms & Hall) & Hstop).
    apply Z.ltb_ge in Hstop.
    exists arms. split; [first [exact E | reflexivity] |]. split; [exact Harms |].
    split; [lia |].
    rewrite <- Hall. destruct all; reflexivity.
  - intros j s s' Hc (Hj & arms & Hlen & Harms & Hs) Hb.
    apply Z.ltb_lt in Hc.
    bind_inv Hb. rename a into arm. injection Hb as <-.
    split; [lia |].
    exists (arms ++ [arm]). split; [rewrite length_app; simpl; lia |].
    split.
    + apply Forall_app. split; [exact Harms |].
      constructor; [| constructor]. eexists _, _, _. exact E1.
    + rewrite fold_left_app. simpl. rewrite <- Hs. reflexivity.
  - split; [lia |]. exists []. repeat split; constructor.
Qed.

Lemma generateMesh_enough fuel :
  0 <= (Cactus.segments (Cactus.m_config c)) < u32_max ->
  (Z.to_nat (Cactus.segments (Cactus.m_config c)) + 1 < fuel)%nat -> (2 < fuel)%nat ->
  (Z.to_nat (Cactus.numArms (Cactus.m_config c)) < fuel)%nat ->
  returns (Cactus.generateMesh fuel c).
Proof.
  intros Hs Hf H2 Ha. unfold Cactus.generateMesh. cbv zeta.
  rewrite createCylinder_enough by assumption. cbn [bind].
  unfold for_int.
  rewrite (for_loop_enough _ _ _ (Z.to_nat (Cactus.numArms (Cactus.m_config c)))).
  - match goal with
    | |- returns (bind (foldM ?b ?l ?s) _) =>
        destruct (foldM_returns b l s) as [r ->]
    end.
    + intros i s.
      destruct (generateArm_enough fuel
                  (Cactus.height (Cactus.m_config c) * Cactus.m_growthFactor c
                   * Cactus.armHeight (Cactus.m_config c))%f32
                  (F32.of_Z i / F32.of_Z (Cactus.numArms (Cactus.m_config c))
                   * F32.two_pi + F32.pi * F32.dec 25 2)%f32
                  (Cactus.height (Cactus.m_config c) * Cactus.m_growthFactor c
                   * F32.dec 4 1)%f32 Hs Hf H2) as [arm Harm].
      rewrite Harm. cbn [bind]. eexists. reflexivity.
    + cbn [bind]. eexists. reflexivity.
  - exact Ha.
  - intros j Hj. split; [apply Z.ltb_lt; lia | reflexivity].
  - apply Z.ltb_ge. lia.
Qed.

End CactusFacts.

(** ** binary32 facts *)

Lemma div_eucl_shift (m : positive) :
  Z.div_eucl (Z.shiftl (Zpos m) 24) (Zpos m) = (16777216, 0).
Proof.
  rewrite Z.shiftl_mul_pow2 by lia.
  change (2 ^ 24) with 16777216.
  pose proof (Z_div_mod (Z.pos m * 16777216) (Z.pos m) ltac:(lia)) as Hd.
  destruct (Z.div_eucl (Z.pos m * 16777216) (Z.pos m)) as [q r].
  destruct Hd as [Hd Hr].
  assert (q = 16777216) by nia.
  subst q. f_equal. lia.
Qed.

(** The bit patterns of some literals of the program: [0.1f] is 0x3DCCCCCD,
    [9.81f] is 0x411CF5C3, [0.001f] is 0x3A83126F. *)
Lemma literal_encodings :
  F32.dec 1 1 = S754_finite false 13421773 (-27)
  /\ F32.dec 981 2 = S754_finite false 10286531 (-20)
  /\ F32.dec 1 3 = S754_finite false 8589935 (-33)
  /\ F32.dec 6 1 = S754_finite false 10066330 (-24)
  /\ F32.dec 4 1 = S754_finite false 13421773 (-25)
  /\ F32.dec 3 1 = S754_finite false 10066330 (-25)
  /\ F32.dec 25 2 = S754_finite false 8388608 (-25)
  /\ F32.of_Z 4 = S754_finite false 8388608 (-21)
  /\ F32.of_Z 90 = S754_finite false 11796480 (-17)
  /\ F32.one = S754_finite false 8388608 (-23)
  /\ F32.half = S754_finite false 8388608 (-24).
Proof. repeat split. Qed.

(** A finite non-zero number divided by itself is exactly [1.0f]. *)
Lemma div_self s m e : F32.div (S754_finite s m e) (S754_finite s m e) = F32.one.
Proof.
  unfold F32.div, SFdiv, SFdiv_core_binary.
  replace (Zdigits2 (Z.pos m) + e - (Zdigits2 (Z.pos m) + e)) with 0 by lia.
  replace (e - e) with 0 by lia.
  change (Z.min (fexp F32.prec F32.emax 0) 0) with (-24).
  change (0 - -24) with 24.
  cbv beta iota zeta.
  rewrite div_eucl_shift, xorb_nilpotent.
  unfold new_location.
  destruct (Z.even (Z.pos m)); reflexivity.
Qed.

Lemma compare_cont_Eq_eq m1 m2 : Pos.compare_cont Eq m1 m2 = Eq -> m1 = m2.
Proof. apply Pos.compare_eq. Qed.

Lemma eqb_finite_r x s m e :
  F32.eqb x (S754_finite s m e) = true -> x = S754_finite s m e.
Proof.
  unfold F32.eqb, SFeqb, SFcompare.
  destruct x as [sx | sx | | sx mx ex]; try (destruct sx; discriminate);
    try discriminate; try (destruct s; discriminate).
  destruct sx, s; try discriminate;
    destruct (Z.compare ex e) eqn:He; try discriminate;
    apply Z.compare_eq in He; subst ex;
    destruct (Pos.compare_cont Eq mx m) eqn:Hm; try discriminate;
    apply compare_cont_Eq_eq in Hm; subst mx; reflexivity.
Qed.

Lemma gt_zero_finite x :
  (x >? F32.zero)%f32 = true -> F32.is_finite x = true ->
  exists m e, x = S754_finite false m e.
Proof.
  unfold F32.gt, F32.zero, SFltb, SFcompare.
  destruct x as [sx | sx | | sx mx ex]; try discriminate.
  destruct sx; try discriminate. intros _ _. eauto.
Qed.

Lemma eqb_zero x : F32.eqb x F32.zero = true -> exists s, x = S754_zero s.
Proof.
  unfold F32.eqb, F32.zero, SFeqb, SFcompare.
  destruct x as [sx | sx | | sx mx ex]; try (destruct sx; discriminate);
    try discriminate.
  intros _. eauto.
Qed.

Lemma compare_antisym x y :
  SFcompare y x = option_map CompOpp (SFcompare x y).
Proof.
  destruct x as [sx | sx | | sx mx ex], y as [sy | sy | | sy my ey];
    try reflexivity;
    try (destruct sx; reflexivity); try (destruct sy; reflexivity);
    try (destruct sx, sy; reflexivity).
  unfold SFcompare.
  destruct sx, sy; try reflexivity; cbn [option_map];
    rewrite (Z.compare_antisym ey ex);
    destruct (Z.compare ey ex); cbn [CompOpp]; try reflexivity;
    change (Pos.compare_cont Eq mx my) with (Pos.compare_cont (CompOpp Eq) mx my);
    rewrite <- (Pos.compare_cont_antisym my mx Eq);
    destruct (Pos.compare_cont Eq my mx); reflexivity.
Qed.

Lemma compare_not_nan x y :
  F32.is_nan x = false -> F32.is_nan y = false -> SFcompare x y <> None.
Proof.
  destruct x as [sx | sx | | sx mx ex], y as [sy | sy | | sy my ey];
    cbn; try discriminate.
Qed.

(** Between two numbers, [!(x < y)] is [y <= x]. *)
Lemma lt_false_le x y :
  F32.is_nan x = false -> F32.is_nan y = false ->
  (x <? y)%f32 = false -> (y <=? x)%f32 = true.
Proof.
  intros Hx Hy. unfold F32.lt, F32.le, SFltb, SFleb.
  rewrite (compare_antisym x y).
  pose proof (compare_not_nan x y Hx Hy) as Hn.
  destruct (SFcompare x y) as [[ | | ]|]; cbn; congruence.
Qed.

Lemma le_not_nan x y :
  (x <=? y)%f32 = true -> F32.is_nan x = false /\ F32.is_nan y = false.
Proof.
  unfold F32.le, SFleb.
  destruct x as [sx | sx | | sx mx ex], y as [sy | sy | | sy my ey];
    cbn; try discriminate; auto.
Qed.

(** Rounding a non-negative mantissa never gives a NaN. *)

Lemma iter_pos_inv {A : Type} (f : A -> A) (P : A -> Prop) :
  (forall a, P a -> P (f a)) -> forall p a, P a -> P (iter_pos f p a).
Proof.
  intros Hf. induction p as [p IH | p IH |]; intros a Ha; simpl; auto.
Qed.

Lemma shr_1_nonneg mrs : 0 <= shr_m mrs -> 0 <= shr_m (shr_1 mrs).
Proof.
  destruct mrs as [m r s]. simpl.
  destruct m as [|p|p]; [simpl; lia | | lia].
  intros _. destruct p; simpl; lia.
Qed.

Lemma shr_nonneg mrs e n : 0 <= shr_m mrs -> 0 <= shr_m (fst (shr mrs e n)).
Proof.
  intros Hm. unfold shr. destruct n as [|p|p]; simpl; try exact Hm.
  apply (iter_pos_inv shr_1 (fun mrs => 0 <= shr_m mrs)); [apply shr_1_nonneg | exact Hm].
Qed.

Lemma shr_fexp_nonneg m e l :
  0 <= m -> 0 <= shr_m (fst (shr_fexp F32.prec F32.emax m e l)).
Proof.
  intros Hm. unfold shr_fexp. apply shr_nonneg.
  destruct l as [|[ | | ]]; simpl; exact Hm.
Qed.

Lemma round_nearest_even_nonneg m l : 0 <= m -> 0 <= round_nearest_even m l.
Proof.
  intros Hm. unfold round_nearest_even.
  destruct l as [|[ | | ]]; try lia. destruct (Z.even m); lia.
Qed.

Lemma binary_round_aux_not_nan s m e l :
  0 <= m -> F32.is_nan (binary_round_aux F32.prec F32.emax s m e l) = false.
Proof.
  intros Hm. unfold binary_round_aux.
  pose proof (shr_fexp_nonneg m e l Hm) as H1.
  destruct (shr_fexp F32.prec F32.emax m e l) as [mrs' e'].
  cbn [fst] in H1.
  pose proof (shr_fexp_nonneg
                (round_nearest_even (shr_m mrs') (loc_of_shr_record mrs')) e'
                loc_Exact (round_nearest_even_nonneg _ _ H1)) as H2.
  destruct (shr_fexp F32.prec F32.emax
              (round_nearest_even (shr_m mrs') (loc_of_shr_record mrs')) e'
              loc_Exact) as [mrs'' e''].
  cbn [fst] in H2.
  destruct (shr_m mrs'') as [|p|p]; [reflexivity | | lia].
  destruct (e'' <=? F32.emax - F32.prec); reflexivity.
Qed.

Lemma binary_normalize_not_nan m e sz :
  F32.is_nan (binary_normalize F32.prec F32.emax m e sz) = false.
Proof.
  unfold binary_normalize, binary_round.
  destruct m as [|p|p]; [reflexivity | |];
    destruct (shl_align p e (fexp F32.prec F32.emax (Z.pos (digits2_pos p) + e)));
    apply binary_round_aux_not_nan; lia.
Qed.

(** Adding a number to a finite number never gives a NaN. *)
Lemma add_finite_not_nan x y :
  F32.is_finite x = true -> F32.is_nan y = false ->
  F32.is_nan (x + y)%f32 = false.
Proof.
  unfold F32.add, SFadd.
  destruct x as [sx | sx | | sx mx ex]; try discriminate;
    destruct y as [sy | sy | | sy my ey]; try discriminate; intros _ _;
    try reflexivity.
  - destruct sx, sy; reflexivity.
  - apply binary_normalize_not_nan.
Qed.

(** A credit below one stays below one when [0 * dt] is added. *)
Lemma accumulate_zero_rate acc rate dt :
  F32.eqb rate F32.zero = true ->
  (acc >=? F32.one)%f32 = false ->
  (acc + rate * dt >=? F32.one)%f32 = false.
Proof.
  intros Hr Hacc. apply eqb_zero in Hr. destruct Hr as [s ->].
  unfold F32.ge, F32.add, F32.mul in *.
  destruct dt as [sd | sd | | sd md ed]; cbn [SFmul];
    destruct acc as [sa | sa | | sa ma ea]; cbn [SFadd]; try reflexivity;
    try exact Hacc;
    try (destruct sa, (xorb s sd); reflexivity).
Qed.

(* ------------------------------------------------------------------ *)

(** C6, counterexample: with [life == maxLife == +infinity] the guard
    [maxLife > 0] passes, [life / maxLife] is a NaN and so is the age. *)
Lemma getAge_infinite_life_is_nan :
  (Particle.maxLife eternal_particle >? F32.zero)%f32 = true
  /\ F32.eqb (Particle.life eternal_particle) (Particle.maxLife eternal_particle) = true
  /\ Particle.getAge eternal_particle = F32.nan
  /\ Particle.getAge eternal_particle <> F32.zero.
Proof. repeat split; try reflexivity. discriminate. Qed.

(** C6, amended: [getAge] is exactly 1 when [maxLife == 0]; it is exactly 0
    when [maxLife > 0] is finite and [life == maxLife]; and it is
    [1 - life / maxLife] whenever [maxLife > 0]. *)
Theorem getAge_boundary (p : Particle.t) :
  (F32.eqb (Particle.maxLife p) F32.zero = true ->
   Particle.getAge p = F32.one)
  /\ ((Particle.maxLife p >? F32.zero)%f32 = true ->
      F32.is_finite (Particle.maxLife p) = true ->
      F32.eqb (Particle.life p) (Particle.maxLife p) = true ->
      Particle.getAge p = F32.zero)
  /\ ((Particle.maxLife p >? F32.zero)%f32 = true ->
      Particle.getAge p = (F32.one - Particle.life p / Particle.maxLife p)%f32).
Proof.
  unfold Particle.getAge. repeat split.
  - intros Hz. apply eqb_zero in Hz. destruct Hz as [s ->]. reflexivity.
  - intros Hgt Hfin Heq. rewrite Hgt.
    destruct (gt_zero_finite _ Hgt Hfin) as (m & e & Hm).
    rewrite Hm in Heq. apply eqb_finite_r in Heq.
    rewrite Heq, Hm, div_self. reflexivity.
  - intros ->. reflexivity.
Qed.

Lemma getAge_boundary_witness :
  Particle.getAge (sample_particle F32.two F32.zero) = F32.one
  /\ Particle.getAge (sample_particle F32.two F32.two) = F32.zero
  /\ Particle.getAge (sample_particle F32.one F32.two) = F32.half.
Proof.
  split; [| split].
  - apply (getAge_boundary (sample_particle F32.two F32.zero)). reflexivity.
  - apply (getAge_boundary (sample_particle F32.two F32.two)); reflexivity.
  - destruct (getAge_boundary (sample_particle F32.one F32.two)) as (_ & _ & H3).
    rewrite H3; reflexivity.
Defined.

(* ------------------------------------------------------------------ *)

Lemma in_range_finite g : growth_in_range g = true -> F32.is_finite g = true.
Proof.
  unfold growth_in_range. intros Hg. apply andb_prop in Hg. destruct Hg as [Hlo Hhi].
  destruct g as [s | s | | s m e]; try reflexivity.
  - destruct s; [discriminate Hlo | discriminate Hhi].
  - discriminate Hlo.
Qed.

Lemma clamp_in_range v :
  F32.is_nan v = false ->
  growth_in_range (glm.clamp v (F32.dec 1 1) (F32.of_Z 4)) = true.
Proof.
  intros Hv. unfold glm.clamp, glm.max, glm.min.
  destruct (v <? F32.dec 1 1)%f32 eqn:Hlo.
  - reflexivity.
  - apply lt_false_le in Hlo; [| exact Hv | reflexivity].
    destruct (F32.of_Z 4 <? v)%f32 eqn:Hhi.
    + reflexivity.
    + apply lt_false_le in Hhi; [| reflexivity | exact Hv].
      unfold growth_in_range. now rewrite Hlo, Hhi.
Qed.

Lemma grow_in_range amount c :
  growth_in_range (Cactus.getGrowthFactor c) = true ->
  F32.is_nan amount = false ->
  growth_in_range (Cactus.getGrowthFactor (Cactus.grow amount c)) = true.
Proof.
  intros Hc Ha. unfold Cactus.grow, Cactus.getGrowthFactor, Cactus.setGrowthFactor.
  cbn [Cactus.m_growthFactor].
  apply clamp_in_range. apply add_finite_not_nan; [| exact Ha].
  apply in_range_finite. exact Hc.
Qed.

(** C7, counterexample: one [grow] with a NaN amount leaves a NaN growth
    factor, which is in no interval. *)
Lemma grow_nan_leaves_range :
  Cactus.getGrowthFactor (Cactus.create Cactus.default_config) = F32.one
  /\ Cactus.getGrowthFactor
       (grow_all [F32.nan] (Cactus.create Cactus.default_config)) = F32.nan
  /\ growth_in_range
       (Cactus.getGrowthFactor
          (grow_all [F32.nan] (Cactus.create Cactus.default_config))) = false.
Proof. repeat split. Qed.

(** C7, amended: from a freshly constructed cactus, after any sequence of
    [grow(x)] calls whose amounts are not NaN the growth factor is in
    [0.1, 4.0]; each [grow(x)] sets it to [clamp(previous + x, 0.1, 4.0)] and
    changes nothing else. *)
Theorem grow_clamps (config : Cactus.Config) (amounts : list float) :
  Forall (fun x => F32.is_nan x = false) amounts ->
  growth_in_range
    (Cactus.getGrowthFactor (grow_all amounts (Cactus.create config))) = true
  /\ Cactus.getConfig (grow_all amounts (Cactus.create config)) = config
  /\ Cactus.isBurning (grow_all amounts (Cactus.create config)) = false
  /\ forall (c : Cactus.t) (x : float),
       Cactus.grow x c
       = Cactus.mk (Cactus.m_config c)
           (glm.clamp (Cactus.m_growthFactor c + x)%f32 (F32.dec 1 1) (F32.of_Z 4))
           (Cactus.m_isBurning c).
Proof.
  intros Ha.
  assert (Hgen : forall c,
             growth_in_range (Cactus.getGrowthFactor c) = true ->
             growth_in_range (Cactus.getGrowthFactor (grow_all amounts c)) = true
             /\ Cactus.getConfig (grow_all amounts c) = Cactus.getConfig c
             /\ Cactus.isBurning (grow_all amounts c) = Cactus.isBurning c).
  { induction Ha as [|x amounts Hx Ha IH]; intros c Hc.
    - auto.
    - unfold grow_all in *. cbn [fold_left].
      destruct (IH (Cactus.grow x c)) as (H1 & H2 & H3).
      + apply grow_in_range; assumption.
      + auto. }
  destruct (Hgen (Cactus.create config)) as (H1 & H2 & H3); [reflexivity |].
  repeat split; assumption.
Qed.

Lemma grow_clamps_witness :
  growth_in_range
    (Cactus.getGrowthFactor
       (grow_all [F32.of_Z 7; F32.opp (F32.of_Z 100); F32.infinity]
          (Cactus.create Cactus.default_config))) = true.
Proof.
  apply (grow_clamps Cactus.default_config
           [F32.of_Z 7; F32.opp (F32.of_Z 100); F32.infinity]).
  repeat constructor.
Defined.

(* ------------------------------------------------------------------ *)

(** C9: [setGrowthFactor] stores any factor unclamped and touches nothing
    else; a factor outside [0.1, 4.0] can be stored; and the trunk that a
    later [generateMesh] builds is the cylinder of radius [trunkRadius * f]
    and height [height * f], moved up by half that height. *)
Theorem setGrowthFactor_is_unclamped
    (L : Libm) (G : GlmOps) (c : Cactus.t) (f : float) :
  let c' := Cactus.setGrowthFactor f c in
  Cactus.getGrowthFactor c' = f
  /\ Cactus.getConfig c' = Cactus.getConfig c
  /\ Cactus.isBurning c' = Cactus.isBurning c
  /\ growth_in_range
       (Cactus.getGrowthFactor (Cactus.setGrowthFactor (F32.of_Z 10) c)) = false
  /\ growth_in_range
       (Cactus.getGrowthFactor
          (Cactus.grow F32.zero (Cactus.setGrowthFactor (F32.of_Z 10) c))) = true
  /\ (is_u32 (Cactus.segments (Cactus.m_config c)) ->
      forall fuel m,
        Cactus.generateMesh fuel c' = Done m ->
        exists trunk,
          MeshGenerator.createCylinder fuel
            (Cactus.trunkRadius (Cactus.m_config c) * f)%f32
            (Cactus.height (Cactus.m_config c) * f)%f32
            (Cactus.segments (Cactus.m_config c))
            (Cactus.color (Cactus.m_config c)) = Done trunk
          /\ firstn (length (Mesh.vertices trunk)) (Mesh.vertices m)
             = map (Cactus.place_trunk (Cactus.height (Cactus.m_config c) * f)%f32
                      (Cactus.position (Cactus.m_config c)))
                 (Mesh.vertices trunk)).
Proof.
  intros c'. repeat split.
  intros Hu fuel m Hd.
  destruct (generateMesh_structure c' fuel m Hu Hd)
    as (trunk & arms & Ht & _ & _ & Hm).
  exists trunk. split; [exact Ht |].
  assert (Hfst : forall parts all,
             fst (fold_left append_part parts all)
             = fst all ++ flat_map Mesh.vertices parts).
  { induction parts as [|p parts IH]; intros all; simpl.
    - now rewrite app_nil_r.
    - rewrite IH. unfold append_part. cbn [fst]. now rewrite <- app_assoc. }
  apply (f_equal fst) in Hm. cbn [fst] in Hm. rewrite Hfst in Hm.
  rewrite Hm. unfold trunk_buffers. cbn [fst].
  rewrite <- (length_map (Cactus.place_trunk
                            (Cactus.height (Cactus.m_config c')
                             * Cactus.m_growthFactor c')%f32
                            (Cactus.position (Cactus.m_config c')))).
  rewrite firstn_app, firstn_all, Nat.sub_diag, firstn_O, app_nil_r.
  reflexivity.
Qed.

Lemma setGrowthFactor_is_unclamped_witness :
  exists m trunk,
    @Cactus.generateMesh identity_libm identity_glm 6
      (Cactus.setGrowthFactor (F32.of_Z 10) small_cactus) = Done m
    /\ @MeshGenerator.createCylinder identity_libm 6 (F32.of_Z 5) (F32.of_Z 50) 3
         (glm.splat3 F32.one) = Done trunk
    /\ firstn (length (Mesh.vertices trunk)) (Mesh.vertices m)
       = map (Cactus.place_trunk (F32.of_Z 50) (glm.splat3 F32.zero))
           (Mesh.vertices trunk).
Proof.
  destruct (setGrowthFactor_is_unclamped identity_libm identity_glm small_cactus
              (F32.of_Z 10)) as (_ & _ & _ & _ & _ & Hmesh).
  assert (Hu : is_u32 (Cactus.segments (Cactus.m_config small_cactus)))
    by (unfold is_u32, u32_modulus; simpl; lia).
  destruct (@Cactus.generateMesh identity_libm identity_glm 6
              (Cactus.setGrowthFactor (F32.of_Z 10) small_cactus)) as [m | |e] eqn:Hm;
    [| vm_compute in Hm; discriminate | vm_compute in Hm; discriminate].
  destruct (Hmesh Hu 6%nat m Hm) as (trunk & Ht & Hfirst).
  exists m, trunk. split; [reflexivity |]. split; [| exact Hfirst].
  rewrite <- Ht. vm_compute. reflexivity.
Defined.

(* ------------------------------------------------------------------ *)
(** ** The pool *)

Lemma count_alive_filter ps :
  PS.count_alive ps = Z.of_nat (length (filter Particle.isAlive ps)).
Proof.
  unfold PS.count_alive.
  assert (Hgen : forall a,
             fold_left (fun count p => if Particle.isAlive p then count + 1 else count)
               ps a
             = a + Z.of_nat (length (filter Particle.isAlive ps))).
  { induction ps as [|p ps IH]; intros a; simpl; [lia |].
    rewrite IH. destruct (Particle.isAlive p); simpl; lia. }
  rewrite Hgen. lia.
Qed.

Lemma count_alive_le_length ps : PS.count_alive ps <= Z.of_nat (length ps).
Proof.
  rewrite count_alive_filter. apply inj_le. apply filter_length_le.
Qed.

Lemma count_alive_zero_dead ps :
  PS.count_alive ps = 0 -> Forall (fun p => Particle.isAlive p = false) ps.
Proof.
  rewrite count_alive_filter. induction ps as [|p ps IH]; simpl; intros Hc.
  - constructor.
  - destruct (Particle.isAlive p) eqn:Hp; simpl in Hc; [lia |].
    constructor; [exact Hp | apply IH; exact Hc].
Qed.

Lemma integrate_dead cfg dt p :
  Particle.isAlive p = false -> PS.integrate cfg dt p = p.
Proof. intros Hp. unfold PS.integrate. now rewrite Hp. Qed.

Lemma map_integrate_dead cfg dt ps :
  Forall (fun p => Particle.isAlive p = false) ps ->
  map (PS.integrate cfg dt) ps = ps.
Proof.
  induction 1 as [|p ps Hp _ IH]; simpl; [reflexivity |].
  now rewrite integrate_dead, IH.
Qed.

Lemma integrate_alive_count cfg dt ps :
  PS.count_alive (map (PS.integrate cfg dt) ps) <= PS.count_alive ps.
Proof.
  rewrite !count_alive_filter. apply inj_le.
  induction ps as [|p ps IH]; simpl; [lia |].
  destruct (Particle.isAlive p) eqn:Hp.
  - destruct (Particle.isAlive (PS.integrate cfg dt p)); simpl; lia.
  - rewrite (integrate_dead cfg dt p Hp), Hp. exact IH.
Qed.

Section PoolFacts.
Variable R : Type.
Variable dist : R -> float * R.
Context {order : PS.EvaluationOrder}.

Lemma emit_scan_length cfg ps g :
  length (fst (PS.emit_scan R dist cfg ps g)) = length ps.
Proof.
  induction ps as [|p ps IH]; simpl; [reflexivity |].
  destruct (Particle.isAlive p).
  - destruct (PS.emit_scan R dist cfg ps g) as [rest' g']. simpl in *. now rewrite IH.
  - destruct (PS.respawn R dist cfg p g). reflexivity.
Qed.

Lemma emit_scan_full cfg ps g :
  Forall (fun p => Particle.isAlive p = true) ps ->
  PS.emit_scan R dist cfg ps g = (ps, g).
Proof.
  induction 1 as [|p ps Hp _ IH]; simpl; [reflexivity |].
  now rewrite Hp, IH.
Qed.

Lemma emit_scan_kept cfg ps g :
  Forall2 kept_or_recycled ps (fst (PS.emit_scan R dist cfg ps g)).
Proof.
  induction ps as [|p ps IH]; simpl; [constructor |].
  destruct (Particle.isAlive p) eqn:Hp.
  - destruct (PS.emit_scan R dist cfg ps g) as [rest' g']. simpl in *.
    constructor; [left; reflexivity | exact IH].
  - destruct (PS.respawn R dist cfg p g) as [p' g']. simpl.
    constructor; [right; exact Hp |].
    clear. induction ps; constructor; [left; reflexivity | assumption].
Qed.

Lemma kept_trans ps qs rs :
  Forall2 kept_or_recycled ps qs -> Forall2 kept_or_recycled qs rs ->
  Forall2 kept_or_recycled ps rs.
Proof.
  intros H1. revert rs. induction H1 as [|p q ps qs Hpq _ IH]; intros rs H2.
  - inversion H2. constructor.
  - inversion H2 as [|q' r qs' rs' Hqr Hrest]; subst.
    constructor; [| apply IH; exact Hrest].
    destruct Hpq as [-> | Hd]; [exact Hqr | right; exact Hd].
Qed.

Lemma kept_refl ps : Forall2 kept_or_recycled ps ps.
Proof. induction ps; constructor; [left; reflexivity | assumption]. Qed.

(** What [emitParticle] leaves alone. *)
Lemma emitParticle_frame (st : PS.t R) :
  let st' := PS.emitParticle dist st in
  PS.config st' = PS.config st /\ PS.active st' = PS.active st
  /\ PS.emissionAccumulator st' = PS.emissionAccumulator st
  /\ PS.systemTime st' = PS.systemTime st
  /\ PS.vertices st' = PS.vertices st /\ PS.indices st' = PS.indices st
  /\ length (PS.particles st') = length (PS.particles st)
  /\ Forall2 kept_or_recycled (PS.particles st) (PS.particles st').
Proof.
  unfold PS.emitParticle.
  pose proof (emit_scan_length (PS.config st) (PS.particles st) (PS.rng st)) as Hl.
  pose proof (emit_scan_kept (PS.config st) (PS.particles st) (PS.rng st)) as Hk.
  destruct (PS.emit_scan R dist (PS.config st) (PS.particles st) (PS.rng st))
    as [ps g].
  simpl in *. repeat split; assumption.
Qed.

Lemma emitParticle_full (st : PS.t R) :
  Forall (fun p => Particle.isAlive p = true) (PS.particles st) ->
  PS.emitParticle dist st = st.
Proof.
  intros Hfull. unfold PS.emitParticle.
  rewrite emit_scan_full by exact Hfull. destruct st. reflexivity.
Qed.

Lemma emit_loop_frame fuel : forall (st st' : PS.t R),
  PS.emit_loop dist fuel st = Done st' ->
  PS.config st' = PS.config st /\ PS.active st' = PS.active st
  /\ PS.systemTime st' = PS.systemTime st
  /\ length (PS.particles st') = length (PS.particles st)
  /\ Forall2 kept_or_recycled (PS.particles st) (PS.particles st')
  /\ (PS.emissionAccumulator st' >=? F32.one)%f32 = false.
Proof.
  induction fuel as [|fuel IH]; intros st st' Hd; simpl in Hd; [discriminate |].
  destruct (PS.emissionAccumulator st >=? F32.one)%f32 eqn:Hacc.
  - apply IH in Hd. cbn in Hd.
    destruct (emitParticle_frame st) as (Hc & Ha & _ & Ht & _ & _ & Hl & Hk).
    destruct Hd as (Hc' & Ha' & Ht' & Hl' & Hk' & Hacc').
    repeat split; try congruence.
    eapply kept_trans; eassumption.
  - injection Hd as <-. repeat split; try assumption. apply kept_refl.
Qed.

Lemma emit_loop_no_throw fuel : forall (st : PS.t R) e,
  PS.emit_loop dist fuel st <> Thrown e.
Proof.
  induction fuel as [|fuel IH]; intros st e; simpl; [discriminate |].
  destruct (PS.emissionAccumulator st >=? F32.one)%f32; [apply IH | discriminate].
Qed.

Lemma update_unfold fuel dt (st : PS.t R) :
  PS.update dist fuel dt st
  = if idle st then Done st
    else st2 <- emission dist fuel dt (after_clock dt st) ;;
         Done (PS.set_particles
                 (map (PS.integrate (PS.config st2) dt) (PS.particles st2)) st2).
Proof. reflexivity. Qed.

Lemma after_clock_frame dt (st : PS.t R) :
  PS.config (after_clock dt st) = PS.config st
  /\ PS.particles (after_clock dt st) = PS.particles st
  /\ PS.emissionAccumulator (after_clock dt st) = PS.emissionAccumulator st.
Proof.
  unfold after_clock. cbv zeta.
  match goal with |- context [if ?b then _ else _] => destruct b end;
    repeat split.
Qed.

Lemma emission_frame fuel dt (st st' : PS.t R) :
  emission dist fuel dt st = Done st' ->
  PS.config st' = PS.config st
  /\ length (PS.particles st') = length (PS.particles st)
  /\ Forall2 kept_or_recycled (PS.particles st) (PS.particles st')
  /\ ((PS.emissionAccumulator st >=? F32.one)%f32 = false ->
      (PS.emissionAccumulator st' >=? F32.one)%f32 = false).
Proof.
  unfold emission. destruct (PS.active st).
  - intros Hd. apply emit_loop_frame in Hd. cbn in Hd.
    destruct Hd as (Hc & _ & _ & Hl & Hk & Hacc). repeat split; auto.
  - intros Hd. injection Hd as <-. repeat split; auto. apply kept_refl.
Qed.

(** What every returning [update] keeps. *)
Lemma update_frame fuel dt (st st' : PS.t R) :
  PS.update dist fuel dt st = Done st' ->
  PS.config st' = PS.config st
  /\ length (PS.particles st') = length (PS.particles st)
  /\ ((PS.emissionAccumulator st >=? F32.one)%f32 = false ->
      (PS.emissionAccumulator st' >=? F32.one)%f32 = false).
Proof.
  rewrite update_unfold. destruct (idle st).
  - intros Hd. injection Hd as <-. auto.
  - intros Hd. bind_inv Hd. injection Hd as <-.
    apply emission_frame in E. destruct E as (Hc & Hl & _ & Hacc).
    destruct (after_clock_frame dt st) as (Hc0 & Hp0 & Ha0).
    cbn. rewrite length_map. repeat split; try congruence.
    intros H0. apply Hacc. congruence.
Qed.

Lemma init_frame cfg (st st' : PS.t R) :
  PS.init cfg st = Done st' ->
  0 <= PS.maxParticles cfg
  /\ PS.config st' = cfg
  /\ Z.of_nat (length (PS.particles st')) = PS.maxParticles cfg
  /\ Forall (fun p => Particle.isAlive p = false) (PS.particles st')
  /\ PS.active st' = true
  /\ PS.systemTime st' = F32.zero
  /\ PS.emissionAccumulator st' = PS.emissionAccumulator st
  /\ PS.rng st' = PS.rng st.
Proof.
  unfold PS.init. cbn.
  destruct (PS.maxParticles cfg <? 0) eqn:Hneg; [discriminate |].
  destruct (PS.reserve_ok (PS.maxParticles cfg * 4)); [| discriminate].
  destruct (PS.reserve_ok (PS.maxParticles cfg * 6)); [| discriminate].
  cbn. intros Hd. injection Hd as <-. cbn.
  apply Z.ltb_ge in Hneg.
  repeat split; try assumption.
  - rewrite length_map. unfold PS.resize.
    rewrite length_app, length_firstn, repeat_length. lia.
  - apply Forall_map. apply Forall_forall. intros p _. reflexivity.
Qed.

Lemma init_preset_frame type pos (st st' : PS.t R) :
  PS.init_preset type pos st = Done st' ->
  PS.config st' = PS.set_position pos (PS.getPreset type)
  /\ Z.of_nat (length (PS.particles st')) = PS.maxParticles (PS.getPreset type)
  /\ Forall (fun p => Particle.isAlive p = false) (PS.particles st')
  /\ PS.active st' = true
  /\ PS.systemTime st' = F32.zero
  /\ PS.emissionAccumulator st' = PS.emissionAccumulator st.
Proof.
  unfold PS.init_preset. cbn.
  destruct (PS.maxParticles (PS.getPreset type) <? 0) eqn:Hneg; [discriminate |].
  destruct (PS.reserve_ok (PS.maxParticles (PS.getPreset type) * 4)); [| discriminate].
  destruct (PS.reserve_ok (PS.maxParticles (PS.getPreset type) * 6)); [| discriminate].
  cbn. intros Hd. injection Hd as <-. cbn.
  apply Z.ltb_ge in Hneg.
  repeat split; try assumption.
  - rewrite length_map. unfold PS.resize.
    rewrite length_app, length_firstn, repeat_length. lia.
  - apply Forall_map. apply Forall_forall. intros p _. reflexivity.
Qed.

(** Between calls the emission credit is never one or more. *)
Lemma reachable_credit (st : PS.t R) :
  reachable dist st -> (PS.emissionAccumulator st >=? F32.one)%f32 = false.
Proof.
  induction 1 as [seed | cfg st st' _ IH Hi | type pos st st' _ IH Hi
                 | fuel dt st st' _ IH Hu | st _ IH | st _ IH | pos st _ IH
                 | cr cu st _ IH].
  - reflexivity.
  - apply init_frame in Hi. destruct Hi as (_ & _ & _ & _ & _ & _ & -> & _). exact IH.
  - apply init_preset_frame in Hi. destruct Hi as (_ & _ & _ & _ & _ & ->). exact IH.
  - apply update_frame in Hu. apply Hu. exact IH.
  - exact IH.
  - exact IH.
  - exact IH.
  - unfold PS.generateVertices.
    destruct (PS.generate_loop cr cu (PS.particles st) 0 [] []). exact IH.
Qed.

Lemma exec_frame c (st st' : PS.t R) :
  exec dist c st = Done st' ->
  PS.config st' = PS.config st
  /\ length (PS.particles st') = length (PS.particles st)
  /\ ((PS.emissionAccumulator st >=? F32.one)%f32 = false ->
      (PS.emissionAccumulator st' >=? F32.one)%f32 = false).
Proof.
  destruct c as [fuel dt | |]; simpl.
  - apply update_frame.
  - intros Hd. injection Hd as <-. auto.
  - intros Hd. injection Hd as <-. auto.
Qed.

Lemma run_frame cs : forall (st st' : PS.t R),
  run dist cs st = Done st' ->
  PS.config st' = PS.config st
  /\ length (PS.particles st') = length (PS.particles st)
  /\ ((PS.emissionAccumulator st >=? F32.one)%f32 = false ->
      (PS.emissionAccumulator st' >=? F32.one)%f32 = false).
Proof.
  induction cs as [|c cs IH]; intros st st' Hd; simpl in Hd.
  - injection Hd as <-. auto.
  - bind_inv Hd. apply exec_frame in E. apply IH in Hd.
    destruct E as (Hc & Hl & Ha). destruct Hd as (Hc' & Hl' & Ha').
    repeat split; try congruence. auto.
Qed.

(** With a zero rate and no whole credit, [update] emits nothing. *)
Lemma update_zero_rate fuel dt (st : PS.t R) :
  F32.eqb (PS.emissionRate (PS.config st)) F32.zero = true ->
  (PS.emissionAccumulator st >=? F32.one)%f32 = false ->
  (PS.update dist (S fuel) dt st = Done st
   \/ exists st2, PS.update dist (S fuel) dt st
                = Done (PS.set_particles
                          (map (PS.integrate (PS.config st) dt) (PS.particles st)) st2))
  /\ forall st', PS.update dist (S fuel) dt st = Done st' ->
                 PS.getAliveCount st' <= PS.getAliveCount st.
Proof.
  intros Hrate Hacc. rewrite update_unfold.
  destruct (idle st).
  { split; [left; reflexivity | intros st' Hd; injection Hd as <-; lia]. }
  destruct (after_clock_frame dt st) as (Hc0 & Hp0 & Ha0).
  assert (He : exists st2, emission dist (S fuel) dt (after_clock dt st) = Done st2
                           /\ PS.config st2 = PS.config st
                           /\ PS.particles st2 = PS.particles st).
  { unfold emission. destruct (PS.active (after_clock dt st)).
    - cbn [PS.emit_loop].
      cbn [PS.emissionAccumulator PS.set_emissionAccumulator].
      rewrite Hc0, Ha0, (accumulate_zero_rate _ _ dt Hrate Hacc).
      eexists. split; [reflexivity |]. cbn. split; assumption.
    - eexists. split; [reflexivity |]. split; assumption. }
  destruct He as (st2 & -> & Hc2 & Hp2). cbn [bind].
  rewrite Hc2, Hp2. split.
  - right. exists st2. reflexivity.
  - intros st' Hd. injection Hd as <-. unfold PS.getAliveCount. cbn.
    apply integrate_alive_count.
Qed.
End PoolFacts.

(* ------------------------------------------------------------------ *)

Section ZeroRate.
Variable R : Type.
Variable dist : R -> float * R.
Context {order : PS.EvaluationOrder}.

Lemma emission_zero_rate fuel dt (st st2 : PS.t R) :
  F32.eqb (PS.emissionRate (PS.config st)) F32.zero = true ->
  (PS.emissionAccumulator st >=? F32.one)%f32 = false ->
  emission dist fuel dt st = Done st2 ->
  PS.config st2 = PS.config st /\ PS.particles st2 = PS.particles st.
Proof.
  intros Hrate Hacc. unfold emission. destruct (PS.active st).
  - destruct fuel as [|fuel]; [discriminate |].
    cbn [PS.emit_loop PS.emissionAccumulator PS.set_emissionAccumulator].
    rewrite (accumulate_zero_rate _ _ dt Hrate Hacc).
    intros Hd. injection Hd as <-. split; reflexivity.
  - intros Hd. injection Hd as <-. split; reflexivity.
Qed.

Lemma update_zero_rate_monotone fuel dt (st st' : PS.t R) :
  F32.eqb (PS.emissionRate (PS.config st)) F32.zero = true ->
  (PS.emissionAccumulator st >=? F32.one)%f32 = false ->
  PS.update dist fuel dt st = Done st' ->
  PS.getAliveCount st' <= PS.getAliveCount st.
Proof.
  intros Hrate Hacc. rewrite update_unfold. destruct (idle st).
  - intros Hd. injection Hd as <-. lia.
  - intros Hd. bind_inv Hd. injection Hd as <-.
    destruct (after_clock_frame R dt st) as (Hc0 & Hp0 & Ha0).
    apply emission_zero_rate in E; [| congruence | congruence].
    destruct E as (Hc & Hp). unfold PS.getAliveCount. cbn.
    rewrite Hp, Hp0. apply integrate_alive_count.
Qed.

Lemma update_zero_rate_returns fuel dt (st : PS.t R) :
  F32.eqb (PS.emissionRate (PS.config st)) F32.zero = true ->
  (PS.emissionAccumulator st >=? F32.one)%f32 = false ->
  returns (PS.update dist (S fuel) dt st).
Proof.
  intros Hrate Hacc.
  destruct (update_zero_rate R dist fuel dt st Hrate Hacc) as [[Hd | [st2 Hd]] _];
    rewrite Hd; eexists; reflexivity.
Qed.
End ZeroRate.

(** The emission loop need not end: at a credit of 16777220 the float
    subtraction [credit - 1.0f] rounds back to the credit. *)
Lemma emit_loop_stuck (R : Type) (dist : R -> float * R)
    (order : PS.EvaluationOrder) fuel :
  forall (st st' : PS.t R),
    PS.emissionAccumulator st = F32.of_Z 16777220 ->
    PS.emit_loop dist fuel st <> Done st'.
Proof.
  induction fuel as [|fuel IH]; intros st st' Hacc; cbn [PS.emit_loop].
  - discriminate.
  - rewrite Hacc.
    change (F32.of_Z 16777220 >=? F32.one)%f32 with true. cbv iota.
    apply IH. cbn [PS.emissionAccumulator PS.set_emissionAccumulator].
    destruct (emitParticle_frame R dist st) as (_ & _ & Ha & _).
    rewrite Ha, Hacc. reflexivity.
Qed.

Lemma update_may_not_return (R : Type) (dist : R -> float * R)
    (order : PS.EvaluationOrder) fuel
    (st st' : PS.t R) :
  PS.active st = true -> PS.looping (PS.config st) = true ->
  PS.emissionAccumulator st = F32.zero ->
  PS.emissionRate (PS.config st) = F32.one ->
  PS.update dist fuel (F32.of_Z 16777220) st <> Done st'.
Proof.
  intros Hactive Hloop Hacc Hrate Hd.
  rewrite update_unfold in Hd. unfold idle in Hd. rewrite Hactive in Hd.
  cbn [negb andb] in Hd.
  unfold after_clock, emission in Hd. cbv zeta in Hd.
  cbn [PS.config PS.set_systemTime PS.systemTime PS.active PS.set_active
       PS.emissionAccumulator] in Hd.
  rewrite Hloop in Hd. cbn [negb andb] in Hd.
  cbn [PS.config PS.set_systemTime PS.systemTime PS.active PS.set_active
       PS.emissionAccumulator] in Hd.
  rewrite Hactive, Hacc, Hrate in Hd.
  bind_inv Hd. revert E. apply emit_loop_stuck. reflexivity.
Qed.

(** C1: after [init] with capacity [N] and any sequence of [update], [start]
    and [stop] calls, at most [N] particles are alive; and with
    [emissionRate == 0] every further [update] returns (one unit of fuel is
    enough) and leaves the alive count no larger than it found it. *)
Theorem pool_conservation
    (R : Type) (dist : R -> float * R)
    (order : PS.EvaluationOrder) (cfg : PS.EmitterConfig)
    (st0 st1 st2 : PS.t R) (calls : list call) :
  reachable dist st0 ->
  PS.init cfg st0 = Done st1 ->
  run dist calls st1 = Done st2 ->
  PS.getAliveCount st2 <= PS.maxParticles cfg
  /\ (F32.eqb (PS.emissionRate cfg) F32.zero = true ->
      forall dt,
        (forall fuel, returns (PS.update dist (S fuel) dt st2))
        /\ (forall fuel st3,
              PS.update dist fuel dt st2 = Done st3 ->
              PS.getAliveCount st3 <= PS.getAliveCount st2)).
Proof.
  intros Hreach Hinit Hrun.
  pose proof (reachable_credit R dist st0 Hreach) as Hacc0.
  apply init_frame in Hinit.
  destruct Hinit as (Hn & Hc1 & Hl1 & _ & _ & _ & Ha1 & _).
  apply run_frame in Hrun. destruct Hrun as (Hc2 & Hl2 & Ha2).
  assert (Hacc2 : (PS.emissionAccumulator st2 >=? F32.one)%f32 = false)
    by (apply Ha2; congruence).
  split.
  - unfold PS.getAliveCount.
    pose proof (count_alive_le_length (PS.particles st2)). lia.
  - intros Hrate dt.
    assert (Hrate2 : F32.eqb (PS.emissionRate (PS.config st2)) F32.zero = true)
      by congruence.
    split.
    + intros fuel. apply update_zero_rate_returns; assumption.
    + intros fuel st3. apply update_zero_rate_monotone; assumption.
Qed.

Lemma pool_conservation_witness :
  exists st1 st2,
    PS.init (demo_config 2 F32.zero) (PS.create tt) = Done st1
    /\ run (order := right_to_left) steady_rng [Update 3 F32.tenth; Stop; Start; Update 3 F32.one] st1 = Done st2
    /\ PS.getAliveCount st2 <= 2
    /\ returns (PS.update (order := right_to_left) steady_rng 1 F32.tenth st2).
Proof.
  destruct (PS.init (demo_config 2 F32.zero) (PS.create tt)) as [st1 | |e] eqn:Hi;
    [| vm_compute in Hi; discriminate | vm_compute in Hi; discriminate].
  destruct (run (order := right_to_left) steady_rng [Update 3 F32.tenth; Stop; Start; Update 3 F32.one] st1)
    as [st2 | |e] eqn:Hr;
    [| vm_compute in Hi; injection Hi as <-; vm_compute in Hr; discriminate
     | vm_compute in Hi; injection Hi as <-; vm_compute in Hr; discriminate].
  exists st1, st2.
  destruct (pool_conservation unit steady_rng right_to_left (demo_config 2 F32.zero)
              (PS.create tt) st1 st2 _ (reach_create unit steady_rng (order := right_to_left) tt) Hi Hr)
    as [Hle Hzero].
  split; [reflexivity |]. split; [exact Hr |]. split; [exact Hle |].
  apply (Hzero eq_refl F32.tenth).
Defined.

(* ------------------------------------------------------------------ *)

(** C2: the pool that [update(dt)] returns is the pool at the start of the
    per-particle loop (the system's own pool on the early return, else the pool
    the emission step left) with [integrate] applied to every slot. On a slot
    alive at that point: the velocity becomes
    [(velocity + gravity*dt) * (1 - drag*dt)], the position advances by the new
    velocity times [dt], the life drops by [dt], and color and size are the
    mixes at the age recomputed from the new life. A dead slot is left as it
    is. *)
Theorem update_integrates_alive
    (R : Type) (dist : R -> float * R)
    (order : PS.EvaluationOrder) (fuel : nat) (dt : float)
    (st st' : PS.t R) :
  PS.update dist fuel dt st = Done st' ->
  (exists at_loop,
     (if idle st then at_loop = st
      else emission dist fuel dt (after_clock dt st) = Done at_loop)
     /\ Forall2 kept_or_recycled (PS.particles st) (PS.particles at_loop)
     /\ PS.particles st'
        = map (PS.integrate (PS.config st) dt) (PS.particles at_loop))
  /\ (forall cfg p,
        (Particle.isAlive p = false -> PS.integrate cfg dt p = p)
        /\ (Particle.isAlive p = true ->
            let velocity' :=
              (Particle.velocity p +v PS.gravity cfg *v dt)
              *v (F32.one - PS.drag cfg * dt)%f32 in
            let age := age_after dt p in
            PS.integrate cfg dt p
            = Particle.mk
                (Particle.position p +v velocity' *v dt)
                velocity'
                (glm.mix4 (PS.startColor cfg) (PS.endColor cfg) age)
                (Particle.life p - dt)%f32
                (Particle.maxLife p)
                (glm.mix (PS.startSize cfg) (PS.endSize cfg) age))).
Proof.
  intros Hd. split.
  - rewrite update_unfold in Hd. destruct (idle st) eqn:Hidle.
    + injection Hd as <-. exists st.
      split; [reflexivity |]. split; [apply kept_refl |].
      unfold idle in Hidle. apply andb_prop in Hidle. destruct Hidle as [_ Hz].
      apply Z.eqb_eq in Hz. symmetry. apply map_integrate_dead.
      apply count_alive_zero_dead. exact Hz.
    + bind_inv Hd. injection Hd as <-.
      pose proof E as Hemit.
      apply emission_frame in E. destruct E as (Hc & _ & Hk & _).
      destruct (after_clock_frame R dt st) as (Hc0 & Hp0 & _).
      exists a. split; [reflexivity |]. split; [rewrite <- Hp0; exact Hk |].
      cbn. congruence.
  - intros cfg p. split.
    + apply integrate_dead.
    + intros Hp. unfold PS.integrate, age_after, Particle.getAge.
      rewrite Hp. reflexivity.
Qed.

Lemma update_integrates_alive_witness :
  exists (st1 st2 at_loop : PS.t unit),
    PS.init (demo_config 2 (F32.of_Z 10)) (PS.create tt) = Done st1
    /\ PS.update (order := right_to_left) steady_rng 3 F32.tenth st1 = Done st2
    /\ PS.particles st2
       = map (PS.integrate (demo_config 2 (F32.of_Z 10)) F32.tenth)
           (PS.particles at_loop)
    /\ PS.getAliveCount at_loop = 1
    /\ PS.getAliveCount st2 = 1.
Proof.
  destruct (PS.init (demo_config 2 (F32.of_Z 10)) (PS.create tt)) as [st1 | |e] eqn:Hi;
    [| vm_compute in Hi; discriminate | vm_compute in Hi; discriminate].
  destruct (PS.update (order := right_to_left) steady_rng 3 F32.tenth st1) as [st2 | |e] eqn:Hu;
    [| vm_compute in Hi; injection Hi as <-; vm_compute in Hu; discriminate
     | vm_compute in Hi; injection Hi as <-; vm_compute in Hu; discriminate].
  destruct (update_integrates_alive unit steady_rng right_to_left 3 F32.tenth st1 st2 Hu)
    as [(at_loop & Hemit & _ & Hpool) _].
  exists st1, st2, at_loop.
  split; [reflexivity |]. split; [exact Hu |].
  vm_compute in Hi. injection Hi as <-.
  split; [rewrite Hpool; reflexivity |]. split.
  - vm_compute in Hemit. injection Hemit as <-. reflexivity.
  - vm_compute in Hu. injection Hu as <-. reflexivity.
Defined.

(* ------------------------------------------------------------------ *)

Lemma flat_map_agree {A B : Type} (f g : A -> list B) l :
  (forall a, In a l -> f a = g a) -> flat_map f l = flat_map g l.
Proof.
  induction l as [|a l IH]; intros Hfg; cbn [flat_map]; [reflexivity |].
  rewrite (Hfg a), IH; [reflexivity | | left; reflexivity].
  intros b Hb. apply Hfg. right. exact Hb.
Qed.

Lemma generate_loop_spec cr cu ps : forall k0 vs ixs,
  PS.generate_loop cr cu ps (wrap32 (4 * k0)) vs ixs
  = (vs ++ flat_map (PS.quad cr cu) (filter Particle.isAlive ps),
     ixs ++ flat_map (fun k => PS.quad_indices (wrap32 (4 * k)))
              (zseq k0 (length (filter Particle.isAlive ps)))).
Proof.
  induction ps as [|p ps IH]; intros k0 vs ixs;
    cbn [PS.generate_loop filter].
  - cbn [length zseq flat_map]. now rewrite !app_nil_r.
  - destruct (Particle.isAlive p); cbn [negb].
    + rewrite wrap32_add_l.
      replace (4 * k0 + 4) with (4 * (k0 + 1)) by lia.
      rewrite IH. cbn [filter length zseq flat_map].
      now rewrite <- !app_assoc.
    + apply IH.
Qed.

Lemma quad_indices_bound k n :
  0 <= k < n ->
  Forall (fun i => 0 <= i < 4 * n) (PS.quad_indices (wrap32 (4 * k))).
Proof.
  intros Hk. unfold PS.quad_indices.
  pose proof (wrap32_bounds (4 * k) ltac:(lia)) as B.
  set (b := wrap32 (4 * k)) in *.
  pose proof (wrap32_bounds (b + 0) ltac:(lia)).
  pose proof (wrap32_bounds (b + 1) ltac:(lia)).
  pose proof (wrap32_bounds (b + 2) ltac:(lia)).
  pose proof (wrap32_bounds (b + 3) ltac:(lia)).
  repeat constructor; lia.
Qed.

Lemma quad_indices_plain k :
  0 <= k -> 4 * k + 4 <= u32_modulus ->
  PS.quad_indices (wrap32 (4 * k))
  = [4 * k; 4 * k + 1; 4 * k + 2; 4 * k; 4 * k + 2; 4 * k + 3].
Proof.
  intros Hk Hfit. unfold PS.quad_indices.
  rewrite (wrap32_small (4 * k)) by (unfold u32_modulus in *; lia).
  rewrite !wrap32_small by (unfold u32_modulus in *; lia).
  now rewrite Z.add_0_r.
Qed.

(** C3: [generateVertices] replaces both buffers by what the alive slots, in
    pool order, give: the four corners of [quad] per alive particle and six
    indices on the base [4k] (kept in 32 bits) for the [k]-th of them; so the
    vertex count is four and the index count six times the alive count, and
    every index is below the vertex count. The previous buffers play no
    part. *)
Theorem generateVertices_billboards
    (R : Type) (cameraRight cameraUp : glm.vec3) (st : PS.t R) :
  let st' := PS.generateVertices cameraRight cameraUp st in
  let alive := filter Particle.isAlive (PS.particles st) in
  PS.vertices st' = flat_map (PS.quad cameraRight cameraUp) alive
  /\ PS.indices st'
     = flat_map (fun k => PS.quad_indices (wrap32 (4 * k))) (zseq 0 (length alive))
  /\ (4 * Z.of_nat (length alive) <= u32_modulus ->
      PS.indices st' = plain_quad_indices (length alive))
  /\ PS.getVertexCount st' = 4 * PS.getAliveCount st
  /\ PS.getIndexCount st' = 6 * PS.getAliveCount st
  /\ Forall (fun i => 0 <= i < PS.getVertexCount st') (PS.indices st')
  /\ PS.particles st' = PS.particles st
  /\ (forall p,
        let right := cameraRight *v Particle.size p in
        let up := cameraUp *v Particle.size p in
        let corner pos u v :=
          ParticleVertex.mk pos (Particle.color p)
            (glm.mk2 (F32.of_Z u) (F32.of_Z v)) (Particle.size p) in
        PS.quad cameraRight cameraUp p
        = [corner (Particle.position p -v right -v up) 0 0;
           corner (Particle.position p +v right -v up) 1 0;
           corner (Particle.position p +v right +v up) 1 1;
           corner (Particle.position p -v right +v up) 0 1]).
Proof.
  intros st' alive. unfold st', PS.generateVertices.
  pose proof (generate_loop_spec cameraRight cameraUp (PS.particles st) 0 [] [])
    as Hloop.
  change (wrap32 (4 * 0)) with 0 in Hloop. rewrite Hloop. cbn [app].
  fold alive.
  unfold PS.getVertexCount, PS.getIndexCount, PS.getAliveCount.
  cbn [PS.vertices PS.indices PS.particles].
  rewrite count_alive_filter. fold alive.
  assert (Hv : length (flat_map (PS.quad cameraRight cameraUp) alive)
               = (length alive * 4)%nat)
    by (apply flat_map_length_const; reflexivity).
  assert (Hi : length (flat_map (fun k => PS.quad_indices (wrap32 (4 * k)))
                         (zseq 0 (length alive)))
               = (length alive * 6)%nat)
    by (rewrite (flat_map_length_const _ 6) by reflexivity;
        now rewrite zseq_length).
  rewrite Hv, Hi.
  split; [reflexivity |]. split; [reflexivity |]. split.
  { intros Hfit. unfold plain_quad_indices.
    apply flat_map_agree. intros k Hk. apply zseq_In in Hk.
    apply quad_indices_plain; lia. }
  split; [lia |]. split; [lia |]. split.
  { apply Forall_flat_map_in. intros k Hk. apply zseq_In in Hk.
    replace (Z.of_nat (length alive * 4)) with (4 * Z.of_nat (length alive)) by lia.
    apply quad_indices_bound. lia. }
  split; reflexivity.
Qed.

Lemma generateVertices_billboards_witness :
  exists st,
    PS.update (order := right_to_left) steady_rng 3 F32.tenth
      (PS.mk unit (repeat Particle.zeroed 3) [] [] (demo_config 3 (F32.of_Z 20))
         true F32.zero F32.zero tt) = Done st
    /\ PS.indices (PS.generateVertices (glm.splat3 F32.one) (glm.splat3 F32.one) st)
       = [0; 1; 2; 0; 2; 3; 4; 5; 6; 4; 6; 7].
Proof.
  eexists. split; [vm_compute; reflexivity |].
  match goal with
  | |- PS.indices (PS.generateVertices ?cr ?cu ?st) = _ =>
      destruct (generateVertices_billboards unit cr cu st) as (_ & _ & Hplain & _)
  end.
  rewrite Hplain; [reflexivity | vm_compute; discriminate].
Defined.

(* ------------------------------------------------------------------ *)
(** ** Calls that cannot leave by an exception *)

Lemma never_throws_Done {A : Type} (a : A) : never_throws (Done a).
Proof. intros e. discriminate. Qed.

Lemma never_throws_bind {A B : Type} (m : outcome A) (k : A -> outcome B) :
  never_throws m -> (forall a, never_throws (k a)) -> never_throws (bind m k).
Proof.
  intros Hm Hk e. destruct m as [a | |e']; simpl.
  - apply Hk.
  - discriminate.
  - exfalso. exact (Hm e' eq_refl).
Qed.

Lemma never_throws_for_loop {S : Type} fuel cond next
    (body : Z -> S -> outcome S) i s :
  (forall j s', never_throws (body j s')) ->
  never_throws (for_loop fuel cond next body i s).
Proof.
  intros Hb e. apply for_loop_no_throw. intros j s' e'. apply Hb.
Qed.

Ltac no_throw :=
  repeat first
    [ apply never_throws_Done
    | apply never_throws_bind; [| intros ]
    | apply never_throws_for_loop; intros
    | match goal with
      | |- never_throws (if ?b then _ else _) => destruct b
      end ].

(* ------------------------------------------------------------------ *)
(** ** More of MeshGenerator.cpp *)

Lemma side_cell_bound segments seg n :
  0 <= seg < segments -> 2 * segments + 2 <= n ->
  Forall (fun i => 0 <= i < n) (MeshGenerator.side_cell segments seg).
Proof.
  intros Hseg Hn. unfold MeshGenerator.side_cell. cbv zeta.
  pose proof (wrap32_bounds (seg + 1) ltac:(lia)).
  pose proof (wrap32_bounds (seg + segments) ltac:(lia)).
  pose proof (wrap32_bounds (wrap32 (seg + segments) + 1) ltac:(lia)).
  pose proof (wrap32_bounds (wrap32 (wrap32 (seg + segments) + 1) + 1) ltac:(lia)).
  repeat constructor; lia.
Qed.

Lemma bottom_cap_cell_bound centre seg segments n :
  0 <= centre -> 0 <= seg < segments -> centre + segments + 2 <= n ->
  Forall (fun i => 0 <= i < n)
    (MeshGenerator.bottom_cap_cell (wrap32 centre) seg).
Proof.
  intros Hc Hseg Hn. unfold MeshGenerator.bottom_cap_cell.
  pose proof (wrap32_bounds centre Hc) as Bc.
  set (bc := wrap32 centre) in *.
  pose proof (wrap32_bounds (bc + 1) ltac:(lia)).
  pose proof (wrap32_bounds (wrap32 (bc + 1) + seg) ltac:(lia)).
  pose proof (wrap32_bounds (wrap32 (wrap32 (bc + 1) + seg) + 1) ltac:(lia)).
  repeat constructor; lia.
Qed.

Section MoreGenerators.
Context `{Libm}.

Lemma cylinder_indices_length radius height segments color :
  0 <= segments ->
  Z.of_nat (length (cylinder_indices radius height segments color))
  = 12 * segments.
Proof.
  intros Hs. unfold cylinder_indices. cbv zeta.
  rewrite !length_app.
  rewrite (flat_map_length_const _ 6) by reflexivity.
  rewrite !(flat_map_length_const _ 3) by reflexivity.
  rewrite zseq_length. lia.
Qed.

Lemma createPlane_enough fuel width depth sx sz color :
  0 <= sx < u32_max -> 0 <= sz < u32_max ->
  (Z.to_nat sx + 1 < fuel)%nat -> (Z.to_nat sz + 1 < fuel)%nat ->
  (sz + 1) * (sx + 1) <= MeshGenerator.max_vertices ->
  returns (MeshGenerator.createPlane fuel width depth sx sz color).
Proof.
  intros Hx Hz Hfx Hfz Hfit. unfold MeshGenerator.createPlane. cbv zeta.
  pose proof max_indices_large as Hlarge.
  erewrite (grid_push_le_enough MeshGenerator.max_vertices)
    by first [assumption | exact Hfit].
  cbn [bind].
  erewrite (grid_push_lt_enough MeshGenerator.max_indices _ 6)
    by first [ reflexivity
             | solve [unfold is_u32, u32_modulus, u32_max in *; lia]
             | solve [cbn [length]; unfold u32_max in *; nia] ].
  cbn [bind]. eexists. reflexivity.
Qed.

Lemma plane_cell_bound sx sz z x :
  0 <= sx -> 0 <= z < sz -> 0 <= x < sx ->
  let topLeft := wrap32 (wrap32 (z * wrap32 (sx + 1)) + x) in
  let topRight := wrap32 (topLeft + 1) in
  let bottomLeft := wrap32 (topLeft + wrap32 (sx + 1)) in
  let bottomRight := wrap32 (bottomLeft + 1) in
  Forall (fun i => 0 <= i < (sz + 1) * (sx + 1))
    (MeshGenerator.plane_cell topLeft topRight bottomLeft bottomRight).
Proof.
  intros Hsx Hz Hx. cbv zeta. unfold MeshGenerator.plane_cell.
  pose proof (wrap32_bounds (sx + 1) ltac:(lia)) as B1.
  pose proof (wrap32_bounds (z * wrap32 (sx + 1)) ltac:(nia)) as B2.
  pose proof (wrap32_bounds (wrap32 (z * wrap32 (sx + 1)) + x) ltac:(lia)) as B3.
  set (topLeft := wrap32 (wrap32 (z * wrap32 (sx + 1)) + x)) in *.
  pose proof (wrap32_bounds (topLeft + 1) ltac:(lia)) as B4.
  pose proof (wrap32_bounds (topLeft + wrap32 (sx + 1)) ltac:(lia)) as B5.
  set (bottomLeft := wrap32 (topLeft + wrap32 (sx + 1))) in *.
  pose proof (wrap32_bounds (bottomLeft + 1) ltac:(lia)) as B6.
  assert (Htl : topLeft <= z * (sx + 1) + x) by nia.
  assert (Hend : z * (sx + 1) + x + sx + 2 < (sz + 1) * (sx + 1)) by nia.
  repeat constructor; lia.
Qed.

Lemma createPlane_Done fuel width depth sx sz color m :
  is_u32 sx -> is_u32 sz ->
  MeshGenerator.createPlane fuel width depth sx sz color = Done m ->
  sx < u32_max /\ sz < u32_max
  /\ Mesh.getVertexCount m = (sz + 1) * (sx + 1)
  /\ Mesh.getIndexCount m = 6 * sx * sz
  /\ Mesh.indices_valid m
  /\ (sz + 1) * (sx + 1) <= MeshGenerator.max_vertices.
Proof.
  intros Hx Hz Hd. unfold MeshGenerator.createPlane in Hd. cbv zeta in Hd.
  bind_inv Hd. bind_inv Hd. injection Hd as <-.
  eapply (grid_push_le_Done MeshGenerator.max_vertices) in E; try assumption.
  destruct E as (Hz' & Hx' & _ & _ & -> & Hfit).
  eapply (grid_push_lt_Done MeshGenerator.max_indices _ 6) in E0;
    [| reflexivity | assumption | assumption].
  destruct E0 as [-> _].
  unfold Mesh.indices_valid, Mesh.getVertexCount, Mesh.getIndexCount.
  rewrite make_vertices, make_indices. cbn [app].
  rewrite (grid_length _ 1) by reflexivity.
  rewrite (grid_length _ 6) by reflexivity.
  destruct Hx as [Hx0 _], Hz as [Hz0 _].
  split; [exact Hx' |]. split; [exact Hz' |].
  split; [lia |]. split; [lia |]. split; [| exact Hfit].
  apply grid_Forall. intros i j Hi Hj.
  replace (Z.of_nat ((Z.to_nat sz + 1) * (Z.to_nat sx + 1) * 1))
    with ((sz + 1) * (sx + 1)) by lia.
  apply plane_cell_bound; lia.
Qed.

Section Cone.
Context `{GlmOps}.

Lemma createCone_enough fuel baseRadius topRadius height segments color :
  0 <= segments < u32_max ->
  (Z.to_nat segments + 1 < fuel)%nat -> (2 < fuel)%nat ->
  returns
    (MeshGenerator.createCone fuel baseRadius topRadius height segments color).
Proof.
  intros Hs Hf H2. unfold MeshGenerator.createCone. cbv zeta.
  assert (Hu : is_u32 segments) by (unfold is_u32, u32_modulus, u32_max in *; lia).
  erewrite (grid_push_le_enough MeshGenerator.max_vertices);
    [| unfold u32_max; lia | exact Hs | lia | exact Hf | fits].
  cbn [bind].
  erewrite (row_lt_enough MeshGenerator.max_indices _ 6)
    by first [reflexivity | assumption | lia | fits].
  cbn [bind].
  destruct (baseRadius >? F32.dec 1 3)%f32.
  - rewrite (push_back_fit MeshGenerator.max_vertices) by fits. cbn [bind].
    erewrite (row_le_enough MeshGenerator.max_vertices)
      by first [assumption | fits].
    cbn [bind].
    erewrite (row_lt_enough MeshGenerator.max_indices _ 3)
      by first [reflexivity | assumption | lia | fits].
    cbn [bind]. eexists. reflexivity.
  - eexists. reflexivity.
Qed.

Lemma createCone_Done fuel baseRadius topRadius height segments color m :
  is_u32 segments ->
  MeshGenerator.createCone fuel baseRadius topRadius height segments color
  = Done m ->
  segments < u32_max
  /\ Mesh.getVertexCount m
     = 2 * (segments + 1)
       + (if (baseRadius >? F32.dec 1 3)%f32 then segments + 2 else 0)
  /\ Mesh.getIndexCount m
     = 6 * segments
       + (if (baseRadius >? F32.dec 1 3)%f32 then 3 * segments else 0)
  /\ Mesh.indices_valid m.
Proof.
  intros Hu Hd. unfold MeshGenerator.createCone in Hd. cbv zeta in Hd.
  bind_inv Hd. bind_inv Hd.
  eapply (grid_push_le_Done MeshGenerator.max_vertices) in E;
    [| unfold is_u32, u32_modulus; lia | exact Hu].
  destruct E as (_ & Hs & _ & _ & -> & _).
  eapply (row_lt_Done MeshGenerator.max_indices) in E0; [| exact Hu].
  destruct E0 as (_ & ->).
  pose proof Hu as [Hs0 _].
  cbn [app] in *.
  match type of Hd with
  | context [grid ?g ?r ?c] =>
      assert (Hside : Z.of_nat (length (grid g r c)) = 2 * segments + 2)
        by (rewrite (grid_length _ 1) by reflexivity; lia);
      set (side := grid g r c) in *
  end.
  assert (Hsix : Z.of_nat (length (flat_map (MeshGenerator.side_cell segments)
                                     (zseq 0 (Z.to_nat segments))))
                 = 6 * segments)
    by (rewrite (flat_map_length_const _ 6) by reflexivity;
        rewrite zseq_length; lia).
  split; [exact Hs |].
  unfold Mesh.indices_valid, Mesh.getVertexCount, Mesh.getIndexCount.
  destruct (baseRadius >? F32.dec 1 3)%f32.
  - bind_inv Hd. bind_inv Hd. bind_inv Hd. injection Hd as <-.
    apply push_back_Done in E. destruct E as [-> _].
    eapply (row_le_Done MeshGenerator.max_vertices) in E0; [| exact Hu].
    destruct E0 as (_ & _ & -> & _).
    eapply (row_lt_Done MeshGenerator.max_indices) in E1; [| exact Hu].
    destruct E1 as (_ & ->).
    rewrite make_vertices, make_indices.
    rewrite !length_app. cbn [length].
    rewrite (flat_map_length_const (MeshGenerator.bottom_cap_cell _) 3)
      by reflexivity.
    rewrite (flat_map_length_const (MeshGenerator.side_cell _) 6)
      by reflexivity.
    rewrite (flat_map_length_const _ 1) by reflexivity.
    rewrite !zseq_length.
    split; [lia |]. split; [lia |].
    apply Forall_app. split.
    + apply Forall_flat_map_in. intros seg Hseg. apply zseq_In in Hseg.
      apply side_cell_bound; lia.
    + apply Forall_flat_map_in. intros seg Hseg. apply zseq_In in Hseg.
      apply (bottom_cap_cell_bound _ _ segments); lia.
  - injection Hd as <-.
    rewrite make_vertices, make_indices.
    split; [lia |]. split; [lia |].
    apply Forall_flat_map_in. intros seg Hseg. apply zseq_In in Hseg.
    apply side_cell_bound; lia.
Qed.
End Cone.
End MoreGenerators.

Section GeneratorsNeverThrow.
Context `{Libm} `{GlmOps}.

Lemma createSphere_stable radius segments rings color :
  stable (fun fuel => MeshGenerator.createSphere fuel radius segments rings color).
Proof. unfold MeshGenerator.createSphere. cbv zeta. stable_run. Qed.

Lemma createPlane_stable width depth sx sz color :
  stable (fun fuel => MeshGenerator.createPlane fuel width depth sx sz color).
Proof. unfold MeshGenerator.createPlane. cbv zeta. stable_run. Qed.

Lemma createCylinder_stable radius height segments color :
  stable (fun fuel => MeshGenerator.createCylinder fuel radius height segments color).
Proof. unfold MeshGenerator.createCylinder. cbv zeta. stable_run. Qed.

Lemma createCone_stable baseRadius topRadius height segments color :
  stable (fun fuel =>
            MeshGenerator.createCone fuel baseRadius topRadius height segments color).
Proof. unfold MeshGenerator.createCone. cbv zeta. stable_run. Qed.

Lemma generateArm_stable c attachHeight angle armLength :
  stable (fun fuel => Cactus.generateArm fuel c attachHeight angle armLength).
Proof.
  unfold Cactus.generateArm. cbv zeta.
  apply stable_bind; [apply createCylinder_stable | intro horizontal].
  apply stable_bind; [apply createCylinder_stable | intro vertical].
  apply stable_pure.
Qed.

Lemma generateMesh_stable c : stable (fun fuel => Cactus.generateMesh fuel c).
Proof.
  unfold Cactus.generateMesh. cbv zeta.
  apply stable_bind; [apply createCylinder_stable | intro trunk].
  apply stable_bind; [| intro; apply stable_pure].
  apply stable_for_int. intros i all.
  apply stable_bind; [apply generateArm_stable | intro; apply stable_pure].
Qed.

(** A generator whose mesh fits never leaves by an exception, on whatever
    fuel: more fuel would let the same run return. *)
Lemma createSphere_never_throws fuel radius segments rings color :
  0 <= segments < u32_max -> 0 <= rings < u32_max ->
  (rings + 1) * (segments + 1) <= MeshGenerator.max_vertices ->
  never_throws (MeshGenerator.createSphere fuel radius segments rings color).
Proof.
  intros Hs Hr Hfit.
  apply (stable_never_throws _ (Z.to_nat segments + Z.to_nat rings + 2)%nat
           (createSphere_stable radius segments rings color)).
  eexists. apply createSphere_enough; first [lia | exact Hfit].
Qed.

Lemma createPlane_never_throws fuel width depth sx sz color :
  0 <= sx < u32_max -> 0 <= sz < u32_max ->
  (sz + 1) * (sx + 1) <= MeshGenerator.max_vertices ->
  never_throws (MeshGenerator.createPlane fuel width depth sx sz color).
Proof.
  intros Hx Hz Hfit.
  apply (stable_never_throws _ (Z.to_nat sx + Z.to_nat sz + 2)%nat
           (createPlane_stable width depth sx sz color)).
  apply createPlane_enough; first [lia | exact Hfit].
Qed.

Lemma createCylinder_never_throws fuel radius height segments color :
  0 <= segments < u32_max ->
  never_throws (MeshGenerator.createCylinder fuel radius height segments color).
Proof.
  intros Hs.
  apply (stable_never_throws _ (Z.to_nat segments + 3)%nat
           (createCylinder_stable radius height segments color)).
  eexists. apply createCylinder_enough; lia.
Qed.

Lemma createCone_never_throws fuel baseRadius topRadius height segments color :
  0 <= segments < u32_max ->
  never_throws
    (MeshGenerator.createCone fuel baseRadius topRadius height segments color).
Proof.
  intros Hs.
  apply (stable_never_throws _ (Z.to_nat segments + 3)%nat
           (createCone_stable baseRadius topRadius height segments color)).
  apply createCone_enough; lia.
Qed.

Lemma generateMesh_never_throws fuel c :
  0 <= Cactus.segments (Cactus.m_config c) < u32_max ->
  never_throws (Cactus.generateMesh fuel c).
Proof.
  intros Hs.
  apply (stable_never_throws _
           (Z.to_nat (Cactus.segments (Cactus.m_config c))
            + Z.to_nat (Cactus.numArms (Cactus.m_config c)) + 3)%nat
           (generateMesh_stable c)).
  apply generateMesh_enough; lia.
Qed.
End GeneratorsNeverThrow.

(** A row whose test never fails pushes until the vector is full. *)
Lemma endless_row_throws {A : Type} (max : Z) (g : Z -> A) cond :
  (forall j, is_u32 j -> cond j = true) ->
  forall n i s,
    is_u32 i -> max - Z.of_nat (length s) <= Z.of_nat n ->
    for_u32 (S n) cond (fun i s => push_back max s (g i)) i s
    = Thrown length_error.
Proof.
  intros Hcond. unfold for_u32.
  induction n as [|n IH]; intros i s Hi Hfull; cbn [for_loop];
    rewrite (Hcond i Hi); unfold push_back at 1.
  - replace (Z.of_nat (length s) <? max) with false
      by (symmetry; apply Z.ltb_ge; lia).
    reflexivity.
  - destruct (Z.ltb_spec (Z.of_nat (length s)) max) as [Hlt | Hge];
      [| reflexivity].
    cbn [bind]. apply IH; [apply wrap32_range |].
    rewrite length_app. cbn [length]. lia.
Qed.

Section EndlessRow.
Context `{Libm}.

(** With [segments = UINT32_MAX] the first row of [createSphere] pushes
    until [push_back] throws: here [std::length_error] at [max_size()],
    with a heap that ends sooner [std::bad_alloc]. *)
Lemma createSphere_max_segments_throws radius rings color :
  0 <= rings ->
  exists fuel,
    throws (MeshGenerator.createSphere fuel radius u32_max rings color).
Proof.
  intros Hr. exists (S (Z.to_nat MeshGenerator.max_vertices)).
  exists length_error. unfold MeshGenerator.createSphere. cbv zeta.
  unfold for_u32 at 1. cbn [for_loop].
  replace (0 <=? rings) with true by (symmetry; apply Z.leb_le; exact Hr).
  rewrite endless_row_throws.
  - reflexivity.
  - intros j [_ Hj]. apply Z.leb_le. unfold u32_modulus, u32_max in *. lia.
  - unfold is_u32, u32_modulus. lia.
  - pose proof max_vertices_large. cbn [length]. lia.
Qed.
End EndlessRow.

Lemma wrap_int_small n :
  -2147483648 <= n < 2147483648 -> PS.wrap_int n = n.
Proof.
  intros Hn. unfold PS.wrap_int. rewrite Z.mod_small; lia.
Qed.

Section SystemNeverThrows.
Variable R : Type.
Variable dist : R -> float * R.
Context {order : PS.EvaluationOrder}.

Lemma update_never_throws fuel dt (st : PS.t R) :
  never_throws (PS.update dist fuel dt st).
Proof.
  rewrite update_unfold. destruct (idle st); [apply never_throws_Done |].
  apply never_throws_bind; [| intros; apply never_throws_Done].
  unfold emission. destruct (PS.active (after_clock dt st));
    [| apply never_throws_Done].
  intros e. apply emit_loop_no_throw.
Qed.

Lemma init_never_throws cfg (st : PS.t R) :
  0 <= PS.maxParticles cfg <= 357913941 ->
  never_throws (PS.init cfg st).
Proof.
  intros Hn e. unfold PS.init, PS.reserve_ok.
  cbn [PS.config PS.set_config PS.set_particles].
  destruct (Z.ltb_spec (PS.maxParticles cfg) 0) as [Hlt | _]; [lia |].
  rewrite !wrap_int_small by lia.
  destruct (Z.leb_spec 0 (PS.maxParticles cfg * 4)) as [_ | Hlt]; [| lia].
  destruct (Z.leb_spec 0 (PS.maxParticles cfg * 6)) as [_ | Hlt]; [| lia].
  discriminate.
Qed.

Lemma init_preset_never_throws type pos (st : PS.t R) :
  never_throws (PS.init_preset type pos st).
Proof.
  intros e. unfold PS.init_preset, PS.reserve_ok.
  cbn [PS.config PS.set_config PS.set_particles].
  assert (Hn : 0 <= PS.maxParticles (PS.set_position pos (PS.getPreset type))
               <= 1000)
    by (destruct type; cbv [PS.maxParticles PS.set_position PS.getPreset]; lia).
  destruct (Z.ltb_spec (PS.maxParticles (PS.set_position pos (PS.getPreset type))) 0)
    as [Hlt | _]; [lia |].
  rewrite !wrap_int_small by lia.
  destruct (Z.leb_spec 0
              (PS.maxParticles (PS.set_position pos (PS.getPreset type)) * 4))
    as [_ | Hlt]; [| lia].
  destruct (Z.leb_spec 0
              (PS.maxParticles (PS.set_position pos (PS.getPreset type)) * 6))
    as [_ | Hlt]; [| lia].
  discriminate.
Qed.
End SystemNeverThrows.

(** C8, counterexample: [init] with [maxParticles = -1] leaves by
    [std::length_error]: the size passed to [resize] converts to a [size_t]
    above [max_size()]. *)
Lemma init_negative_capacity_throws :
  PS.init (demo_config (-1) F32.zero) (PS.create tt) = Thrown length_error.
Proof. reflexivity. Qed.

(** C8, amended: with every slot alive [emitParticle] returns the system as
    it was, and the [update] loop then only takes one from the credit; no
    error is recorded. [update] never leaves by an exception; neither does
    [init] for a capacity from 0 to 357913941 or a preset; neither do the
    mesh generators and the cactus when their counts are below [UINT32_MAX]
    and the vertices are no more than a [std::vector<Vertex>] can hold. *)
Theorem pool_exhaustion_is_silent
    (R : Type) (dist : R -> float * R)
    (order : PS.EvaluationOrder) (st : PS.t R) :
  (Forall (fun p => Particle.isAlive p = true) (PS.particles st) ->
   PS.emitParticle dist st = st
   /\ forall fuel,
        (PS.emissionAccumulator st >=? F32.one)%f32 = true ->
        PS.emit_loop dist (S fuel) st
        = PS.emit_loop dist fuel
            (PS.set_emissionAccumulator
               (PS.emissionAccumulator st - F32.one)%f32 st))
  /\ (forall fuel dt, never_throws (PS.update dist fuel dt st))
  /\ (forall cfg, 0 <= PS.maxParticles cfg <= 357913941 ->
                  never_throws (PS.init cfg st))
  /\ (forall type pos, never_throws (PS.init_preset type pos st))
  /\ (forall (L : Libm) (G : GlmOps) fuel,
        (forall radius segments rings color,
           0 <= segments < u32_max -> 0 <= rings < u32_max ->
           (rings + 1) * (segments + 1) <= MeshGenerator.max_vertices ->
           never_throws (MeshGenerator.createSphere fuel radius segments rings color))
        /\ (forall width depth sx sz color,
              0 <= sx < u32_max -> 0 <= sz < u32_max ->
              (sz + 1) * (sx + 1) <= MeshGenerator.max_vertices ->
              never_throws (MeshGenerator.createPlane fuel width depth sx sz color))
        /\ (forall radius height segments color,
              0 <= segments < u32_max ->
              never_throws
                (MeshGenerator.createCylinder fuel radius height segments color))
        /\ (forall baseRadius topRadius height segments color,
              0 <= segments < u32_max ->
              never_throws
                (MeshGenerator.createCone fuel baseRadius topRadius height
                   segments color))
        /\ (forall c,
              0 <= Cactus.segments (Cactus.m_config c) < u32_max ->
              (1 + 2 * Z.max 0 (Cactus.numArms (Cactus.m_config c)))
              * (4 * Cactus.segments (Cactus.m_config c) + 6)
              <= MeshGenerator.max_vertices ->
              never_throws (Cactus.generateMesh fuel c))).
Proof.
  split; [| split; [| split; [| split]]].
  - intros Hfull. split; [apply emitParticle_full; exact Hfull |].
    intros fuel Hacc. cbn [PS.emit_loop]. rewrite Hacc.
    rewrite emitParticle_full by exact Hfull. reflexivity.
  - intros fuel dt. apply update_never_throws.
  - intros cfg Hn. apply init_never_throws. exact Hn.
  - intros type pos. apply init_preset_never_throws.
  - intros L G fuel. repeat split; intros.
    + apply createSphere_never_throws; assumption.
    + apply createPlane_never_throws; assumption.
    + apply createCylinder_never_throws; assumption.
    + apply createCone_never_throws; assumption.
    + apply generateMesh_never_throws; assumption.
Qed.

Lemma pool_exhaustion_is_silent_witness :
  PS.emitParticle (order := right_to_left) steady_rng full_system = full_system
  /\ PS.emit_loop (order := right_to_left) steady_rng 2 full_system
     = Done (PS.set_emissionAccumulator F32.zero full_system)
  /\ returns (PS.init (demo_config 4 F32.one) full_system)
  /\ never_throws
       (@MeshGenerator.createSphere identity_libm 1 F32.one 2 2
          (glm.splat3 F32.one))
  /\ never_throws
       (MeshGenerator.createPlane 1 F32.two F32.two 2 3 (glm.splat3 F32.one))
  /\ never_throws
       (@MeshGenerator.createCylinder identity_libm 1 F32.one F32.two 4
          (glm.splat3 F32.one))
  /\ never_throws
       (@MeshGenerator.createCone identity_libm identity_glm 1 F32.one F32.zero
          F32.two 4 (glm.splat3 F32.one))
  /\ never_throws
       (@Cactus.generateMesh identity_libm identity_glm 1 small_cactus).
Proof.
  destruct (pool_exhaustion_is_silent unit steady_rng right_to_left full_system)
    as (Hfull & _ & Hinit & _ & Hgen).
  destruct (Hgen identity_libm identity_glm 1%nat)
    as (Hsphere & Hplane & Hcylinder & Hcone & Hcactus).
  destruct Hfull as [Hemit Hloop]; [repeat constructor |].
  split; [exact Hemit |]. split; [rewrite (Hloop 1%nat eq_refl); reflexivity |].
  split.
  { pose proof (Hinit (demo_config 4 F32.one) ltac:(simpl; lia)) as Hno.
    destruct (PS.init (demo_config 4 F32.one) full_system) as [st' | |e] eqn:Hi.
    + eexists. reflexivity.
    + vm_compute in Hi. discriminate.
    + exfalso. exact (Hno e eq_refl). }
  split; [apply Hsphere; [unfold u32_max; lia | unfold u32_max; lia
                         | apply Z.leb_le; reflexivity] |].
  split; [apply Hplane; [unfold u32_max; lia | unfold u32_max; lia
                        | apply Z.leb_le; reflexivity] |].
  split; [apply Hcylinder; unfold u32_max; lia |].
  split; [apply Hcone; unfold u32_max; lia |].
  apply Hcactus; [vm_compute; split; [discriminate | reflexivity]
                 | apply Z.leb_le; reflexivity].
Defined.

(* ------------------------------------------------------------------ *)

Section Reinit.
Variable R : Type.
Variable dist : R -> float * R.
Context {order : PS.EvaluationOrder}.

(** The first [update] of a system that [init] has just set up and that
    stays active. *)
Lemma first_update cfg acc fuel dt (st' : PS.t R) :
  PS.config st' = cfg -> PS.active st' = true ->
  PS.systemTime st' = F32.zero -> PS.emissionAccumulator st' = acc ->
  PS.looping cfg = true ->
  PS.update dist fuel dt st'
  = (st2 <- PS.emit_loop dist fuel
              (PS.set_emissionAccumulator (acc + PS.emissionRate cfg * dt)%f32
                 (PS.set_systemTime (F32.zero + dt)%f32 st')) ;;
     Done (PS.set_particles
             (map (PS.integrate (PS.config st2) dt) (PS.particles st2)) st2)).
Proof.
  intros Hc Ha Ht Hacc Hloop. rewrite update_unfold.
  unfold idle. rewrite Ha. cbn [negb andb].
  unfold after_clock, emission. cbv zeta.
  cbn [PS.config PS.set_systemTime PS.systemTime PS.active PS.set_active
       PS.emissionAccumulator].
  rewrite Hc, Hloop. cbn [negb andb].
  cbn [PS.config PS.set_systemTime PS.systemTime PS.active PS.set_active
       PS.emissionAccumulator].
  rewrite Ha, Hc, Ht, Hacc. reflexivity.
Qed.
End Reinit.

(** C10: either [init] zeroes the clock, marks every slot dead and activates
    the system, and leaves the emission credit as it was; the credit left
    from before is what the first [update] after it adds
    [emissionRate * dt] to. *)
Theorem init_keeps_emission_credit
    (R : Type) (dist : R -> float * R)
    (order : PS.EvaluationOrder) (st st' : PS.t R) :
  (forall cfg,
     PS.init cfg st = Done st' ->
     PS.systemTime st' = F32.zero
     /\ Forall (fun p => Particle.isAlive p = false) (PS.particles st')
     /\ PS.isActive st' = true
     /\ PS.emissionAccumulator st' = PS.emissionAccumulator st
     /\ (PS.looping cfg = true ->
         forall fuel dt,
           PS.update dist fuel dt st'
           = (st2 <- PS.emit_loop dist fuel
                       (PS.set_emissionAccumulator
                          (PS.emissionAccumulator st + PS.emissionRate cfg * dt)%f32
                          (PS.set_systemTime (F32.zero + dt)%f32 st')) ;;
              Done (PS.set_particles
                      (map (PS.integrate (PS.config st2) dt) (PS.particles st2))
                      st2))))
  /\ (forall type pos,
        PS.init_preset type pos st = Done st' ->
        PS.systemTime st' = F32.zero
        /\ Forall (fun p => Particle.isAlive p = false) (PS.particles st')
        /\ PS.isActive st' = true
        /\ PS.emissionAccumulator st' = PS.emissionAccumulator st
        /\ forall fuel dt,
             PS.update dist fuel dt st'
             = (st2 <- PS.emit_loop dist fuel
                         (PS.set_emissionAccumulator
                            (PS.emissionAccumulator st
                             + PS.emissionRate (PS.getPreset type) * dt)%f32
                            (PS.set_systemTime (F32.zero + dt)%f32 st')) ;;
                Done (PS.set_particles
                        (map (PS.integrate (PS.config st2) dt) (PS.particles st2))
                        st2))).
Proof.
  split.
  - intros cfg Hi. apply init_frame in Hi.
    destruct Hi as (_ & Hc & _ & Hdead & Ha & Ht & Hacc & _).
    repeat split; try assumption.
    intros Hloop fuel dt. apply first_update; assumption.
  - intros type pos Hi. apply init_preset_frame in Hi.
    destruct Hi as (Hc & _ & Hdead & Ha & Ht & Hacc).
    repeat split; try assumption.
    intros fuel dt.
    replace (PS.emissionRate (PS.getPreset type))
      with (PS.emissionRate (PS.set_position pos (PS.getPreset type)))
      by reflexivity.
    apply first_update; try assumption.
    destruct type; reflexivity.
Qed.

(** A system run for 0.1 s at 5 particles per second holds half a particle
    of credit; re-initialised, its first 0.1 s emits a particle, where a new
    system emits none. *)
Lemma init_keeps_emission_credit_witness :
  exists used reinit fresh after_reinit after_fresh,
    (st1 <- PS.init (demo_config 4 (F32.of_Z 5)) (PS.create tt) ;;
     PS.update (order := right_to_left) steady_rng 2 F32.tenth st1) = Done used
    /\ (exists as_fire,
          PS.init_preset PS.Fire (glm.splat3 F32.zero) used = Done as_fire
          /\ PS.emissionAccumulator as_fire = F32.half)
    /\ PS.init (demo_config 4 (F32.of_Z 5)) used = Done reinit
    /\ PS.init (demo_config 4 (F32.of_Z 5)) (PS.create tt) = Done fresh
    /\ PS.emissionAccumulator reinit = F32.half
    /\ PS.emissionAccumulator fresh = F32.zero
    /\ PS.update (order := right_to_left) steady_rng 2 F32.tenth reinit = Done after_reinit
    /\ PS.update (order := right_to_left) steady_rng 2 F32.tenth fresh = Done after_fresh
    /\ PS.getAliveCount after_reinit = 1
    /\ PS.getAliveCount after_fresh = 0.
Proof.
  destruct (st1 <- PS.init (demo_config 4 (F32.of_Z 5)) (PS.create tt) ;;
            PS.update (order := right_to_left) steady_rng 2 F32.tenth st1) as [used | |e] eqn:Hused;
    [| vm_compute in Hused; discriminate | vm_compute in Hused; discriminate].
  destruct (PS.init (demo_config 4 (F32.of_Z 5)) used) as [reinit | |e] eqn:Hre;
    [| vm_compute in Hused; injection Hused as <-; vm_compute in Hre; discriminate
     | vm_compute in Hused; injection Hused as <-; vm_compute in Hre; discriminate].
  destruct (init_keeps_emission_credit unit steady_rng right_to_left used reinit) as [Hinit _].
  destruct (Hinit _ Hre) as (_ & _ & _ & Hacc & _).
  exists used, reinit. do 3 eexists.
  split; [reflexivity |]. split.
  { destruct (PS.init_preset PS.Fire (glm.splat3 F32.zero) used)
      as [as_fire | |e] eqn:Hfire;
      [| vm_compute in Hused; injection Hused as <-; vm_compute in Hfire;
         discriminate
       | vm_compute in Hused; injection Hused as <-; vm_compute in Hfire;
         discriminate].
    destruct (init_keeps_emission_credit unit steady_rng right_to_left used as_fire)
      as [_ Hpreset].
    destruct (Hpreset _ _ Hfire) as (_ & _ & _ & Hacc_fire & _).
    exists as_fire. split; [reflexivity |].
    rewrite Hacc_fire. vm_compute in Hused. injection Hused as <-. reflexivity. }
  split; [exact Hre |].
  split; [vm_compute; reflexivity |].
  split; [rewrite Hacc; vm_compute in Hused; injection Hused as <-; reflexivity |].
  split; [reflexivity |].
  vm_compute in Hused. injection Hused as <-.
  vm_compute in Hre. injection Hre as <-.
  split; [vm_compute; reflexivity |].
  split; [vm_compute; reflexivity |].
  split; reflexivity.
Defined.



(* ================================================================== *)

(** X1: for a [uint32_t] segment count, the mesh [createCylinder] returns
    has [2*(segments+1) + 2*(segments+2)] vertices (two side rings and two
    caps with their centres) and [12*segments] indices, each index below the
    vertex count; and it does return when [segments < UINT32_MAX]. *)
Theorem createCylinder_size
    (L : Libm) (radius height : float) (segments : Z) (color : glm.vec3) :
  is_u32 segments ->
  (segments < u32_max ->
   exists fuel m,
     MeshGenerator.createCylinder fuel radius height segments color = Done m)
  /\ (forall fuel m,
        MeshGenerator.createCylinder fuel radius height segments color = Done m ->
        Mesh.getVertexCount m = 2 * (segments + 1) + 2 * (segments + 2)
        /\ Mesh.getIndexCount m = 12 * segments
        /\ Mesh.indices_valid m).
Proof.
  intros Hu. split.
  - intros Hs. exists (Z.to_nat segments + 3)%nat. eexists.
    apply createCylinder_enough; destruct Hu; lia.
  - intros fuel m Hd. apply createCylinder_Done in Hd; [| exact Hu].
    destruct Hd as (_ & ->). destruct Hu as [Hs0 _].
    destruct (cylinder_mesh_valid radius height segments color Hs0) as [Hc Hv].
    split; [rewrite Hc; lia |]. split; [| exact Hv].
    unfold Mesh.getIndexCount, cylinder_mesh. rewrite make_indices.
    apply cylinder_indices_length. exact Hs0.
Qed.

Lemma createCylinder_size_witness :
  exists m,
    @MeshGenerator.createCylinder identity_libm 6 F32.one F32.two 4
      (glm.splat3 F32.one) = Done m
    /\ Mesh.getVertexCount m = 22 /\ Mesh.getIndexCount m = 48.
Proof.
  destruct (createCylinder_size identity_libm F32.one F32.two 4 (glm.splat3 F32.one))
    as [_ Hsize]; [unfold is_u32, u32_modulus; lia |].
  eexists. split; [vm_compute; reflexivity |].
  destruct (Hsize 6%nat _ eq_refl) as (Hv & Hi & _).
  split; [exact Hv | exact Hi].
Defined.

(** X2: for [uint32_t] subdivision counts below [UINT32_MAX] whose
    [(subdivisionsZ+1)*(subdivisionsX+1)] vertices a [std::vector<Vertex>]
    can hold, [createPlane] returns (given fuel for its loops), and only for
    those; the mesh it returns has that many vertices and
    [6*subdivisionsX*subdivisionsZ] indices, each index below the vertex
    count. *)
Theorem createPlane_size
    (width depth : float) (subdivisionsX subdivisionsZ : Z)
    (color : glm.vec3) :
  is_u32 subdivisionsX -> is_u32 subdivisionsZ ->
  (subdivisionsX < u32_max -> subdivisionsZ < u32_max ->
   (subdivisionsZ + 1) * (subdivisionsX + 1) <= MeshGenerator.max_vertices ->
   exists fuel m,
     MeshGenerator.createPlane fuel width depth subdivisionsX subdivisionsZ color
     = Done m)
  /\ (forall fuel m,
        MeshGenerator.createPlane fuel width depth subdivisionsX subdivisionsZ color
        = Done m ->
        (subdivisionsZ + 1) * (subdivisionsX + 1) <= MeshGenerator.max_vertices
        /\ Mesh.getVertexCount m = (subdivisionsZ + 1) * (subdivisionsX + 1)
        /\ Mesh.getIndexCount m = 6 * subdivisionsX * subdivisionsZ
        /\ Mesh.indices_valid m).
Proof.
  intros Hx Hz. split.
  - intros Hx' Hz' Hfit.
    destruct (createPlane_enough
                (Z.to_nat subdivisionsX + Z.to_nat subdivisionsZ + 2)%nat
                width depth subdivisionsX subdivisionsZ color) as [m Hm];
      first [exact Hfit | destruct Hx, Hz; lia | idtac].
    eauto.
  - intros fuel m Hd. apply createPlane_Done in Hd; try assumption.
    destruct Hd as (_ & _ & Hv & Hi & Hvalid & Hfit). auto.
Qed.

Lemma createPlane_size_witness :
  (exists fuel m,
     MeshGenerator.createPlane fuel F32.two F32.two 2 3 (glm.splat3 F32.one)
     = Done m)
  /\ exists m,
       MeshGenerator.createPlane 5 F32.two F32.two 2 3 (glm.splat3 F32.one)
       = Done m
       /\ Mesh.getVertexCount m = 12 /\ Mesh.getIndexCount m = 36.
Proof.
  destruct (createPlane_size F32.two F32.two 2 3 (glm.splat3 F32.one))
    as [Hret Hsize]; try (unfold is_u32, u32_modulus; lia).
  split;
    [apply Hret; [unfold u32_max; lia | unfold u32_max; lia
                 | apply Z.leb_le; reflexivity] |].
  eexists. split; [vm_compute; reflexivity |].
  destruct (Hsize 5%nat _ eq_refl) as (_ & Hv & Hi & _).
  split; [exact Hv | exact Hi].
Defined.

(** X3: [createCone] adds the bottom cap exactly when
    [baseRadius > 0.001f], and never a top cap: the mesh it returns has
    [2*(segments+1)] side vertices and [6*segments] side indices, plus
    [segments+2] vertices and [3*segments] indices with the cap; every index
    is below the vertex count; and it returns when [segments < UINT32_MAX]. *)
Theorem createCone_bottom_cap
    (L : Libm) (G : GlmOps) (baseRadius topRadius height : float)
    (segments : Z) (color : glm.vec3) :
  is_u32 segments ->
  (segments < u32_max ->
   exists fuel m,
     MeshGenerator.createCone fuel baseRadius topRadius height segments color
     = Done m)
  /\ (forall fuel m,
        MeshGenerator.createCone fuel baseRadius topRadius height segments color
        = Done m ->
        let capped := (baseRadius >? F32.dec 1 3)%f32 in
        Mesh.getVertexCount m
        = 2 * (segments + 1) + (if capped then segments + 2 else 0)
        /\ Mesh.getIndexCount m
           = 6 * segments + (if capped then 3 * segments else 0)
        /\ Mesh.indices_valid m).
Proof.
  intros Hu. split.
  - intros Hs.
    destruct (createCone_enough (Z.to_nat segments + 3)%nat
                baseRadius topRadius height segments color) as [m Hm];
      try (destruct Hu; lia).
    eauto.
  - intros fuel m Hd capped. apply createCone_Done in Hd; [| exact Hu].
    destruct Hd as (_ & Hv & Hi & Hvalid). auto.
Qed.

Lemma createCone_bottom_cap_witness :
  exists pointed_down pointed_up,
    @MeshGenerator.createCone identity_libm identity_glm 6 F32.one F32.zero
      F32.two 4 (glm.splat3 F32.one) = Done pointed_up
    /\ @MeshGenerator.createCone identity_libm identity_glm 6 F32.zero F32.one
         F32.two 4 (glm.splat3 F32.one) = Done pointed_down
    /\ Mesh.getVertexCount pointed_up = 16 /\ Mesh.getIndexCount pointed_up = 36
    /\ Mesh.getVertexCount pointed_down = 10
    /\ Mesh.getIndexCount pointed_down = 24.
Proof.
  assert (Hu : is_u32 4) by (unfold is_u32, u32_modulus; lia).
  destruct (createCone_bottom_cap identity_libm identity_glm F32.one F32.zero
              F32.two 4 (glm.splat3 F32.one) Hu) as [_ Hup].
  destruct (createCone_bottom_cap identity_libm identity_glm F32.zero F32.one
              F32.two 4 (glm.splat3 F32.one) Hu) as [_ Hdown].
  do 2 eexists.
  split; [vm_compute; reflexivity |]. split; [vm_compute; reflexivity |].
  destruct (Hup 6%nat _ eq_refl) as (Hv & Hi & _).
  destruct (Hdown 6%nat _ eq_refl) as (Hv' & Hi' & _).
  repeat split; assumption.
Defined.

(** X4: a count of [UINT32_MAX] makes the [i <= count] loops endless:
    [createCylinder] and [createCone] with that many segments,
    [createSphere] with that many rings, [createPlane] with that many
    Z subdivisions and [Cactus::generateMesh] on such a config return no
    mesh, whatever the other arguments. *)
Theorem generators_never_return_at_u32_max (L : Libm) (G : GlmOps) (fuel : nat) :
  (forall radius height color m,
     MeshGenerator.createCylinder fuel radius height u32_max color <> Done m)
  /\ (forall baseRadius topRadius height color m,
        MeshGenerator.createCone fuel baseRadius topRadius height u32_max color
        <> Done m)
  /\ (forall radius segments color m,
        MeshGenerator.createSphere fuel radius segments u32_max color <> Done m)
  /\ (forall width depth subdivisionsX color m,
        MeshGenerator.createPlane fuel width depth subdivisionsX u32_max color
        <> Done m)
  /\ (forall position height trunkRadius numArms armHeight color c m,
        Cactus.generateMesh fuel
          (Cactus.setConfig
             (Cactus.mkConfig position height trunkRadius numArms armHeight
                color u32_max) c)
        <> Done m).
Proof.
  assert (Hmax : is_u32 u32_max) by (unfold is_u32, u32_max, u32_modulus; lia).
  assert (Hcyl : forall radius height color m,
             MeshGenerator.createCylinder fuel radius height u32_max color
             <> Done m).
  { intros radius height color m Hd.
    apply createCylinder_Done in Hd; [| exact Hmax]. lia. }
  split; [exact Hcyl |]. split; [| split; [| split]].
  - intros baseRadius topRadius height color m Hd.
    apply createCone_Done in Hd; [| exact Hmax]. lia.
  - intros radius segments color m Hd.
    unfold MeshGenerator.createSphere in Hd. bind_inv Hd.
    revert E. apply for_u32_le_max_forever. lia.
  - intros width depth subdivisionsX color m Hd.
    unfold MeshGenerator.createPlane in Hd. cbv zeta in Hd. bind_inv Hd.
    revert E. apply for_u32_le_max_forever. lia.
  - intros position height trunkRadius numArms armHeight color c m Hd.
    unfold Cactus.generateMesh in Hd. cbv zeta in Hd. bind_inv Hd.
    revert E. apply Hcyl.
Qed.

(** X5: with [segments = 0], [createSphere] returns [rings + 1] vertices and
    no index at all, and the first texture coordinate of every vertex is the
    NaN of [0.0f / 0.0f]. *)
Theorem createSphere_zero_segments
    (L : Libm) (radius : float) (rings : Z) (color : glm.vec3) :
  0 <= rings < u32_max ->
  (exists fuel m,
     MeshGenerator.createSphere fuel radius 0 rings color = Done m)
  /\ (forall fuel m,
        MeshGenerator.createSphere fuel radius 0 rings color = Done m ->
        Mesh.getVertexCount m = rings + 1
        /\ Mesh.indices m = []
        /\ Forall (fun v => glm.x2 (Vertex.texCoord v) = F32.nan)
             (Mesh.vertices m)).
Proof.
  intros Hr. split.
  - exists (Z.to_nat rings + 2)%nat. eexists.
    pose proof max_vertices_large.
    apply createSphere_enough; unfold u32_max in *; lia.
  - intros fuel m Hd.
    apply createSphere_Done in Hd;
      try (unfold is_u32, u32_modulus, u32_max in *; lia).
    destruct Hd as (_ & _ & ->).
    unfold Mesh.getVertexCount, sphere_mesh. rewrite make_vertices, make_indices.
    split; [rewrite (grid_length _ 1) by reflexivity; lia |]. split.
    + unfold grid. change (Z.to_nat 0) with 0%nat. cbn [zseq].
      induction (zseq 0 (Z.to_nat rings)) as [|i l IH]; [reflexivity | exact IH].
    + apply grid_Forall. intros i j _ Hj. repeat constructor.
      assert (j = 0) as -> by lia.
      unfold sphere_vertex. cbv zeta. cbn [Vertex.texCoord glm.x2].
      vm_compute. reflexivity.
Qed.

Lemma createSphere_zero_segments_witness :
  exists m,
    @MeshGenerator.createSphere identity_libm 5 F32.one 0 2 (glm.splat3 F32.one)
    = Done m
    /\ Mesh.getVertexCount m = 3 /\ Mesh.indices m = [].
Proof.
  destruct (createSphere_zero_segments identity_libm F32.one 2 (glm.splat3 F32.one))
    as [_ Hzero]; [unfold u32_max; lia |].
  eexists. split; [vm_compute; reflexivity |].
  destruct (Hzero 5%nat _ eq_refl) as (Hv & Hi & _).
  split; [exact Hv | exact Hi].
Defined.

(** ** The size of the cactus mesh *)

Section CactusSize.
Context `{Libm} `{GlmOps}.
Variable c : Cactus.t.

Lemma generateArm_counts fuel attachHeight angle armLength arm :
  is_u32 (Cactus.segments (Cactus.m_config c)) ->
  Cactus.generateArm fuel c attachHeight angle armLength = Done arm ->
  Mesh.getVertexCount arm = 2 * (4 * Cactus.segments (Cactus.m_config c) + 6)
  /\ Mesh.getIndexCount arm = 2 * (12 * Cactus.segments (Cactus.m_config c)).
Proof.
  intros Hu Hd. split; [eapply generateArm_Done; eassumption |].
  unfold Cactus.generateArm in Hd. cbv zeta in Hd.
  bind_inv Hd. bind_inv Hd.
  apply createCylinder_Done in E; [| exact Hu].
  apply createCylinder_Done in E0; [| exact Hu].
  destruct E as (_ & ->). destruct E0 as (_ & ->).
  injection Hd as <-. destruct Hu as [Hs0 _].
  unfold Mesh.getIndexCount. rewrite make_indices.
  unfold Cactus.rebase. rewrite length_app, length_map.
  unfold cylinder_mesh. rewrite !make_indices.
  rewrite Nat2Z.inj_add, !cylinder_indices_length by exact Hs0. lia.
Qed.

Lemma fold_append_counts (v i : Z) arms : forall all,
  Forall (fun arm => Mesh.getVertexCount arm = v /\ Mesh.getIndexCount arm = i)
    arms ->
  Z.of_nat (length (fst (fold_left append_part arms all)))
  = Z.of_nat (length (fst all)) + Z.of_nat (length arms) * v
  /\ Z.of_nat (length (snd (fold_left append_part arms all)))
     = Z.of_nat (length (snd all)) + Z.of_nat (length arms) * i.
Proof.
  induction arms as [|arm arms IH]; intros all Harms; cbn [fold_left length].
  - lia.
  - inversion Harms as [|? ? [Hv Hi] Hrest]; subst.
    destruct (IH (append_part all arm) Hrest) as [-> ->].
    unfold append_part, Mesh.getVertexCount, Mesh.getIndexCount, Cactus.rebase.
    cbn [fst snd]. rewrite !length_app, length_map. lia.
Qed.
End CactusSize.

(** X6: the mesh [Cactus::generateMesh] returns is one trunk cylinder and
    two cylinders for each of the [numArms] arms (none when [numArms] is
    negative): with [s] segments it has [(1 + 2*max(0,numArms)) * (4*s + 6)]
    vertices and [(1 + 2*max(0,numArms)) * 12*s] indices. *)
Theorem cactus_mesh_size
    (L : Libm) (G : GlmOps) (c : Cactus.t) (fuel : nat) (m : Mesh.t) :
  is_u32 (Cactus.segments (Cactus.m_config c)) ->
  Cactus.generateMesh fuel c = Done m ->
  let s := Cactus.segments (Cactus.m_config c) in
  let arms := Z.max 0 (Cactus.numArms (Cactus.m_config c)) in
  Mesh.getVertexCount m = (1 + 2 * arms) * (4 * s + 6)
  /\ Mesh.getIndexCount m = (1 + 2 * arms) * (12 * s).
Proof.
  intros Hu Hd s n.
  destruct (generateMesh_structure c fuel m Hu Hd)
    as (trunk & arms & Ht & Harms & Hlen & Hm).
  apply createCylinder_Done in Ht; [| exact Hu]. destruct Ht as (_ & ->).
  pose proof Hu as [Hs0 _].
  destruct (fold_append_counts (2 * (4 * s + 6)) (2 * (12 * s)) arms
              (trunk_buffers c (cylinder_mesh
                 (Cactus.trunkRadius (Cactus.m_config c) * Cactus.m_growthFactor c)%f32
                 (Cactus.height (Cactus.m_config c) * Cactus.m_growthFactor c)%f32
                 s (Cactus.color (Cactus.m_config c)))))
    as [Hv Hi].
  { eapply Forall_impl; [| exact Harms].
    intros arm (attachHeight & angle & armLength & Harm).
    eapply generateArm_counts; eassumption. }
  fold s in Hm. rewrite <- Hm in Hv, Hi. cbn [fst snd] in Hv, Hi.
  unfold Mesh.getVertexCount, Mesh.getIndexCount. rewrite Hv, Hi.
  unfold trunk_buffers. cbn [fst snd]. rewrite length_map.
  destruct (cylinder_mesh_valid
              (Cactus.trunkRadius (Cactus.m_config c) * Cactus.m_growthFactor c)%f32
              (Cactus.height (Cactus.m_config c) * Cactus.m_growthFactor c)%f32
              s (Cactus.color (Cactus.m_config c)) Hs0) as [Hc _].
  unfold Mesh.getVertexCount in Hc. fold s. rewrite Hc.
  unfold cylinder_mesh at 1. rewrite make_indices.
  rewrite cylinder_indices_length by exact Hs0.
  fold n in Hlen. rewrite Hlen. lia.
Qed.

Lemma cactus_mesh_size_witness :
  exists m,
    @Cactus.generateMesh identity_libm identity_glm 6 small_cactus = Done m
    /\ Mesh.getVertexCount m
       = (1 + 2 * Z.max 0 (Cactus.numArms (Cactus.m_config small_cactus)))
         * (4 * Cactus.segments (Cactus.m_config small_cactus) + 6)
    /\ Mesh.getIndexCount m
       = (1 + 2 * Z.max 0 (Cactus.numArms (Cactus.m_config small_cactus)))
         * (12 * Cactus.segments (Cactus.m_config small_cactus)).
Proof.
  destruct (@Cactus.generateMesh identity_libm identity_glm 6 small_cactus)
    as [m | |e] eqn:Hd; [| vm_compute in Hd; discriminate ..].
  exists m. split; [reflexivity |].
  apply (cactus_mesh_size identity_libm identity_glm small_cactus 6 m);
    [unfold is_u32, u32_modulus; vm_compute; split; [discriminate | reflexivity]
    | exact Hd].
Defined.

(* ================================================================== *)
(** ** The order of binary32 *)

Lemma f32_compare_refl x : F32.is_nan x = false -> SFcompare x x = Some Eq.
Proof.
  destruct x as [s | s | | s m e]; try reflexivity; try discriminate.
  - destruct s; reflexivity.
  - intros _. unfold SFcompare.
    rewrite Z.compare_refl, Pos.compare_cont_refl. destruct s; reflexivity.
Qed.

Lemma f32_le_refl x : F32.is_nan x = false -> (x <=? x)%f32 = true.
Proof. intros Hx. unfold F32.le, SFleb. rewrite f32_compare_refl by exact Hx. reflexivity. Qed.

Lemma f32_eqb_refl x : F32.is_nan x = false -> F32.eqb x x = true.
Proof. intros Hx. unfold F32.eqb, SFeqb. rewrite f32_compare_refl by exact Hx. reflexivity. Qed.

Lemma f32_eqb_not_nan x y :
  F32.eqb x y = true -> F32.is_nan x = false /\ F32.is_nan y = false.
Proof.
  unfold F32.eqb, SFeqb.
  destruct x as [sx | sx | | sx mx ex], y as [sy | sy | | sy my ey];
    cbn; try discriminate; auto.
Qed.

Lemma f32_eqb_sym x y : F32.eqb x y = F32.eqb y x.
Proof.
  unfold F32.eqb, SFeqb. rewrite (compare_antisym y x).
  destruct (SFcompare y x) as [[ | | ]|]; reflexivity.
Qed.

Lemma f32_lt_le x y : (x <? y)%f32 = true -> (x <=? y)%f32 = true.
Proof.
  unfold F32.lt, F32.le, SFltb, SFleb.
  destruct (SFcompare x y) as [[ | | ]|]; congruence.
Qed.

Lemma f32_le_lt_false x y : (x <=? y)%f32 = true -> (y <? x)%f32 = false.
Proof.
  unfold F32.lt, F32.le, SFltb, SFleb. rewrite (compare_antisym x y).
  destruct (SFcompare x y) as [[ | | ]|]; cbn; congruence.
Qed.

Lemma f32_le_lt_false_eqb x y :
  (x <=? y)%f32 = true -> (x <? y)%f32 = false -> F32.eqb y x = true.
Proof.
  unfold F32.lt, F32.le, F32.eqb, SFltb, SFleb, SFeqb.
  rewrite (compare_antisym x y).
  destruct (SFcompare x y) as [[ | | ]|]; cbn; congruence.
Qed.

Ltac order_cases :=
  repeat match goal with
         | H : context [Z.compare ?a ?b] |- _ =>
             destruct (Z.compare_spec a b); try discriminate H
         | H : context [Pos.compare_cont Eq ?a ?b] |- _ =>
             change (Pos.compare_cont Eq a b) with (Pos.compare a b) in H;
             destruct (Pos.compare_spec a b); try discriminate H
         | |- context [Z.compare ?a ?b] =>
             destruct (Z.compare_spec a b)
         | |- context [Pos.compare_cont Eq ?a ?b] =>
             change (Pos.compare_cont Eq a b) with (Pos.compare a b);
             destruct (Pos.compare_spec a b)
         end.

Lemma f32_le_trans x y z :
  (x <=? y)%f32 = true -> (y <=? z)%f32 = true -> (x <=? z)%f32 = true.
Proof.
  unfold F32.le, SFleb, SFcompare.
  destruct x as [sx | sx | | sx mx ex]; try discriminate;
    destruct y as [sy | sy | | sy my ey]; try discriminate;
    destruct z as [sz | sz | | sz mz ez]; try discriminate;
    try destruct sx; try destruct sy; try destruct sz;
    try reflexivity; try discriminate; intros Hxy Hyz;
    order_cases; subst; try reflexivity; try discriminate; exfalso; lia.
Qed.

Lemma f32_eqb_trans x y z :
  F32.eqb x y = true -> F32.eqb y z = true -> F32.eqb x z = true.
Proof.
  unfold F32.eqb, SFeqb, SFcompare.
  destruct x as [sx | sx | | sx mx ex]; try discriminate;
    destruct y as [sy | sy | | sy my ey]; try discriminate;
    destruct z as [sz | sz | | sz mz ez]; try discriminate;
    try destruct sx; try destruct sy; try destruct sz;
    try reflexivity; try discriminate; intros Hxy Hyz;
    order_cases; subst; try reflexivity; try discriminate; exfalso; lia.
Qed.

(** ** glm::min and glm::max *)

Lemma min_not_nan u v : F32.is_nan u = false -> F32.is_nan (glm.min u v) = false.
Proof.
  intros Hu. unfold glm.min. destruct (v <? u)%f32 eqn:Hlt; [| exact Hu].
  apply f32_lt_le, le_not_nan in Hlt. apply Hlt.
Qed.

Lemma max_not_nan u v : F32.is_nan u = false -> F32.is_nan (glm.max u v) = false.
Proof.
  intros Hu. unfold glm.max. destruct (u <? v)%f32 eqn:Hlt; [| exact Hu].
  apply f32_lt_le, le_not_nan in Hlt. apply Hlt.
Qed.

Lemma min_le_l u v : F32.is_nan u = false -> (glm.min u v <=? u)%f32 = true.
Proof.
  intros Hu. unfold glm.min. destruct (v <? u)%f32 eqn:Hlt.
  - apply f32_lt_le. exact Hlt.
  - apply f32_le_refl. exact Hu.
Qed.

Lemma min_le_r u v :
  F32.is_nan u = false -> F32.is_nan v = false -> (glm.min u v <=? v)%f32 = true.
Proof.
  intros Hu Hv. unfold glm.min. destruct (v <? u)%f32 eqn:Hlt.
  - apply f32_le_refl. exact Hv.
  - apply lt_false_le; assumption.
Qed.

Lemma max_ge_l u v : F32.is_nan u = false -> (u <=? glm.max u v)%f32 = true.
Proof.
  intros Hu. unfold glm.max. destruct (u <? v)%f32 eqn:Hlt.
  - apply f32_lt_le. exact Hlt.
  - apply f32_le_refl. exact Hu.
Qed.

Lemma max_ge_r u v :
  F32.is_nan u = false -> F32.is_nan v = false -> (v <=? glm.max u v)%f32 = true.
Proof.
  intros Hu Hv. unfold glm.max. destruct (u <? v)%f32 eqn:Hlt.
  - apply f32_le_refl. exact Hv.
  - apply lt_false_le; assumption.
Qed.

(** One coordinate of the bounds loop. *)
Lemma fold_min_encloses (xs : list float) : forall lo p,
  F32.is_nan lo = false -> In p xs -> F32.is_nan p = false ->
  F32.is_nan (fold_left glm.min xs lo) = false
  /\ (fold_left glm.min xs lo <=? lo)%f32 = true
  /\ (fold_left glm.min xs lo <=? p)%f32 = true.
Proof.
  assert (Hdown : forall xs lo, F32.is_nan lo = false ->
            F32.is_nan (fold_left glm.min xs lo) = false
            /\ (fold_left glm.min xs lo <=? lo)%f32 = true).
  { clear xs. induction xs as [|a xs IH]; intros lo Hlo; cbn [fold_left].
    - split; [exact Hlo | apply f32_le_refl; exact Hlo].
    - destruct (IH (glm.min lo a) (min_not_nan lo a Hlo)) as [Hn Hle].
      split; [exact Hn |].
      eapply f32_le_trans; [exact Hle | apply min_le_l; exact Hlo]. }
  induction xs as [|a xs IH]; intros lo p Hlo Hin Hp; [destruct Hin |].
  cbn [fold_left].
  destruct (Hdown xs (glm.min lo a) (min_not_nan lo a Hlo)) as [Hn Hle].
  split; [exact Hn |]. split.
  - eapply f32_le_trans; [exact Hle | apply min_le_l; exact Hlo].
  - destruct Hin as [<- | Hin].
    + eapply f32_le_trans; [exact Hle | apply (min_le_r lo a Hlo Hp)].
    + apply (IH (glm.min lo a) p (min_not_nan lo a Hlo) Hin Hp).
Qed.

Lemma fold_max_encloses (xs : list float) : forall hi p,
  F32.is_nan hi = false -> In p xs -> F32.is_nan p = false ->
  F32.is_nan (fold_left glm.max xs hi) = false
  /\ (hi <=? fold_left glm.max xs hi)%f32 = true
  /\ (p <=? fold_left glm.max xs hi)%f32 = true.
Proof.
  assert (Hup : forall xs hi, F32.is_nan hi = false ->
            F32.is_nan (fold_left glm.max xs hi) = false
            /\ (hi <=? fold_left glm.max xs hi)%f32 = true).
  { clear xs. induction xs as [|a xs IH]; intros hi Hhi; cbn [fold_left].
    - split; [exact Hhi | apply f32_le_refl; exact Hhi].
    - destruct (IH (glm.max hi a) (max_not_nan hi a Hhi)) as [Hn Hle].
      split; [exact Hn |].
      eapply f32_le_trans; [apply max_ge_l; exact Hhi | exact Hle]. }
  induction xs as [|a xs IH]; intros hi p Hhi Hin Hp; [destruct Hin |].
  cbn [fold_left].
  destruct (Hup xs (glm.max hi a) (max_not_nan hi a Hhi)) as [Hn Hle].
  split; [exact Hn |]. split.
  - eapply f32_le_trans; [apply max_ge_l; exact Hhi | exact Hle].
  - destruct Hin as [<- | Hin].
    + eapply f32_le_trans; [apply (max_ge_r hi a Hhi Hp) | exact Hle].
    + apply (IH (glm.max hi a) p (max_not_nan hi a Hhi) Hin Hp).
Qed.

(** The bounds loop works on each coordinate by itself. *)
Lemma bounds_fold_coordinates (vs : list Vertex.t) : forall lo hi,
  let step := fun (bounds : glm.vec3 * glm.vec3) vertex =>
                (glm.min3 (fst bounds) (Vertex.position vertex),
                 glm.max3 (snd bounds) (Vertex.position vertex)) in
  let coords f := map (fun v => f (Vertex.position v)) vs in
  fold_left step vs (lo, hi)
  = (glm.mk3 (fold_left glm.min (coords glm.x) (glm.x lo))
       (fold_left glm.min (coords glm.y) (glm.y lo))
       (fold_left glm.min (coords glm.z) (glm.z lo)),
     glm.mk3 (fold_left glm.max (coords glm.x) (glm.x hi))
       (fold_left glm.max (coords glm.y) (glm.y hi))
       (fold_left glm.max (coords glm.z) (glm.z hi))).
Proof.
  cbv zeta.
  induction vs as [|v vs IH]; intros lo hi; cbn [fold_left map fst snd].
  - destruct lo, hi. reflexivity.
  - rewrite IH. reflexivity.
Qed.

(** X7: the box [recalculateBounds] computes encloses the vertices: for
    every vertex of the mesh and each of x, y and z, a coordinate that is not
    a NaN lies between that coordinate of [minBounds] and of [maxBounds]. *)
Theorem bounds_enclose_vertices
    (vs : list Vertex.t) (ixs : list Z) (v : Vertex.t) :
  In v vs ->
  let m := Mesh.make vs ixs in
  let p := Vertex.position v in
  let within (lo c hi : float) :=
    F32.is_nan c = false ->
    (lo <=? c)%f32 = true /\ (c <=? hi)%f32 = true in
  within (glm.x (Mesh.minBounds m)) (glm.x p) (glm.x (Mesh.maxBounds m))
  /\ within (glm.y (Mesh.minBounds m)) (glm.y p) (glm.y (Mesh.maxBounds m))
  /\ within (glm.z (Mesh.minBounds m)) (glm.z p) (glm.z (Mesh.maxBounds m)).
Proof.
  intros Hin. cbv zeta. unfold Mesh.make, Mesh.recalculateBounds.
  destruct vs as [|v0 vs0] eqn:Hvs; [destruct Hin |]. rewrite <- Hvs in *.
  clear Hvs v0 vs0.
  rewrite bounds_fold_coordinates. cbn [Mesh.minBounds Mesh.maxBounds glm.x glm.y glm.z glm.splat3].
  repeat split;
    first [ eapply fold_min_encloses | eapply fold_max_encloses ];
    try reflexivity; try assumption;
    apply (in_map (fun v => _ (Vertex.position v))); exact Hin.
Qed.

Lemma bounds_enclose_vertices_witness :
  (glm.x (Mesh.minBounds (Mesh.make [nan_z_vertex; plain_vertex] []))
   <=? F32.one)%f32 = true
  /\ (F32.one
      <=? glm.x (Mesh.maxBounds (Mesh.make [nan_z_vertex; plain_vertex] [])))%f32
     = true.
Proof.
  destruct (bounds_enclose_vertices [nan_z_vertex; plain_vertex] []
              nan_z_vertex (or_introl eq_refl)) as (Hx & _ & _).
  exact (Hx eq_refl).
Defined.

Lemma fold_min_all_nan (xs : list float) lo :
  Forall (fun c => F32.is_nan c = true) xs -> fold_left glm.min xs lo = lo.
Proof.
  intros Hall. revert lo.
  induction Hall as [|c xs Hc _ IH]; intros lo; cbn [fold_left]; [reflexivity |].
  rewrite IH. unfold glm.min. destruct c; try discriminate. reflexivity.
Qed.

Lemma fold_max_all_nan (xs : list float) hi :
  Forall (fun c => F32.is_nan c = true) xs -> fold_left glm.max xs hi = hi.
Proof.
  intros Hall. revert hi.
  induction Hall as [|c xs Hc _ IH]; intros hi; cbn [fold_left]; [reflexivity |].
  rewrite IH. unfold glm.max. destruct c; try discriminate.
  destruct hi; reflexivity.
Qed.

(** X8: a NaN coordinate never enters the bounds, as both comparisons with
    it are false: when every vertex of a non-empty mesh has a NaN x (or y,
    or z), that coordinate of the box stays at its initial values, the
    minimum at [FLT_MAX] and the maximum at [lowest()], the minimum above the
    maximum. *)
Theorem bounds_skip_nan_positions
    (vs : list Vertex.t) (ixs : list Z) (coordinate : glm.vec3 -> float) :
  In coordinate [glm.x; glm.y; glm.z] ->
  vs <> [] ->
  Forall (fun v => F32.is_nan (coordinate (Vertex.position v)) = true) vs ->
  let m := Mesh.make vs ixs in
  coordinate (Mesh.minBounds m) = F32.max_float
  /\ coordinate (Mesh.maxBounds m) = F32.lowest.
Proof.
  intros Hcoord Hne Hall. cbv zeta. unfold Mesh.make, Mesh.recalculateBounds.
  destruct vs as [|v0 vs0] eqn:Hvs; [contradiction |]. rewrite <- Hvs in *.
  clear Hvs v0 vs0 Hne.
  rewrite bounds_fold_coordinates.
  cbn [Mesh.minBounds Mesh.maxBounds glm.x glm.y glm.z glm.splat3].
  assert (Hmap : Forall (fun c => F32.is_nan c = true)
                   (map (fun v => coordinate (Vertex.position v)) vs))
    by (apply Forall_map; exact Hall).
  destruct Hcoord as [<- | [<- | [<- | []]]];
    cbn [glm.x glm.y glm.z];
    rewrite fold_min_all_nan, fold_max_all_nan by exact Hmap;
    split; reflexivity.
Qed.

Lemma bounds_skip_nan_positions_witness :
  glm.z (Mesh.minBounds (Mesh.make [nan_z_vertex] [])) = F32.max_float
  /\ glm.z (Mesh.maxBounds (Mesh.make [nan_z_vertex] [])) = F32.lowest.
Proof.
  apply (bounds_skip_nan_positions [nan_z_vertex] [] glm.z).
  - right. right. left. reflexivity.
  - discriminate.
  - repeat constructor.
Defined.

(** ** Vertex::operator== *)

Lemma eq3_sym u v : glm.eq3 u v = glm.eq3 v u.
Proof.
  unfold glm.eq3.
  rewrite (f32_eqb_sym (glm.x u)), (f32_eqb_sym (glm.y u)), (f32_eqb_sym (glm.z u)).
  reflexivity.
Qed.

Lemma eq2_sym u v : glm.eq2 u v = glm.eq2 v u.
Proof.
  unfold glm.eq2. rewrite (f32_eqb_sym (glm.x2 u)), (f32_eqb_sym (glm.y2 u)). reflexivity.
Qed.

Lemma eq3_trans u v w : glm.eq3 u v = true -> glm.eq3 v w = true -> glm.eq3 u w = true.
Proof.
  unfold glm.eq3. rewrite !andb_true_iff.
  intros [[H1 H2] H3] [[K1 K2] K3].
  repeat split; eapply f32_eqb_trans; eassumption.
Qed.

Lemma eq2_trans u v w : glm.eq2 u v = true -> glm.eq2 v w = true -> glm.eq2 u w = true.
Proof.
  unfold glm.eq2. rewrite !andb_true_iff.
  intros [H1 H2] [K1 K2]. split; eapply f32_eqb_trans; eassumption.
Qed.

Lemma f32_eqb_self x : F32.eqb x x = negb (F32.is_nan x).
Proof.
  destruct (F32.is_nan x) eqn:Hx.
  - destruct x; try discriminate. reflexivity.
  - apply f32_eqb_refl. exact Hx.
Qed.

(** X9: [Vertex::operator==] is symmetric and transitive, and a vertex
    equals itself exactly when none of its eleven components is a NaN (the
    two zeros compare equal). *)
Theorem Vertex_eq_partial_equivalence (u v w : Vertex.t) :
  Vertex.eqb u v = Vertex.eqb v u
  /\ (Vertex.eqb u v = true -> Vertex.eqb v w = true -> Vertex.eqb u w = true)
  /\ Vertex.eqb v v = Vertex_no_nan v.
Proof.
  split; [| split].
  - unfold Vertex.eqb.
    rewrite (eq3_sym (Vertex.position u)), (eq3_sym (Vertex.normal u)),
      (eq2_sym (Vertex.texCoord u)), (eq3_sym (Vertex.color u)).
    reflexivity.
  - unfold Vertex.eqb. rewrite !andb_true_iff.
    intros [[[H1 H2] H3] H4] [[[K1 K2] K3] K4].
    repeat split;
      first [eapply eq3_trans; eassumption | eapply eq2_trans; eassumption].
  - unfold Vertex.eqb, Vertex_no_nan, glm.eq3, glm.eq2, no_nan3, no_nan2.
    rewrite !f32_eqb_self. reflexivity.
Qed.

Lemma Vertex_eq_partial_equivalence_witness :
  Vertex.eqb plain_vertex (minus_zero_vertex) = true
  /\ Vertex.eqb minus_zero_vertex plain_vertex = true
  /\ Vertex.eqb plain_vertex plain_vertex = true.
Proof.
  destruct (Vertex_eq_partial_equivalence plain_vertex minus_zero_vertex
              plain_vertex) as (Hsym & Htrans & _).
  split; [reflexivity |]. split; [reflexivity |].
  apply Htrans; reflexivity.
Defined.

(** ** Cactus::grow at and beyond the ends of the range *)

Lemma clamp_keeps v :
  growth_in_range v = true -> glm.clamp v (F32.dec 1 1) (F32.of_Z 4) = v.
Proof.
  unfold growth_in_range. rewrite andb_true_iff. intros [Hlo Hhi].
  unfold glm.clamp, glm.max, glm.min.
  rewrite (f32_le_lt_false _ _ Hlo). rewrite (f32_le_lt_false _ _ Hhi). reflexivity.
Qed.

Lemma clamp_above v :
  (F32.of_Z 4 <=? v)%f32 = true ->
  glm.clamp v (F32.dec 1 1) (F32.of_Z 4) = F32.of_Z 4.
Proof.
  intros Hhi. unfold glm.clamp, glm.max, glm.min.
  assert (Hlo : (F32.dec 1 1 <=? v)%f32 = true)
    by (eapply f32_le_trans; [| exact Hhi]; reflexivity).
  rewrite (f32_le_lt_false _ _ Hlo).
  destruct (F32.of_Z 4 <? v)%f32 eqn:Hlt; [reflexivity |].
  apply f32_le_lt_false_eqb in Hlt; [| exact Hhi].
  destruct literal_encodings as (_ & _ & _ & _ & _ & _ & _ & H4 & _).
  rewrite H4 in *. apply eqb_finite_r in Hlt. exact Hlt.
Qed.

Lemma clamp_below v :
  (v <=? F32.dec 1 1)%f32 = true ->
  glm.clamp v (F32.dec 1 1) (F32.of_Z 4) = F32.dec 1 1.
Proof.
  intros Hlo. unfold glm.clamp, glm.max, glm.min.
  destruct literal_encodings as (H01 & _).
  destruct (v <? F32.dec 1 1)%f32 eqn:Hlt.
  - reflexivity.
  - apply f32_le_lt_false_eqb in Hlt; [| exact Hlo].
    rewrite f32_eqb_sym in Hlt. rewrite H01 in Hlt. apply eqb_finite_r in Hlt.
    rewrite Hlt, <- H01. reflexivity.
Qed.

(** X10: [grow] saturates exactly at the ends of the range: when the sum
    [m_growthFactor + amount] is at least [4.0f] the new factor is [4.0f],
    when it is at most [0.1f] the new factor is [0.1f], and a sum inside the
    range is stored unchanged. *)
Theorem grow_saturates (amount : float) (c : Cactus.t) :
  let sum := (Cactus.getGrowthFactor c + amount)%f32 in
  let after := Cactus.getGrowthFactor (Cactus.grow amount c) in
  ((F32.of_Z 4 <=? sum)%f32 = true -> after = F32.of_Z 4)
  /\ ((sum <=? F32.dec 1 1)%f32 = true -> after = F32.dec 1 1)
  /\ (growth_in_range sum = true -> after = sum).
Proof.
  cbv zeta. unfold Cactus.grow, Cactus.getGrowthFactor, Cactus.setGrowthFactor.
  cbn [Cactus.m_growthFactor].
  split; [apply clamp_above |]. split; [apply clamp_below | apply clamp_keeps].
Qed.

Lemma grow_saturates_witness :
  Cactus.getGrowthFactor (Cactus.grow F32.infinity small_cactus) = F32.of_Z 4
  /\ Cactus.getGrowthFactor (Cactus.grow (F32.opp F32.infinity) small_cactus)
     = F32.dec 1 1
  /\ Cactus.getGrowthFactor (Cactus.grow F32.half small_cactus)
     = (F32.one + F32.half)%f32.
Proof.
  destruct (grow_saturates F32.infinity small_cactus) as (Hup & _ & _).
  destruct (grow_saturates (F32.opp F32.infinity) small_cactus) as (_ & Hdown & _).
  destruct (grow_saturates F32.half small_cactus) as (_ & _ & Hin).
  split; [apply Hup; reflexivity |].
  split; [apply Hdown; reflexivity | apply Hin; reflexivity].
Defined.

(** X11: growing by zero (of either sign) leaves a cactus whose factor is
    in [0.1f, 4.0f] as it was. *)
Theorem grow_zero_is_identity (sign : bool) (c : Cactus.t) :
  growth_in_range (Cactus.getGrowthFactor c) = true ->
  Cactus.grow (S754_zero sign) c = c.
Proof.
  intros Hc. pose proof (in_range_finite _ Hc) as Hfin.
  unfold Cactus.grow, Cactus.setGrowthFactor, Cactus.getGrowthFactor in *.
  destruct c as [cfg g burning]. cbn [Cactus.m_growthFactor Cactus.m_config Cactus.m_isBurning] in *.
  assert (Hsum : (g + S754_zero sign)%f32 = g).
  { destruct g as [s | s | | s m e]; try discriminate Hfin; [discriminate Hc |].
    reflexivity. }
  rewrite Hsum, clamp_keeps by exact Hc. reflexivity.
Qed.

Lemma grow_zero_is_identity_witness :
  Cactus.grow F32.zero small_cactus = small_cactus.
Proof. apply (grow_zero_is_identity false small_cactus). reflexivity. Defined.

(* ================================================================== *)
(** ** More of ParticleSystem.h *)

Section MoreParticles.
Variable R : Type.
Variable dist : R -> float * R.
Context {order : PS.EvaluationOrder}.

Lemma count_alive_app ps qs :
  PS.count_alive (ps ++ qs) = PS.count_alive ps + PS.count_alive qs.
Proof.
  rewrite !count_alive_filter, filter_app, length_app. lia.
Qed.

Lemma count_alive_all ps :
  Forall (fun p => Particle.isAlive p = false) ps -> PS.count_alive ps = 0.
Proof.
  intros Hd. rewrite count_alive_filter.
  induction Hd as [|p ps Hp _ IH]; [reflexivity |].
  cbn [filter]. rewrite Hp. exact IH.
Qed.

Lemma emit_scan_first_dead cfg front dead back g :
  Forall (fun p => Particle.isAlive p = true) front ->
  Particle.isAlive dead = false ->
  PS.emit_scan R dist cfg (front ++ dead :: back) g
  = (front ++ fst (PS.respawn R dist cfg dead g) :: back,
     snd (PS.respawn R dist cfg dead g)).
Proof.
  intros Hfront Hdead.
  induction Hfront as [|p front Hp _ IH]; cbn [app PS.emit_scan].
  - rewrite Hdead. destruct (PS.respawn R dist cfg dead g). reflexivity.
  - rewrite Hp, IH. reflexivity.
Qed.

Lemma respawn_fields cfg p g :
  let born := fst (PS.respawn R dist cfg p g) in
  Particle.life born = Particle.maxLife born
  /\ Particle.color born = PS.startColor cfg
  /\ Particle.size born = PS.startSize cfg.
Proof.
  unfold PS.respawn.
  destruct (PS.random_offset R dist PS.position_order (PS.positionVariance cfg) g)
    as [dpos g1].
  destruct (PS.random_offset R dist PS.velocity_order (PS.velocityVariance cfg) g1)
    as [dvel g2].
  destruct (PS.randomRange R dist (PS.minLife cfg) (PS.maxLife cfg) g2) as [l g3].
  cbn. auto.
Qed.

Lemma emit_loop_buffers fuel : forall (st st' : PS.t R),
  PS.emit_loop dist fuel st = Done st' ->
  PS.vertices st' = PS.vertices st /\ PS.indices st' = PS.indices st.
Proof.
  induction fuel as [|fuel IH]; intros st st' Hd; cbn [PS.emit_loop] in Hd;
    [discriminate |].
  destruct (PS.emissionAccumulator st >=? F32.one)%f32.
  - apply IH in Hd. cbn in Hd.
    destruct (emitParticle_frame R dist st) as (_ & _ & _ & _ & Hv & Hi & _).
    destruct Hd as [-> ->]. split; assumption.
  - injection Hd as <-. split; reflexivity.
Qed.

Lemma update_buffers fuel dt (st st' : PS.t R) :
  PS.update dist fuel dt st = Done st' ->
  PS.vertices st' = PS.vertices st /\ PS.indices st' = PS.indices st.
Proof.
  rewrite update_unfold. destruct (idle st).
  - intros Hd. injection Hd as <-. split; reflexivity.
  - intros Hd. bind_inv Hd. injection Hd as <-. cbn.
    assert (Hc : PS.vertices (after_clock dt st) = PS.vertices st
                 /\ PS.indices (after_clock dt st) = PS.indices st).
    { unfold after_clock. cbv zeta.
      match goal with |- context [if ?b then _ else _] => destruct b end;
        split; reflexivity. }
    unfold emission in E. destruct (PS.active (after_clock dt st)).
    + apply emit_loop_buffers in E. cbn in E. destruct E as [-> ->]. exact Hc.
    + injection E as <-. exact Hc.
Qed.

Lemma after_clock_active dt (st : PS.t R) :
  PS.active (after_clock dt st) = PS.active st && negb (expires dt st).
Proof.
  unfold after_clock, expires. cbv zeta. cbn.
  destruct (negb (PS.looping (PS.config st))
            && (PS.duration (PS.config st) >? F32.zero)%f32
            && (PS.systemTime st + dt >? PS.duration (PS.config st))%f32);
    cbn; [rewrite andb_false_r | rewrite andb_true_r]; reflexivity.
Qed.

Lemma after_clock_rest dt (st : PS.t R) :
  PS.rng (after_clock dt st) = PS.rng st
  /\ PS.systemTime (after_clock dt st) = (PS.systemTime st + dt)%f32.
Proof.
  unfold after_clock. cbv zeta. cbn.
  match goal with |- context [if ?b then _ else _] => destruct b end;
    split; reflexivity.
Qed.

Lemma update_inactive fuel dt (st : PS.t R) :
  PS.active (after_clock dt st) = false ->
  PS.update dist fuel dt st
  = if idle st then Done st
    else Done (PS.set_particles
                 (map (PS.integrate (PS.config st) dt) (PS.particles st))
                 (after_clock dt st)).
Proof.
  intros Ha. rewrite update_unfold. destruct (idle st); [reflexivity |].
  unfold emission. rewrite Ha. cbn [bind].
  destruct (after_clock_frame R dt st) as (-> & -> & _). reflexivity.
Qed.

Lemma update_active_flag fuel dt (st st' : PS.t R) :
  PS.update dist fuel dt st = Done st' ->
  PS.active st' = PS.active st && negb (expires dt st).
Proof.
  intros Hd. rewrite update_unfold in Hd.
  destruct (idle st) eqn:Hidle.
  - injection Hd as <-. unfold idle in Hidle.
    apply andb_prop in Hidle. destruct Hidle as [Ha _].
    destruct (PS.active st); [discriminate | reflexivity].
  - bind_inv Hd. injection Hd as <-. cbn [PS.active PS.set_particles].
    rewrite <- after_clock_active.
    unfold emission in E. destruct (PS.active (after_clock dt st)) eqn:Ha.
    + apply emit_loop_frame in E. destruct E as (_ & -> & _). exact Ha.
    + injection E as <-. exact Ha.
Qed.

Lemma idle_unfold (st : PS.t R) :
  idle st = negb (PS.active st) && (PS.getAliveCount st =? 0).
Proof. reflexivity. Qed.

End MoreParticles.

(** X12: with a dead slot in the pool, [emitParticle] rewrites the first
    dead slot and nothing else, in whatever order the build evaluates the
    arguments of the two [glm::vec3] calls: the slots before and after it
    are kept, the new particle has [life = maxLife], the start colour and
    the start size of the config, whatever the slot held, and the alive
    count goes up by one exactly when the drawn life is positive. *)
Theorem emitParticle_recycles_first_dead
    (R : Type) (dist : R -> float * R)
    (order : PS.EvaluationOrder) (st : PS.t R)
    (front back : list Particle.t) (dead : Particle.t) :
  PS.particles st = front ++ dead :: back ->
  Forall (fun p => Particle.isAlive p = true) front ->
  Particle.isAlive dead = false ->
  let born := fst (PS.respawn R dist (PS.config st) dead (PS.rng st)) in
  let st' := PS.emitParticle dist st in
  PS.particles st' = front ++ born :: back
  /\ PS.rng st' = snd (PS.respawn R dist (PS.config st) dead (PS.rng st))
  /\ Particle.life born = Particle.maxLife born
  /\ Particle.color born = PS.startColor (PS.config st)
  /\ Particle.size born = PS.startSize (PS.config st)
  /\ PS.getAliveCount st'
     = PS.getAliveCount st + (if Particle.isAlive born then 1 else 0).
Proof.
  intros Hps Hfront Hdead. cbv zeta.
  destruct (respawn_fields R dist (PS.config st) dead (PS.rng st))
    as (Hl & Hc & Hs).
  unfold PS.emitParticle, PS.getAliveCount.
  rewrite Hps, (emit_scan_first_dead R dist _ front dead back _ Hfront Hdead).
  cbn [PS.particles PS.rng PS.set_rng PS.set_particles].
  repeat split; try assumption.
  rewrite !count_alive_app.
  change (?p :: back) with ([p] ++ back). rewrite !count_alive_app.
  unfold PS.count_alive at 2 5. cbn [fold_left]. rewrite Hdead.
  match goal with
  | |- context [if ?b then 1 else 0] => destruct b
  end; lia.
Qed.

Lemma emitParticle_recycles_first_dead_witness :
  exists born,
    PS.particles (PS.emitParticle (order := right_to_left) steady_rng half_dead_system)
    = [sample_particle F32.two F32.two; born; sample_particle F32.zero F32.two]
    /\ PS.getAliveCount (PS.emitParticle (order := right_to_left) steady_rng half_dead_system) = 2.
Proof.
  destruct (emitParticle_recycles_first_dead unit steady_rng right_to_left half_dead_system
              [sample_particle F32.two F32.two]
              [sample_particle F32.zero F32.two]
              (sample_particle F32.zero F32.two) eq_refl)
    as (Hps & _ & _ & _ & _ & Hcount).
  - repeat constructor.
  - reflexivity.
  - eexists. split; [exact Hps |]. rewrite Hcount. vm_compute. reflexivity.
Defined.

(** X13: on a stopped system [update] returns whatever the fuel, emits
    nothing (generator and emission credit untouched), stays stopped, only
    integrates the pool, never raises the alive count, and changes nothing
    at all once no particle is alive. *)
Theorem stopped_system_only_drains
    (R : Type) (dist : R -> float * R)
    (order : PS.EvaluationOrder) (st : PS.t R) (fuel : nat) (dt : float) :
  PS.isActive st = false ->
  exists st',
    PS.update dist fuel dt st = Done st'
    /\ PS.isActive st' = false
    /\ PS.rng st' = PS.rng st
    /\ PS.emissionAccumulator st' = PS.emissionAccumulator st
    /\ PS.particles st'
       = map (PS.integrate (PS.config st) dt) (PS.particles st)
    /\ PS.getAliveCount st' <= PS.getAliveCount st
    /\ (PS.getAliveCount st = 0 -> st' = st).
Proof.
  unfold PS.isActive. intros Ha.
  assert (Hc : PS.active (after_clock dt st) = false)
    by (rewrite after_clock_active, Ha; reflexivity).
  rewrite (update_inactive R dist fuel dt st Hc), idle_unfold, Ha.
  cbn [negb andb].
  destruct (PS.getAliveCount st =? 0) eqn:Hz.
  - apply Z.eqb_eq in Hz. exists st.
    pose proof (count_alive_zero_dead _ Hz) as Hdead.
    rewrite (map_integrate_dead _ _ _ Hdead).
    repeat split; try reflexivity; try assumption; lia.
  - apply Z.eqb_neq in Hz. eexists. split; [reflexivity |].
    cbn [PS.active PS.rng PS.emissionAccumulator PS.particles PS.set_particles].
    destruct (after_clock_frame R dt st) as (_ & _ & Hacc).
    destruct (after_clock_rest R dt st) as (Hrng & _).
    repeat split; try assumption; try contradiction.
    apply integrate_alive_count.
Qed.

Lemma stopped_system_only_drains_witness :
  exists st',
    PS.update (order := right_to_left) steady_rng 0 F32.one (PS.stop full_system) = Done st'
    /\ PS.isActive st' = false
    /\ PS.emissionAccumulator st' = F32.one
    /\ PS.getAliveCount st' <= 1.
Proof.
  destruct (stopped_system_only_drains unit steady_rng right_to_left (PS.stop full_system)
              0 F32.one eq_refl)
    as (st' & Hd & Ha & _ & Hacc & _ & Hcount & _).
  exists st'. repeat split; assumption.
Defined.

(** X14: [update] never activates a system, and deactivates it exactly
    when the effect is not looping, its duration is positive and the clock
    advanced by [deltaTime] is past the duration; the call that expires
    emits nothing and returns whatever the fuel. *)
Theorem update_deactivates_on_expiry
    (R : Type) (dist : R -> float * R)
    (order : PS.EvaluationOrder) (st : PS.t R) (fuel : nat) (dt : float) :
  (forall st',
     PS.update dist fuel dt st = Done st' ->
     PS.isActive st' = PS.isActive st && negb (expires dt st))
  /\ (expires dt st = true ->
      exists st',
        PS.update dist fuel dt st = Done st'
        /\ PS.rng st' = PS.rng st
        /\ PS.emissionAccumulator st' = PS.emissionAccumulator st).
Proof.
  split.
  - intros st' Hd. apply (update_active_flag R dist fuel dt st st' Hd).
  - intros He.
    assert (Hc : PS.active (after_clock dt st) = false)
      by (rewrite after_clock_active, He; apply andb_false_r).
    rewrite (update_inactive R dist fuel dt st Hc).
    destruct (idle st).
    + exists st. repeat split; reflexivity.
    + eexists. split; [reflexivity |].
      cbn [PS.rng PS.emissionAccumulator PS.set_particles].
      destruct (after_clock_frame R dt st) as (_ & _ & Hacc).
      destruct (after_clock_rest R dt st) as (Hrng & _).
      split; assumption.
Qed.

(** X15: the vertex and index buffers are written by [generateVertices]
    only: [update], [start], [stop], both [init] and [setPosition] leave
    them as they were (so they are stale after an [update]), and a second
    [generateVertices] overwrites what the first one produced. *)
Theorem buffers_change_only_in_generateVertices
    (R : Type) (dist : R -> float * R)
    (order : PS.EvaluationOrder) (st : PS.t R) :
  let same_buffers (st' : PS.t R) :=
    PS.vertices st' = PS.vertices st /\ PS.indices st' = PS.indices st in
  (forall c st', exec dist c st = Done st' -> same_buffers st')
  /\ (forall cfg st', PS.init cfg st = Done st' -> same_buffers st')
  /\ (forall type pos st', PS.init_preset type pos st = Done st' -> same_buffers st')
  /\ (forall pos, same_buffers (PS.setPosition pos st))
  /\ (forall cameraRight cameraUp right' up',
        PS.generateVertices cameraRight cameraUp
          (PS.generateVertices right' up' st)
        = PS.generateVertices cameraRight cameraUp st).
Proof.
  cbv zeta. split; [| split; [| split; [| split]]].
  - intros [fuel dt | |] st' Hd; cbn [exec] in Hd.
    + eapply update_buffers. exact Hd.
    + injection Hd as <-. split; reflexivity.
    + injection Hd as <-. split; reflexivity.
  - intros cfg st'. unfold PS.init. cbv zeta.
    repeat match goal with
           | |- context [if ?b then _ else _] => destruct b; try discriminate
           end.
    intros Hd. injection Hd as <-. split; reflexivity.
  - intros type pos st'. unfold PS.init_preset. cbv zeta.
    repeat match goal with
           | |- context [if ?b then _ else _] => destruct b; try discriminate
           end.
    intros Hd. injection Hd as <-. split; reflexivity.
  - intros pos. split; reflexivity.
  - intros cameraRight cameraUp right' up'. unfold PS.generateVertices.
    destruct (PS.generate_loop right' up' (PS.particles st) 0 [] []) as [vs ixs].
    cbn [PS.particles PS.config PS.active PS.emissionAccumulator PS.systemTime PS.rng].
    reflexivity.
Qed.

Lemma buffers_change_only_in_generateVertices_witness :
  exists st',
    PS.update (order := right_to_left) steady_rng 20 F32.one
      (PS.generateVertices (glm.splat3 F32.one) (glm.splat3 F32.one) full_system)
    = Done st'
    /\ PS.getVertexCount st' = 4.
Proof.
  destruct (PS.update (order := right_to_left) steady_rng 20 F32.one
              (PS.generateVertices (glm.splat3 F32.one) (glm.splat3 F32.one)
                 full_system)) as [st' | |e] eqn:Hd;
    [| vm_compute in Hd; discriminate ..].
  exists st'. split; [reflexivity |].
  destruct (buffers_change_only_in_generateVertices unit steady_rng right_to_left
              (PS.generateVertices (glm.splat3 F32.one) (glm.splat3 F32.one)
                 full_system)) as (Hexec & _).
  destruct (Hexec (Update 20 F32.one) st' Hd) as [Hv _].
  unfold PS.getVertexCount. rewrite Hv. reflexivity.
Defined.

Lemma update_deactivates_on_expiry_witness :
  exists st',
    PS.update (order := right_to_left) steady_rng 0 F32.two one_shot_system = Done st'
    /\ PS.isActive st' = false
    /\ PS.emissionAccumulator st' = F32.zero.
Proof.
  destruct (update_deactivates_on_expiry unit steady_rng right_to_left one_shot_system
              0 F32.two) as [Hflag Hquiet].
  destruct (Hquiet eq_refl) as (st' & Hd & _ & Hacc).
  exists st'. split; [exact Hd |]. split; [| exact Hacc].
  rewrite (Hflag st' Hd). reflexivity.
Defined.

Section NanTime.
Variable R : Type.
Variable dist : R -> float * R.
Context {order : PS.EvaluationOrder}.

Lemma add_nan_l y : (F32.nan + y)%f32 = F32.nan.
Proof. reflexivity. Qed.

Lemma add_nan_r x : (x + F32.nan)%f32 = F32.nan.
Proof. destruct x; reflexivity. Qed.

Lemma sub_nan_r x : (x - F32.nan)%f32 = F32.nan.
Proof. destruct x; reflexivity. Qed.

Lemma mul_nan_r x : (x * F32.nan)%f32 = F32.nan.
Proof. destruct x; reflexivity. Qed.

Lemma is_nan_eq x : F32.is_nan x = true -> x = F32.nan.
Proof. destruct x; try discriminate. reflexivity. Qed.

Lemma integrate_nan_dead cfg p :
  Particle.isAlive (PS.integrate cfg F32.nan p) = false.
Proof.
  unfold PS.integrate. destruct (Particle.isAlive p) eqn:Hp; cbn [negb].
  - cbv zeta. unfold Particle.isAlive at 1. cbn [Particle.life].
    rewrite sub_nan_r. reflexivity.
  - exact Hp.
Qed.

Lemma emit_loop_nan fuel (st : PS.t R) :
  F32.is_nan (PS.emissionAccumulator st) = true ->
  PS.emit_loop dist (S fuel) st = Done st.
Proof.
  intros Hn. cbn [PS.emit_loop]. rewrite (is_nan_eq _ Hn). reflexivity.
Qed.

Lemma emit_loop_nan_Done fuel (st st' : PS.t R) :
  F32.is_nan (PS.emissionAccumulator st) = true ->
  PS.emit_loop dist fuel st = Done st' -> st' = st.
Proof.
  intros Hn. destruct fuel as [|fuel]; [discriminate |].
  rewrite emit_loop_nan by exact Hn. congruence.
Qed.

Lemma update_nan_credit fuel dt (st st' : PS.t R) :
  F32.is_nan (PS.emissionAccumulator st) = true ->
  PS.update dist fuel dt st = Done st' ->
  F32.is_nan (PS.emissionAccumulator st') = true
  /\ PS.rng st' = PS.rng st
  /\ PS.getAliveCount st' <= PS.getAliveCount st.
Proof.
  intros Hn. rewrite update_unfold. destruct (idle st).
  - intros Hd. injection Hd as <-. repeat split; [exact Hn | lia].
  - intros Hd. bind_inv Hd. injection Hd as <-.
    destruct (after_clock_frame R dt st) as (Hcfg & Hps & Hacc).
    destruct (after_clock_rest R dt st) as (Hrng & _).
    assert (Ha : a = after_clock dt st
                 \/ a = PS.set_emissionAccumulator F32.nan (after_clock dt st)).
    { unfold emission in E. destruct (PS.active (after_clock dt st)).
      - rewrite Hacc, (is_nan_eq _ Hn), add_nan_l in E.
        apply emit_loop_nan_Done in E; [right; exact E | reflexivity].
      - left. congruence. }
    unfold PS.getAliveCount.
    cbn [PS.emissionAccumulator PS.rng PS.particles PS.set_particles].
    destruct Ha as [-> | ->];
      cbn [PS.emissionAccumulator PS.rng PS.particles PS.config
           PS.set_emissionAccumulator];
      rewrite ?Hacc, ?Hrng, ?Hps;
      repeat split; try exact Hn; try reflexivity; apply integrate_alive_count.
Qed.

Lemma run_nan_credit calls : forall (st st' : PS.t R),
  F32.is_nan (PS.emissionAccumulator st) = true ->
  run dist calls st = Done st' ->
  F32.is_nan (PS.emissionAccumulator st') = true
  /\ PS.rng st' = PS.rng st
  /\ PS.getAliveCount st' <= PS.getAliveCount st.
Proof.
  induction calls as [|c calls IH]; intros st st' Hn Hd; cbn [run] in Hd.
  - injection Hd as <-. repeat split; [exact Hn | lia].
  - bind_inv Hd.
    assert (Hstep : F32.is_nan (PS.emissionAccumulator a) = true
                    /\ PS.rng a = PS.rng st
                    /\ PS.getAliveCount a <= PS.getAliveCount st).
    { destruct c as [fuel dt | |]; cbn [exec] in E.
      - eapply update_nan_credit; eassumption.
      - injection E as <-. repeat split; [exact Hn |].
        unfold PS.getAliveCount, PS.start. cbn [PS.particles PS.set_active]. lia.
      - injection E as <-. repeat split; [exact Hn |].
        unfold PS.getAliveCount, PS.stop. cbn [PS.particles PS.set_active]. lia. }
    destruct Hstep as (Hn' & Hrng & Hcount).
    destruct (IH a st' Hn' Hd) as (Hn2 & Hrng2 & Hcount2).
    repeat split; [exact Hn2 | congruence | lia].
Qed.

End NanTime.

(** X16: [update(NaN)] on an active system returns after one test of the
    emission loop, leaves no particle alive, and leaves both the emission
    credit and the system clock NaN; the system stays active and nothing
    was drawn from the generator. *)
Theorem nan_delta_time_kills_every_particle
    (R : Type) (dist : R -> float * R)
    (order : PS.EvaluationOrder) (st : PS.t R) (fuel : nat) :
  PS.isActive st = true ->
  exists st',
    PS.update dist (S fuel) F32.nan st = Done st'
    /\ PS.getAliveCount st' = 0
    /\ F32.is_nan (PS.emissionAccumulator st') = true
    /\ F32.is_nan (PS.systemTime st') = true
    /\ PS.isActive st' = true
    /\ PS.rng st' = PS.rng st.
Proof.
  unfold PS.isActive. intros Ha.
  rewrite update_unfold, idle_unfold, Ha. cbn [negb andb].
  assert (Hclock : after_clock F32.nan st = PS.set_systemTime F32.nan st).
  { unfold after_clock. cbv zeta. cbn [PS.systemTime PS.config PS.set_systemTime].
    rewrite add_nan_r.
    replace (F32.nan >? PS.duration (PS.config st))%f32 with false
      by (unfold F32.gt; destruct (PS.duration (PS.config st)); reflexivity).
    rewrite andb_false_r. reflexivity. }
  rewrite Hclock. unfold emission.
  cbn [PS.active PS.set_systemTime PS.emissionAccumulator PS.config].
  rewrite Ha, mul_nan_r, add_nan_r.
  rewrite emit_loop_nan by reflexivity. cbn [bind].
  eexists. split; [reflexivity |].
  unfold PS.getAliveCount.
  cbn [PS.particles PS.set_particles PS.set_emissionAccumulator PS.set_systemTime
       PS.emissionAccumulator PS.systemTime PS.active PS.rng PS.config].
  repeat split; try assumption.
  apply count_alive_all. apply Forall_map. apply Forall_forall.
  intros p _. apply integrate_nan_dead.
Qed.

Lemma nan_delta_time_kills_every_particle_witness :
  exists st',
    PS.update (order := right_to_left) steady_rng 1 F32.nan full_system = Done st'
    /\ PS.getAliveCount full_system = 1
    /\ PS.getAliveCount st' = 0.
Proof.
  destruct (nan_delta_time_kills_every_particle unit steady_rng right_to_left full_system 0
              eq_refl) as (st' & Hd & Hcount & _).
  exists st'. repeat split; [exact Hd | exact Hcount].
Defined.

(** X17: a NaN emission credit is permanent: no sequence of [update],
    [start] and [stop] calls clears it, draws from the generator or raises
    the alive count, and neither [init] resets it. *)
Theorem nan_credit_is_permanent
    (R : Type) (dist : R -> float * R)
    (order : PS.EvaluationOrder) (st : PS.t R) :
  F32.is_nan (PS.emissionAccumulator st) = true ->
  (forall calls st',
     run dist calls st = Done st' ->
     F32.is_nan (PS.emissionAccumulator st') = true
     /\ PS.rng st' = PS.rng st
     /\ PS.getAliveCount st' <= PS.getAliveCount st)
  /\ (forall cfg st',
        PS.init cfg st = Done st' ->
        F32.is_nan (PS.emissionAccumulator st') = true)
  /\ (forall type pos st',
        PS.init_preset type pos st = Done st' ->
        F32.is_nan (PS.emissionAccumulator st') = true).
Proof.
  intros Hn. split; [| split].
  - intros calls st' Hd. eapply run_nan_credit; eassumption.
  - intros cfg st' Hd. apply init_frame in Hd.
    destruct Hd as (_ & _ & _ & _ & _ & _ & -> & _). exact Hn.
  - intros type pos st' Hd. apply init_preset_frame in Hd.
    destruct Hd as (_ & _ & _ & _ & _ & ->). exact Hn.
Qed.

Lemma nan_credit_is_permanent_witness :
  exists st1 st2 st3,
    PS.update (order := right_to_left) steady_rng 1 F32.nan full_system = Done st1
    /\ PS.init (demo_config 2 (F32.of_Z 10)) st1 = Done st2
    /\ run (order := right_to_left) steady_rng [Update 1 F32.one; Start; Update 1 F32.one] st2 = Done st3
    /\ PS.getAliveCount st3 <= 0.
Proof.
  destruct (PS.update (order := right_to_left) steady_rng 1 F32.nan full_system) as [st1 | |e] eqn:H1;
    [| vm_compute in H1; discriminate ..].
  destruct (PS.init (demo_config 2 (F32.of_Z 10)) st1) as [st2 | |e] eqn:H2;
    [| vm_compute in H1; injection H1 as <-; vm_compute in H2; discriminate ..].
  destruct (run (order := right_to_left) steady_rng [Update 1 F32.one; Start; Update 1 F32.one] st2)
    as [st3 | |e] eqn:H3;
    [| vm_compute in H1; injection H1 as <-; vm_compute in H2;
       injection H2 as <-; vm_compute in H3; discriminate ..].
  exists st1, st2, st3.
  split; [first [exact H1 | reflexivity] |].
  split; [first [exact H2 | reflexivity] |].
  split; [first [exact H3 | reflexivity] |].
  assert (Hn1 : F32.is_nan (PS.emissionAccumulator st1) = true)
    by (vm_compute in H1; injection H1 as <-; reflexivity).
  destruct (nan_credit_is_permanent unit steady_rng right_to_left st1 Hn1) as (_ & Hinit & _).
  destruct (nan_credit_is_permanent unit steady_rng right_to_left st2 (Hinit _ _ H2))
    as (Hrun & _).
  destruct (Hrun _ _ H3) as (_ & _ & Hcount).
  replace (PS.getAliveCount st2) with 0 in Hcount; [exact Hcount |].
  vm_compute in H1. injection H1 as <-. vm_compute in H2. injection H2 as <-.
  reflexivity.
Defined.

(** ** Looping effects and the presets *)

Lemma looping_never_expires {R : Type} dt (st : PS.t R) :
  PS.looping (PS.config st) = true -> expires dt st = false.
Proof. intros Hl. unfold expires. rewrite Hl. reflexivity. Qed.

Lemma run_looping {R : Type} (dist : R -> float * R)
    {order : PS.EvaluationOrder} calls :
  forall (st st' : PS.t R),
    PS.looping (PS.config st) = true ->
    run dist calls st = Done st' ->
    PS.isActive st' = switched calls (PS.isActive st).
Proof.
  induction calls as [|c calls IH]; intros st st' Hl Hd; cbn [run] in Hd.
  - injection Hd as <-. reflexivity.
  - bind_inv Hd.
    destruct (exec_frame R dist c st a E) as (Hcfg & _).
    rewrite (IH a st' ltac:(rewrite Hcfg; exact Hl) Hd).
    unfold switched. cbn [fold_left]. f_equal.
    destruct c as [fuel dt | |]; cbn [exec] in E.
    + unfold PS.isActive.
      rewrite (update_active_flag R dist fuel dt st a E),
        (looping_never_expires dt st Hl).
      apply andb_true_r.
    + injection E as <-. reflexivity.
    + injection E as <-. reflexivity.
Qed.

(** X20: an effect whose config is looping is switched off by [stop] only:
    after any sequence of [update], [start] and [stop] calls its active flag
    is what the last [start] or [stop] made it (or what it was); and every
    preset is such an effect, active after [init]. *)
Theorem looping_effects_stop_only_on_request
    (R : Type) (dist : R -> float * R)
    (order : PS.EvaluationOrder) :
  (forall calls (st st' : PS.t R),
     PS.looping (PS.config st) = true ->
     run dist calls st = Done st' ->
     PS.isActive st' = switched calls (PS.isActive st))
  /\ (forall type pos (st st1 : PS.t R),
        PS.init_preset type pos st = Done st1 ->
        PS.looping (PS.config st1) = true /\ PS.isActive st1 = true).
Proof.
  split.
  - intros calls st st'. apply run_looping.
  - intros type pos st st1 Hd. apply init_preset_frame in Hd.
    destruct Hd as (-> & _ & _ & Ha & _). split; [| exact Ha].
    destruct type; reflexivity.
Qed.

Lemma looping_effects_stop_only_on_request_witness :
  exists st1 st2,
    PS.init_preset PS.Smoke (glm.splat3 F32.zero) (PS.create tt) = Done st1
    /\ run (order := right_to_left) steady_rng [Update 9 F32.tenth; Stop; Update 9 F32.tenth; Start] st1
       = Done st2
    /\ PS.isActive st2 = true.
Proof.
  destruct (looping_effects_stop_only_on_request unit steady_rng right_to_left)
    as [Hrun Hpreset].
  destruct (PS.init_preset PS.Smoke (glm.splat3 F32.zero) (PS.create tt))
    as [st1 | |e] eqn:H1; [| vm_compute in H1; discriminate ..].
  destruct (Hpreset _ _ _ _ H1) as [Hloop Hactive].
  destruct (run (order := right_to_left) steady_rng [Update 9 F32.tenth; Stop; Update 9 F32.tenth; Start] st1)
    as [st2 | |e] eqn:H2;
    [| vm_compute in H1; injection H1 as <-; vm_compute in H2; discriminate ..].
  exists st1, st2.
  split; [first [exact H1 | reflexivity] |].
  split; [first [exact H2 | reflexivity] |].
  rewrite (Hrun _ _ _ Hloop H2). reflexivity.
Defined.

(* ================================================================== *)
(** ** The string helpers of OBJLoader.cpp *)

Section Finds.
Variable set : OBJLoader.text.

Lemma find_first_None str :
  OBJLoader.find_first_not_of set str = None ->
  Forall (fun c => OBJLoader.is_in set c = true) str.
Proof.
  induction str as [|c rest IH]; cbn [OBJLoader.find_first_not_of];
    [constructor |].
  destruct (OBJLoader.is_in set c) eqn:Hc; [| discriminate].
  destruct (OBJLoader.find_first_not_of set rest); [discriminate |].
  intros _. constructor; [exact Hc | apply IH; reflexivity].
Qed.

Lemma find_first_Some str i :
  OBJLoader.find_first_not_of set str = Some i ->
  exists c rest,
    str = firstn i str ++ c :: rest
    /\ length (firstn i str) = i
    /\ Forall (fun c => OBJLoader.is_in set c = true) (firstn i str)
    /\ OBJLoader.is_in set c = false.
Proof.
  revert i.
  induction str as [|c rest IH]; intros i; cbn [OBJLoader.find_first_not_of];
    [discriminate |].
  destruct (OBJLoader.is_in set c) eqn:Hc.
  - destruct (OBJLoader.find_first_not_of set rest) as [j|]; [| discriminate].
    cbn [option_map]. intros Hi. injection Hi as <-.
    destruct (IH j eq_refl) as (d & rest' & Hs & Hl & Hw & Hd).
    exists d, rest'. cbn [firstn app length].
    repeat split; [congruence | congruence | constructor; assumption | exact Hd].
  - intros Hi. injection Hi as <-. exists c, rest. cbn [firstn app length].
    repeat split; [constructor | exact Hc].
Qed.

Lemma find_last_None str :
  OBJLoader.find_last_not_of set str = None ->
  Forall (fun c => OBJLoader.is_in set c = true) str.
Proof.
  induction str as [|c rest IH]; cbn [OBJLoader.find_last_not_of];
    [constructor |].
  destruct (OBJLoader.find_last_not_of set rest); [discriminate |].
  destruct (OBJLoader.is_in set c) eqn:Hc; [| discriminate].
  intros _. constructor; [exact Hc | apply IH; reflexivity].
Qed.

Lemma find_last_Some str j :
  OBJLoader.find_last_not_of set str = Some j ->
  exists c,
    str = firstn j str ++ c :: skipn (S j) str
    /\ length (firstn j str) = j
    /\ OBJLoader.is_in set c = false
    /\ Forall (fun c => OBJLoader.is_in set c = true) (skipn (S j) str).
Proof.
  revert j.
  induction str as [|c rest IH]; intros j; cbn [OBJLoader.find_last_not_of];
    [discriminate |].
  destruct (OBJLoader.find_last_not_of set rest) as [k|] eqn:Hk.
  - intros Hj. injection Hj as <-.
    destruct (IH k eq_refl) as (d & Hs & Hl & Hd & Hw).
    exists d. cbn [firstn app length]. change (skipn (S (S k)) (c :: rest))
      with (skipn (S k) rest).
    repeat split; [congruence | congruence | exact Hd | exact Hw].
  - destruct (OBJLoader.is_in set c) eqn:Hc; [discriminate |].
    intros Hj. injection Hj as <-. exists c. cbn [firstn app length skipn].
    repeat split; [exact Hc |]. apply find_last_None. exact Hk.
Qed.

Lemma Forall_in_not (P : ascii -> bool) l c l1 l2 :
  Forall (fun c => P c = true) l -> l = l1 ++ c :: l2 -> P c = false -> False.
Proof.
  intros Hall -> Hc. apply Forall_app in Hall. destruct Hall as [_ Hall].
  inversion Hall; congruence.
Qed.

(** A first such character comes with a last one, not before it. *)
Lemma find_first_last str i :
  OBJLoader.find_first_not_of set str = Some i ->
  exists j, OBJLoader.find_last_not_of set str = Some j /\ (i <= j)%nat.
Proof.
  intros Hi. destruct (find_first_Some str i Hi) as (c & rest & Hs & Hl & Hw & Hc).
  destruct (OBJLoader.find_last_not_of set str) as [j|] eqn:Hj.
  - exists j. split; [reflexivity |].
    destruct (find_last_Some str j Hj) as (d & Hs' & Hl' & Hd & Hw').
    destruct (le_lt_dec i j) as [Hle | Hlt]; [exact Hle | exfalso].
    (* the character at [i] would lie in the blank tail *)
    assert (Hsk : skipn (S j) str = skipn (S j) (firstn i str) ++ c :: rest).
    { rewrite Hs at 1. rewrite skipn_app.
      replace (S j - length (firstn i str))%nat with 0%nat by lia.
      reflexivity. }
    eapply (Forall_in_not (OBJLoader.is_in set)); [exact Hw' | exact Hsk | exact Hc].
  - exfalso. apply find_last_None in Hj.
    eapply (Forall_in_not (OBJLoader.is_in set)); [exact Hj | exact Hs | exact Hc].
Qed.
End Finds.

Lemma trim_shape str :
  Z.of_nat (length str) < OBJLoader.size_modulus ->
  exists before kept after,
    OBJLoader.trim str = Some kept
    /\ str = before ++ kept ++ after
    /\ blank before /\ blank after /\ tight kept.
Proof.
  intros Hsize. unfold OBJLoader.trim. cbv zeta.
  destruct (OBJLoader.find_first_not_of OBJLoader.whitespace str) as [i|] eqn:Hi.
  - destruct (find_first_last _ str i Hi) as (j & Hj & Hij).
    destruct (find_first_Some _ str i Hi) as (c & rest & Hs & Hl & Hw & Hc).
    destruct (find_last_Some _ str j Hj) as (d & Hs' & Hl' & Hd & Hw').
    rewrite Hj. cbn [OBJLoader.position_value].
    assert (Hjlen : (j < length str)%nat).
    { rewrite Hs'. rewrite length_app. cbn [length]. lia. }
    unfold OBJLoader.substr.
    replace (Z.of_nat (length str) <? Z.of_nat i) with false
      by (symmetry; apply Z.ltb_ge; lia).
    unfold OBJLoader.wrap_size.
    rewrite Z.mod_small by (unfold OBJLoader.size_modulus in *; lia).
    rewrite Nat2Z.id.
    replace (Z.to_nat (Z.of_nat j - Z.of_nat i + 1)) with (S (j - i)) by lia.
    exists (firstn i str), (firstn (S (j - i)) (skipn i str)), (skipn (S j) str).
    split; [reflexivity |].
    assert (Hsplit : str = firstn i str ++ firstn (S (j - i)) (skipn i str)
                           ++ skipn (S j) str).
    { rewrite <- (firstn_skipn i str) at 1. f_equal.
      rewrite <- (firstn_skipn (S (j - i)) (skipn i str)) at 1. f_equal.
      rewrite skipn_skipn. f_equal. lia. }
    split; [exact Hsplit |]. split; [exact Hw |]. split; [exact Hw' |].
    (* the kept part starts with [c] and ends with [d] *)
    assert (Hkept : firstn (S (j - i)) (skipn i str)
                    = firstn (j - i) (skipn i str) ++ [d]).
    { assert (Hlen : length (skipn i (firstn j str)) = (j - i)%nat)
        by (rewrite length_skipn, Hl'; reflexivity).
      assert (Hcomm : firstn (j - i) (skipn i str) = skipn i (firstn j str))
        by (rewrite firstn_skipn_comm; f_equal; f_equal; lia).
      assert (Hsk : skipn i (firstn j str ++ d :: skipn (S j) str)
                    = skipn i (firstn j str) ++ d :: skipn (S j) str).
      { rewrite skipn_app, Hl'. replace (i - j)%nat with 0%nat by lia.
        reflexivity. }
      rewrite <- Hs' in Hsk. rewrite Hcomm, Hsk, firstn_app, Hlen.
      replace (S (j - i) - (j - i))%nat with 1%nat by lia.
      rewrite firstn_all2 by lia. reflexivity. }
    assert (Hhead : skipn i str = c :: rest).
    { rewrite Hs at 1. rewrite skipn_app, Hl.
      replace (i - i)%nat with 0%nat by lia.
      rewrite skipn_all2 by lia. reflexivity. }
    unfold tight. rewrite Hhead. cbn [firstn]. split; [exact Hc |].
    change (c :: firstn (j - i) rest) with (firstn (S (j - i)) (c :: rest)).
    rewrite <- Hhead, Hkept. rewrite last_last. exact Hd.
  - exists str, [], []. split; [reflexivity |].
    split; [rewrite app_nil_r; reflexivity |].
    split; [apply find_first_None; exact Hi |]. split; constructor.
Qed.

Lemma blank_tight_head before kept :
  blank before -> tight (before ++ kept) -> kept <> [] -> before = [].
Proof.
  intros Hb Ht Hk. destruct before as [|x before]; [reflexivity | exfalso].
  cbn [app tight] in Ht. destruct Ht as [Hx _].
  inversion Hb; congruence.
Qed.

Lemma blank_tight_tail kept after :
  blank after -> tight (kept ++ after) -> after = [].
Proof.
  intros Ha Ht.
  destruct after as [|y after]; [reflexivity | exfalso].
  destruct (@exists_last _ (y :: after) ltac:(discriminate)) as (front & x & Hx).
  rewrite Hx in *. clear Hx.
  apply Forall_app in Ha. destruct Ha as [_ Ha]. inversion Ha as [|? ? Hws _]; subst.
  unfold tight in Ht. rewrite app_assoc in Ht.
  destruct ((kept ++ front) ++ [x]) as [|c l] eqn:E;
    [destruct (kept ++ front); discriminate |].
  rewrite <- E in Ht. rewrite last_last in Ht. destruct Ht as [_ Ht]. congruence.
Qed.

Lemma trim_tight kept :
  Z.of_nat (length kept) < OBJLoader.size_modulus ->
  tight kept -> OBJLoader.trim kept = Some kept.
Proof.
  intros Hsize Ht.
  destruct (trim_shape kept Hsize) as (b & k & a & Hk & Hs & Hb & Ha & Htk).
  rewrite Hk. f_equal.
  destruct k as [|c k'].
  - (* everything blank: then [kept] is empty *)
    cbn [app] in Hs. destruct kept as [|x kept']; [reflexivity | exfalso].
    assert (Hall : blank (x :: kept'))
      by (rewrite Hs; apply Forall_app; split; assumption).
    destruct Ht as [Hx _]. inversion Hall; congruence.
  - assert (b = []) as ->
      by (apply (blank_tight_head b ((c :: k') ++ a));
          [exact Hb | rewrite <- Hs; exact Ht | discriminate]).
    cbn [app] in Hs.
    assert (a = []) as ->
      by (apply (blank_tight_tail (c :: k') a);
          [exact Ha | cbn [app]; rewrite <- Hs; exact Ht]).
    rewrite app_nil_r in Hs. congruence.
Qed.

(** X18: for a string shorter than 2^64 characters, [trim] returns the
    middle of [str] between a blank prefix and a blank suffix (blank:
    spaces, tabs, carriage returns, line feeds); the part kept neither
    starts nor ends with such a character, and trimming it again changes
    nothing. [substr] does not throw here. *)
Theorem trim_strips_blank_ends (str : OBJLoader.text) :
  Z.of_nat (length str) < OBJLoader.size_modulus ->
  exists before kept after,
    OBJLoader.trim str = Some kept
    /\ str = before ++ kept ++ after
    /\ blank before /\ blank after /\ tight kept
    /\ OBJLoader.trim kept = Some kept.
Proof.
  intros Hsize.
  destruct (trim_shape str Hsize) as (b & k & a & Hk & Hs & Hb & Ha & Ht).
  exists b, k, a. repeat split; try assumption.
  apply trim_tight; [| exact Ht].
  rewrite Hs, !length_app in Hsize. lia.
Qed.

Lemma trim_strips_blank_ends_witness :
  exists before after,
    OBJLoader.trim [" "; "009"; "v"; " "; "1"; "013"; "010"]%char
    = Some ["v"; " "; "1"]%char
    /\ [" "; "009"; "v"; " "; "1"; "013"; "010"]%char
       = before ++ ["v"; " "; "1"]%char ++ after
    /\ blank before /\ blank after.
Proof.
  destruct (trim_strips_blank_ends [" "; "009"; "v"; " "; "1"; "013"; "010"]%char)
    as (b & k & a & Hk & Hs & Hb & Ha & _);
    [unfold OBJLoader.size_modulus; cbn [length]; lia |].
  assert (Hkept : k = ["v"; " "; "1"]%char)
    by (vm_compute in Hk; injection Hk as <-; reflexivity).
  subst k. exists b, a. repeat split; assumption.
Defined.

(** ** split *)

Lemma getline_None delimiter stream :
  OBJLoader.getline delimiter stream = None -> stream = [].
Proof.
  destruct stream as [|c rest]; [reflexivity |]. cbn [OBJLoader.getline].
  destruct (Ascii.eqb c delimiter); [discriminate |].
  destruct (OBJLoader.getline delimiter rest) as [[token rest']|]; discriminate.
Qed.

Lemma getline_Some delimiter stream : forall token rest,
  OBJLoader.getline delimiter stream = Some (token, rest) ->
  ~ In delimiter token
  /\ (length rest < length stream)%nat
  /\ (stream = token ++ delimiter :: rest
      \/ (stream = token /\ rest = [] /\ token <> [])).
Proof.
  induction stream as [|c stream IH]; intros token rest;
    cbn [OBJLoader.getline]; [discriminate |].
  destruct (Ascii.eqb c delimiter) eqn:Hc.
  - apply Ascii.eqb_eq in Hc. subst c. intros Hd. injection Hd as <- <-.
    split; [intros [] |]. split; [cbn [length]; lia |]. left. reflexivity.
  - apply Ascii.eqb_neq in Hc.
    destruct (OBJLoader.getline delimiter stream) as [[token' rest']|] eqn:Hg.
    + intros Hd. injection Hd as <- <-.
      destruct (IH token' rest' eq_refl) as (Hno & Hlen & Hshape).
      split; [intros [Heq | Hin]; [congruence | contradiction] |].
      split; [cbn [length]; lia |].
      destruct Hshape as [-> | (-> & -> & Hne)].
      * left. reflexivity.
      * right. repeat split; discriminate.
    + apply getline_None in Hg. subst stream.
      intros Hd. injection Hd as <- <-.
      split; [intros [Heq | []]; congruence |].
      split; [cbn [length]; lia |]. right. repeat split; discriminate.
Qed.

Lemma last_app_nonempty {A : Type} (l1 l2 : list A) d :
  l2 <> [] -> last (l1 ++ l2) d = last l2 d.
Proof.
  intros Hne. induction l1 as [|a l1 IH]; [reflexivity |].
  cbn [app last]. destruct (l1 ++ l2) eqn:E.
  - apply app_eq_nil in E. destruct E; contradiction.
  - exact IH.
Qed.

Lemma terminated_cons_token delimiter token rest :
  terminated delimiter (token ++ delimiter :: rest)
  = token ++ [delimiter] ++ terminated delimiter rest.
Proof.
  unfold terminated at 1.
  destruct (token ++ delimiter :: rest) eqn:E;
    [destruct token; discriminate |]. rewrite <- E. clear E.
  rewrite last_app_nonempty by discriminate.
  destruct rest as [|c rest].
  - cbn [last terminated app]. rewrite Ascii.eqb_refl. reflexivity.
  - change (last (delimiter :: c :: rest) delimiter)
      with (last (c :: rest) delimiter).
    unfold terminated.
    destruct (Ascii.eqb (last (c :: rest) delimiter) delimiter);
      first [reflexivity | rewrite <- app_assoc; reflexivity].
Qed.

Lemma terminated_last_token delimiter token :
  token <> [] -> ~ In delimiter token ->
  terminated delimiter token = token ++ [delimiter].
Proof.
  intros Hne Hno. unfold terminated.
  destruct token as [|c token]; [contradiction |].
  destruct (Ascii.eqb (last (c :: token) delimiter) delimiter) eqn:Hl;
    [| reflexivity].
  exfalso. apply Ascii.eqb_eq in Hl. apply Hno.
  destruct (@exists_last _ (c :: token) ltac:(discriminate)) as (front & x & Hx).
  rewrite Hx in *. rewrite last_last in Hl. subst x.
  apply in_or_app. right. left. reflexivity.
Qed.

Lemma split_loop_Done delimiter fuel : forall stream tokens result,
  OBJLoader.split_loop fuel delimiter stream tokens = Done result ->
  exists more,
    result = tokens ++ more
    /\ Forall (fun token => ~ In delimiter token) more
    /\ unsplit delimiter more = terminated delimiter stream.
Proof.
  induction fuel as [|fuel IH]; intros stream tokens result;
    cbn [OBJLoader.split_loop]; [discriminate |].
  destruct (OBJLoader.getline delimiter stream) as [[token rest]|] eqn:Hg.
  - intros Hd. apply IH in Hd. destruct Hd as (more & -> & Hno & Hjoin).
    destruct (getline_Some _ _ _ _ Hg) as (Htok & _ & Hshape).
    exists (token :: more). split; [rewrite <- app_assoc; reflexivity |].
    split; [apply Forall_cons; [exact Htok | exact Hno] |].
    unfold unsplit in *. cbn [flat_map]. rewrite Hjoin.
    destruct Hshape as [-> | (-> & -> & Hne)].
    + rewrite terminated_cons_token. rewrite <- app_assoc. reflexivity.
    + rewrite (terminated_last_token delimiter token) by assumption.
      cbn [terminated].
      rewrite app_nil_r. reflexivity.
  - intros Hd. injection Hd as <-. apply getline_None in Hg. subst stream.
    exists []. split; [rewrite app_nil_r; reflexivity |].
    split; [constructor | reflexivity].
Qed.

Lemma split_loop_enough delimiter fuel : forall stream tokens,
  (length stream < fuel)%nat ->
  returns (OBJLoader.split_loop fuel delimiter stream tokens).
Proof.
  induction fuel as [|fuel IH]; intros stream tokens Hf; [lia |].
  cbn [OBJLoader.split_loop].
  destruct (OBJLoader.getline delimiter stream) as [[token rest]|] eqn:Hg.
  - destruct (getline_Some _ _ _ _ Hg) as (_ & Hlen & _).
    apply IH. lia.
  - eexists. reflexivity.
Qed.

(** X19: [split] returns once the fuel exceeds the length of the string;
    no token contains the delimiter, and the tokens, each followed by the
    delimiter, spell the string with a delimiter added at its end when it
    is not empty and has none there: an empty string gives no token and a
    final delimiter opens no empty token. *)
Theorem split_tokens_rebuild_the_string
    (str : OBJLoader.text) (delimiter : ascii) :
  (forall fuel, (length str < fuel)%nat ->
                returns (OBJLoader.split fuel str delimiter))
  /\ (forall fuel tokens,
        OBJLoader.split fuel str delimiter = Done tokens ->
        Forall (fun token => ~ In delimiter token) tokens
        /\ unsplit delimiter tokens = terminated delimiter str).
Proof.
  split.
  - intros fuel Hf. apply split_loop_enough. exact Hf.
  - intros fuel tokens Hd. apply split_loop_Done in Hd.
    destruct Hd as (more & -> & Hno & Hjoin). split; assumption.
Qed.

Lemma split_tokens_rebuild_the_string_witness :
  OBJLoader.split 8 ["3"; "/"; "/"; "7"]%char "/"%char
  = Done [["3"]; []; ["7"]]%char
  /\ unsplit "/"%char [["3"]; []; ["7"]]%char
     = terminated "/"%char ["3"; "/"; "/"; "7"]%char.
Proof.
  destruct (split_tokens_rebuild_the_string ["3"; "/"; "/"; "7"]%char "/"%char)
    as [_ Hspec].
  split; [vm_compute; reflexivity |].
  apply (Hspec 8%nat [["3"]; []; ["7"]]%char). vm_compute. reflexivity.
Defined.
